(** * Live audio translator: codec, playback scheduler, transcripts, teardown

    A shallow embedding of the TypeScript sources of the translator and the
    properties its specification states about them.

    Sources embedded here:
    - [11/types.ts], second document (the stand-alone script: [encode],
      [decode], [decodeAudioData], [createBlob], [startSession],
      [handleServerMessage], [stopSession], [toggleSession]);
    - the [liveService] modules ([createAudioBlobForLive], the [onmessage]
      wrapper that tracks [currentInputText] and fires [onTurnComplete]);
    - the two revisions of the React [App] ([cleanupAudio], [stopRecording],
      [startRecording], [handleMicClick], [handleFavoriteClick],
      [handleSwapLanguages], the [onMessage] and [onTurnComplete] handlers).

    Conventions.
    - A JavaScript string is the list of its UTF-16 code units.
    - A [Uint8Array] is a list of integers in [0, 256); an [Int16Array] a
      list of integers in [-32768, 32768).
    - A finite floating-point value is the rational it denotes.  Every
      floating-point operation of the codec is exact on its inputs (a
      binary32 sample times 2^15 is a binary64 value; a 16-bit integer
      divided by 2^15 is a binary32 value), so the codec is modelled with
      exact rational arithmetic.  The additions and divisions of the playback
      scheduler do round; they are kept abstract ([DoubleOps]) and only the
      order properties every IEEE-754 rounding has are assumed of them.
    - An exception is a value of [exn]; a function that can throw returns a
      [result], or the variables as it left them together with a
      [completion] when it may have assigned some before throwing. *)

From stdpp Require Import base list strings.
From Stdlib Require Import ZArith QArith Qround Qabs Lia Lqa ZifyNat.

Open Scope Z_scope.

(** ** The JavaScript platform *)

Module JS.

Inductive exn : Type :=
| InvalidCharacterError   (* DOMException of btoa / atob *)
| RangeError              (* typed-array view on a buffer of the wrong size *)
| NotSupportedError       (* DOMException of createBuffer *)
| TypeError               (* member access on null *)
| NotAllowedError         (* getUserMedia refused *)
| SessionCloseError.      (* whatever session.close() may throw *)

(** How a function call ends. *)
Inductive completion : Type :=
| Normal
| Abrupt (e : exn).

Inductive result (A : Type) : Type :=
| Ok (a : A)
| Throw (e : exn).
Arguments Ok {A} a.
Arguments Throw {A} e.

#[export] Instance result_ret : MRet result := fun A a => Ok a.
#[export] Instance result_bind : MBind result :=
  fun A B f m => match m with Ok a => f a | Throw e => Throw e end.

(** A Number: a finite value, NaN, or a signed infinity. *)
Inductive number : Type :=
| Fin (q : Q)
| NaN
| Infinity (negative : bool).

(** ECMAScript [truncate]: "-floor(-x) if x < 0 and otherwise floor(x)". *)
Definition truncate (x : Q) : Z :=
  if Qlt_le_dec x 0 then - Qfloor (- x) else Qfloor x.

(** ECMAScript [ToInt16]: NaN and the infinities give 0; otherwise the
    value is truncated, reduced modulo 2^16 and read as two's complement. *)
Definition ToInt16 (x : number) : Z :=
  match x with
  | Fin q =>
      let int16bit := truncate q mod 65536 in
      if 32768 <=? int16bit then int16bit - 65536 else int16bit
  | NaN | Infinity _ => 0
  end.

(** [ToUint8] and [ToUint16] on an integer. *)
Definition ToUint8 (n : Z) : Z := n mod 256.
Definition ToUint16 (n : Z) : Z := n mod 65536.

(** A Number times a positive finite constant. *)
Definition mul (x : number) (k : Q) : number :=
  match x with
  | Fin q => Fin (q * k)
  | NaN => NaN
  | Infinity s => Infinity s
  end.

(** A string: its UTF-16 code units. *)
Definition jsstring : Type := list Z.

(** The string with the given ASCII text. *)
Definition js (s : string) : jsstring :=
  map (fun a => Z.of_N (Ascii.N_of_ascii a)) (String.list_ascii_of_string s).

(** [String.fromCharCode(n)]: the one code unit [ToUint16 n]. *)
Definition fromCharCode (n : Z) : Z := ToUint16 n.

(** *** Typed arrays over one buffer (little-endian platform) *)

(** [new Uint8Array(int16.buffer)]: two bytes per element, low byte first. *)
Definition Uint8Array_of_Int16Array (int16 : list Z) : list Z :=
  flat_map (fun v => let u := v mod 65536 in [u mod 256; u / 256]) int16.

Fixpoint int16_pairs (bytes : list Z) : list Z :=
  match bytes with
  | lo :: hi :: rest =>
      let u := lo + 256 * hi in
      (if 32768 <=? u then u - 65536 else u) :: int16_pairs rest
  | _ => []
  end.

(** [new Int16Array(data.buffer)]: a RangeError unless the byte length is
    a multiple of 2. *)
Definition Int16Array_of_buffer (bytes : list Z) : result (list Z) :=
  if Nat.even (length bytes) then Ok (int16_pairs bytes) else Throw RangeError.

(** *** base64: [btoa] and [atob] *)

(** RFC 4648, table 1. *)
Definition b64_char (v : Z) : Z :=
  if v <? 26 then v + 65
  else if v <? 52 then v + 71
  else if v <? 62 then v - 4
  else if v =? 62 then 43 else 47.

Definition b64_index (c : Z) : option Z :=
  if (65 <=? c) && (c <=? 90) then Some (c - 65)
  else if (97 <=? c) && (c <=? 122) then Some (c - 71)
  else if (48 <=? c) && (c <=? 57) then Some (c + 4)
  else if c =? 43 then Some 62
  else if c =? 47 then Some 63
  else None.

(** The 6-bit groups of a byte sequence; a final group of one or two bytes
    is filled with zero bits. *)
Fixpoint b64_sextets (bytes : list Z) : list Z :=
  match bytes with
  | a :: b :: c :: rest =>
      a / 4 :: (a mod 4) * 16 + b / 16 :: (b mod 16) * 4 + c / 64 :: c mod 64
        :: b64_sextets rest
  | [a; b] => [a / 4; (a mod 4) * 16 + b / 16; (b mod 16) * 4]
  | [a] => [a / 4; (a mod 4) * 16]
  | [] => []
  end.

Definition b64_padding (n : nat) : list Z :=
  match (n mod 3)%nat with
  | 1%nat => [61; 61]
  | 2%nat => [61]
  | _ => []
  end.

Definition b64_encode (bytes : list Z) : jsstring :=
  map b64_char (b64_sextets bytes) ++ b64_padding (length bytes).

(** [btoa(data)]: InvalidCharacterError if a code unit exceeds U+00FF,
    otherwise the base64 text of the bytes. *)
Definition btoa (data : jsstring) : result jsstring :=
  if forallb (fun c => c <=? 255) data then Ok (b64_encode data)
  else Throw InvalidCharacterError.

(** ASCII whitespace: TAB, LF, FF, CR, SPACE. *)
Definition ascii_whitespace (c : Z) : bool :=
  (c =? 9) || (c =? 10) || (c =? 12) || (c =? 13) || (c =? 32).

(** Step 2 of forgiving-base64 decode: when the length is a multiple of 4,
    one or two trailing [=] are removed. *)
Definition ends_with_equals (data : jsstring) : bool :=
  match last data with
  | Some c => c =? 61
  | None => false
  end.

Definition strip_padding (data : jsstring) : jsstring :=
  if (length data mod 4 =? 0)%nat then
    if ends_with_equals data then
      let data := removelast data in
      if ends_with_equals data then removelast data else data
    else data
  else data.

(** Steps 5 to 9: six bits per character into a buffer that is flushed as
    three bytes when it holds 24 bits; 12 or 18 remaining bits give one or
    two bytes, the last 4 or 2 bits being discarded.  [n] counts the
    characters in the buffer. *)
Fixpoint atob_loop (data : jsstring) (buffer : Z) (n : nat) : list Z :=
  match data with
  | [] =>
      match n with
      | 2%nat => [buffer / 16]
      | 3%nat => [buffer / 4 / 256; (buffer / 4) mod 256]
      | _ => []
      end
  | c :: rest =>
      let buffer := buffer * 64 + default 0 (b64_index c) in
      match n with
      | 3%nat =>
          buffer / 65536 :: (buffer / 256) mod 256 :: buffer mod 256
            :: atob_loop rest 0 0
      | _ => atob_loop rest buffer (S n)
      end
  end.

(** [atob(data)]: forgiving-base64 decode; failure is an
    InvalidCharacterError. *)
Definition atob (data : jsstring) : result jsstring :=
  let data := List.filter (fun c => negb (ascii_whitespace c)) data in
  let data := strip_padding data in
  if (length data mod 4 =? 1)%nat then Throw InvalidCharacterError
  else if forallb (fun c => bool_decide (is_Some (b64_index c))) data
       then Ok (atob_loop data 0 0)
       else Throw InvalidCharacterError.

(** *** String helpers used by the transcript code *)

(** ECMAScript WhiteSpace and LineTerminator code units ([trim]). *)
Definition is_whitespace (c : Z) : bool :=
  ((9 <=? c) && (c <=? 13)) || (c =? 32) || (c =? 160) || (c =? 5760)
  || ((8192 <=? c) && (c <=? 8202)) || (c =? 8232) || (c =? 8233)
  || (c =? 8239) || (c =? 8287) || (c =? 12288) || (c =? 65279).

Fixpoint trim_start (s : jsstring) : jsstring :=
  match s with
  | c :: rest => if is_whitespace c then trim_start rest else s
  | [] => []
  end.

Definition trim (s : jsstring) : jsstring :=
  rev (trim_start (rev (trim_start s))).

Fixpoint is_prefix (p s : jsstring) : bool :=
  match p, s with
  | [], _ => true
  | a :: p', b :: s' => (a =? b) && is_prefix p' s'
  | _ :: _, [] => false
  end.

(** [s.split(sep)] for a non-empty separator.  [cur] is the piece being
    read and [skip] the number of separator characters still to pass. *)
Fixpoint split_from (sep s cur : jsstring) (skip : nat) : list jsstring :=
  match s with
  | [] => [cur]
  | c :: rest =>
      match skip with
      | S k => split_from sep rest cur k
      | O =>
          if is_prefix sep s
          then cur :: split_from sep rest [] (length sep - 1)
          else split_from sep rest (cur ++ [c]) 0
      end
  end.

Definition split (s sep : jsstring) : list jsstring := split_from sep s [] 0.

(** [pieces.join(sep)]. *)
Fixpoint join (pieces : list jsstring) (sep : jsstring) : jsstring :=
  match pieces with
  | [] => []
  | [p] => p
  | p :: rest => p ++ sep ++ join rest sep
  end.

(** [xs.slice(-n)] on an array or a string: the last [n] elements. *)
Definition slice_last {A} (n : nat) (xs : list A) : list A :=
  drop (length xs - n) xs.

End JS.

Import JS.

(** ** IEEE-754 double arithmetic of the playback clock

    [nextStartTime], [currentTime] and buffer durations are doubles, and the
    sums and quotients the scheduler forms are rounded.  The two operations
    are parameters of the model; [DoubleOpsOrder] states the only facts used
    about them, which hold of every IEEE-754 rounding mode (rounding is
    monotone and leaves representable values unchanged).  Exact rational
    arithmetic is one instance. *)

Class DoubleOps : Type := {
  fadd : Q -> Q -> Q;
  fdiv : Q -> Q -> Q
}.

Class DoubleOpsOrder (ops : DoubleOps) : Prop := {
  fadd_ge : forall a b : Q, (0 <= b)%Q -> (a <= fadd a b)%Q;
  fdiv_nonneg : forall a b : Q, (0 <= a)%Q -> (0 < b)%Q -> (0 <= fdiv a b)%Q
}.

Definition exact_ops : DoubleOps := {| fadd := Qplus; fdiv := Qdiv |}.

(** [Math.max] on two finite values. *)
Definition Math_max (a b : Q) : Q := if Qlt_le_dec a b then b else a.

(** ** The Web Audio objects the code uses *)

Module WebAudio.

(** An [AudioBuffer]: [channelData] holds one [Float32Array] per channel,
    each of [frames] elements. *)
Record AudioBuffer : Type := {
  sampleRate : Q;
  frames : nat;
  channelData : list (list number)
}.

(** Web IDL [unsigned long] of a Number (lengths stay far below 2^32, so
    the reduction modulo 2^32 is left out): NaN and the infinities give 0,
    a finite value is truncated. *)
Definition unsigned_long (x : number) : nat :=
  match x with
  | Fin q => Z.to_nat (truncate q)
  | NaN | Infinity _ => 0%nat
  end.

(** Sample rates and channel counts every implementation must support;
    the model rejects the others, as an implementation may. *)
Definition rate_supported (r : Q) : bool :=
  Qle_bool 8000 r && Qle_bool r 96000.
Definition max_channels : nat := 32.

(** [ctx.createBuffer(numberOfChannels, length, sampleRate)]:
    "A NotSupportedError exception MUST be thrown if any of the arguments
    is negative, zero, or outside its nominal range."  The buffer is
    created silent. *)
Definition createBuffer (numberOfChannels : nat) (length : number) (rate : Q)
  : result AudioBuffer :=
  let n := unsigned_long length in
  if (numberOfChannels =? 0)%nat || (max_channels <? numberOfChannels)%nat
     || (n =? 0)%nat || negb (rate_supported rate)
  then Throw NotSupportedError
  else Ok {| sampleRate := rate;
             frames := n;
             channelData := replicate numberOfChannels (replicate n (Fin 0)) |}.

(** [buffer.duration]: length over sample rate, a double. *)
Definition duration `{DoubleOps} (b : AudioBuffer) : Q :=
  fdiv (inject_Z (Z.of_nat (frames b))) (sampleRate b).

End WebAudio.

Import WebAudio.

(** ** The PCM codec ([encode], [decode], [decodeAudioData], [createBlob]) *)

Module Audio.

(** [{ data, mimeType }] of [@google/genai]. *)
Record Blob : Type := { data : jsstring; mimeType : jsstring }.

(** [encode(bytes)]: one character per byte, then [btoa]. *)
Definition encode (bytes : list Z) : result jsstring :=
  let binary := map fromCharCode bytes in
  btoa binary.

(** [decode(base64)]: [atob], then [bytes[i] = binaryString.charCodeAt(i)]
    (a store into a [Uint8Array]). *)
Definition decode (base64 : jsstring) : result (list Z) :=
  binaryString ← atob base64;
  mret (map ToUint8 binaryString).

(** [dataInt16.length / numChannels] as a Number. *)
Definition div_length (len numChannels : nat) : number :=
  match numChannels with
  | O => if (len =? 0)%nat then NaN else Infinity false
  | S _ => Fin (Z.of_nat len # Pos.of_nat numChannels)
  end.

(** How many [i = 0, 1, ...] satisfy [i < frameCount]. *)
Definition iterations (frameCount : number) : nat :=
  match frameCount with
  | Fin q => Z.to_nat (Qceiling q)
  | _ => 0%nat  (* only with zero channels, where the outer loop is empty *)
  end.

(** [dataInt16[j] / 32768.0]; an index past the end reads [undefined],
    whose quotient is NaN. *)
Definition sample_at (dataInt16 : list Z) (j : nat) : number :=
  match dataInt16 !! j with
  | Some v => Fin (v # 32768)
  | None => NaN
  end.

(** The inner loop: [channelData[i] = dataInt16[i * numChannels + channel]
    / 32768.0] for [i < frameCount].  A store past the end of a typed array
    is ignored. *)
Definition fill_channel (dataInt16 : list Z) (numChannels channel : nat)
    (frameCount : number) (channelData : list number) : list number :=
  foldl (fun cd i => <[i := sample_at dataInt16 (i * numChannels + channel)]> cd)
        channelData (seq 0 (iterations frameCount)).

(** [decodeAudioData(data, ctx, sampleRate, numChannels)]. *)
Definition decodeAudioData (data : list Z) (sampleRate : Q) (numChannels : nat)
  : result AudioBuffer :=
  dataInt16 ← Int16Array_of_buffer data;
  let frameCount := div_length (length dataInt16) numChannels in
  buffer ← createBuffer numChannels frameCount sampleRate;
  mret (foldl
          (fun buffer channel =>
             match channelData buffer !! channel with
             | Some cd =>
                 {| sampleRate := WebAudio.sampleRate buffer;
                    frames := frames buffer;
                    channelData :=
                      <[channel := fill_channel dataInt16 numChannels channel
                                     frameCount cd]> (channelData buffer) |}
             | None => buffer
             end)
          buffer (seq 0 numChannels)).

(** [createBlob(data)] of the script. *)
Definition createBlob (data : list number) : result Blob :=
  let int16 := map (fun x => ToInt16 (mul x 32768)) data in
  d ← encode (Uint8Array_of_Int16Array int16);
  mret {| data := d; mimeType := js "audio/pcm;rate=16000" |}.

(** [createAudioBlobForLive(data)] of [liveService]: the same body. *)
Definition createAudioBlobForLive (data : list number) : result Blob :=
  let int16 := map (fun x => ToInt16 (mul x 32768)) data in
  d ← encode (Uint8Array_of_Int16Array int16);
  mret {| data := d; mimeType := js "audio/pcm;rate=16000" |}.

End Audio.

(** ** Browser objects behind the handles the code keeps

    Objects are allocated in lists and named by their index; a variable or a
    React ref of the code holds [Some] index or [None] for [null]. *)

Module Browser.

(** A live session: [Failed] when the connect promise rejected. *)
Inductive SessionStatus : Type := Open | Closed | Failed.

(** An audio node with the stream it reads, if it is a stream source. *)
Record AudioNode : Type := { connected : bool; mediaStream : option nat }.

(** An [AudioBufferSourceNode] once [start(when)] has been called. *)
Record SourceNode : Type := {
  startTime : Q;
  bufferDuration : Q;
  playbackRate : Q;
  stopped : bool
}.

Record Platform : Type := {
  sessions : list SessionStatus;
  tracksLive : list bool;        (* per MediaStream: are its tracks live *)
  nodes : list AudioNode;
  contextRunning : list bool;    (* per AudioContext: state is not closed *)
  sources : list SourceNode
}.

Definition empty : Platform :=
  {| sessions := []; tracksLive := []; nodes := []; contextRunning := [];
     sources := [] |}.

Definition set_sessions (v : list SessionStatus) (p : Platform) : Platform :=
  {| sessions := v; tracksLive := tracksLive p; nodes := nodes p;
     contextRunning := contextRunning p; sources := sources p |}.
Definition set_tracksLive (v : list bool) (p : Platform) : Platform :=
  {| sessions := sessions p; tracksLive := v; nodes := nodes p;
     contextRunning := contextRunning p; sources := sources p |}.
Definition set_nodes (v : list AudioNode) (p : Platform) : Platform :=
  {| sessions := sessions p; tracksLive := tracksLive p; nodes := v;
     contextRunning := contextRunning p; sources := sources p |}.
Definition set_contextRunning (v : list bool) (p : Platform) : Platform :=
  {| sessions := sessions p; tracksLive := tracksLive p; nodes := nodes p;
     contextRunning := v; sources := sources p |}.
Definition set_sources (v : list SourceNode) (p : Platform) : Platform :=
  {| sessions := sessions p; tracksLive := tracksLive p; nodes := nodes p;
     contextRunning := contextRunning p; sources := v |}.

(** [session.close()] when it returns. *)
Definition close_session (id : nat) (p : Platform) : Platform :=
  set_sessions (<[id := Closed]> (sessions p)) p.

(** [stream.getTracks().forEach(track => track.stop())]. *)
Definition stop_tracks (id : nat) (p : Platform) : Platform :=
  set_tracksLive (<[id := false]> (tracksLive p)) p.

(** [node.disconnect()]. *)
Definition disconnect (id : nat) (p : Platform) : Platform :=
  set_nodes (alter (fun n => {| connected := false; mediaStream := mediaStream n |})
                   id (nodes p)) p.

(** [a.connect(b)]: [a] gets an outgoing connection. *)
Definition connect (id : nat) (p : Platform) : Platform :=
  set_nodes (alter (fun n => {| connected := true; mediaStream := mediaStream n |})
                   id (nodes p)) p.

(** [ctx.close()]. *)
Definition close_context (id : nat) (p : Platform) : Platform :=
  set_contextRunning (<[id := false]> (contextRunning p)) p.

(** [source.stop()]. *)
Definition stop_source (id : nat) (p : Platform) : Platform :=
  set_sources (alter (fun n => {| startTime := startTime n;
                                  bufferDuration := bufferDuration n;
                                  playbackRate := playbackRate n;
                                  stopped := true |})
                     id (sources p)) p.

Definition open_sessions (p : Platform) : nat :=
  length (List.filter (fun s => match s with Open => true | _ => false end)
                      (sessions p)).

End Browser.

(** What the handlers find along
    [serverContent?.modelTurn?.parts[0]?.inlineData?.data].  There is no [?.]
    between [parts] and [[0]]: when the message has a [modelTurn] without
    [parts] (the field is optional in [Content]) the read throws a
    TypeError.  Everywhere else a missing link makes the chain
    [undefined]. *)
Inductive InlineData : Type :=
| Data (data : jsstring)
| NoData
| NoParts.

(** A message of the live service, reduced to the fields the handlers read:
    [serverContent?.inputTranscription.text],
    [serverContent?.outputTranscription.text], [serverContent?.turnComplete],
    [serverContent?.modelTurn?.parts[0]?.inlineData?.data] and
    [serverContent?.interrupted]. *)
Record LiveServerMessage : Type := {
  inputTranscription : option jsstring;
  outputTranscription : option jsstring;
  turnComplete : bool;
  inlineData : InlineData;
  interrupted : bool
}.

(** A JavaScript [Set] keeps insertion order. *)
Definition set_add (x : nat) (s : list nat) : list nat :=
  if bool_decide (x ∈ s) then s else s ++ [x].
Definition set_delete (x : nat) (s : list nat) : list nat :=
  List.filter (fun y => negb (y =? x)%nat) s.

(** ** The stand-alone script ([11/types.ts], second document)

    The module-level variables are the fields of [State].  Writes to the DOM
    (status line, button, transcript boxes, scrolling) change none of them
    and are left out.  A message is handled to its end before the next one
    arrives: the only await of [handleServerMessage] is on a promise that is
    already settled, so the handler resumes within the same task. *)

Module Script.
Import Browser.

Record Transcripts : Type := {
  currentInputTranscription : jsstring;
  currentOutputTranscription : jsstring;
  fullUserTranscript : jsstring;
  fullModelTranscript : jsstring
}.

Record State : Type := {
  session : option nat;
  mediaStream : option nat;
  inputAudioContext : option nat;
  outputAudioContext : option nat;
  scriptProcessor : option nat;
  mediaStreamSource : option nat;
  nextStartTime : Q;
  outputSources : list nat;
  transcripts : Transcripts;
  browser : Platform
}.

Definition set_nextStartTime (v : Q) (st : State) : State :=
  {| session := session st; mediaStream := mediaStream st;
     inputAudioContext := inputAudioContext st;
     outputAudioContext := outputAudioContext st;
     scriptProcessor := scriptProcessor st;
     mediaStreamSource := mediaStreamSource st;
     nextStartTime := v; outputSources := outputSources st;
     transcripts := transcripts st; browser := browser st |}.
Definition set_outputSources (v : list nat) (st : State) : State :=
  {| session := session st; mediaStream := mediaStream st;
     inputAudioContext := inputAudioContext st;
     outputAudioContext := outputAudioContext st;
     scriptProcessor := scriptProcessor st;
     mediaStreamSource := mediaStreamSource st;
     nextStartTime := nextStartTime st; outputSources := v;
     transcripts := transcripts st; browser := browser st |}.
Definition set_transcripts (v : Transcripts) (st : State) : State :=
  {| session := session st; mediaStream := mediaStream st;
     inputAudioContext := inputAudioContext st;
     outputAudioContext := outputAudioContext st;
     scriptProcessor := scriptProcessor st;
     mediaStreamSource := mediaStreamSource st;
     nextStartTime := nextStartTime st; outputSources := outputSources st;
     transcripts := v; browser := browser st |}.
Definition set_browser (v : Platform) (st : State) : State :=
  {| session := session st; mediaStream := mediaStream st;
     inputAudioContext := inputAudioContext st;
     outputAudioContext := outputAudioContext st;
     scriptProcessor := scriptProcessor st;
     mediaStreamSource := mediaStreamSource st;
     nextStartTime := nextStartTime st; outputSources := outputSources st;
     transcripts := transcripts st; browser := v |}.

Definition no_transcripts : Transcripts :=
  {| currentInputTranscription := []; currentOutputTranscription := [];
     fullUserTranscript := []; fullModelTranscript := [] |}.

(** The variables as the script initialises them. *)
Definition initial : State :=
  {| session := None; mediaStream := None; inputAudioContext := None;
     outputAudioContext := None; scriptProcessor := None;
     mediaStreamSource := None; nextStartTime := 0; outputSources := [];
     transcripts := no_transcripts; browser := Browser.empty |}.

Definition MAX_TRANSCRIPT_LINES : nat := 6.

Definition br : jsstring := js "<br>".

(** "Trim history to MAX_LINES". *)
Definition trim_history (full : jsstring) : jsstring :=
  let lines :=
    List.filter (fun line => negb (bool_decide (trim line = []))) (split full br) in
  if (MAX_TRANSCRIPT_LINES <? length lines)%nat
  then join (slice_last MAX_TRANSCRIPT_LINES lines) br ++ br
  else full.

(** "Handle transcriptions". *)
Definition handle_transcriptions (message : LiveServerMessage) (t : Transcripts)
  : Transcripts :=
  let t :=
    match inputTranscription message with
    | Some text =>
        {| currentInputTranscription := currentInputTranscription t ++ text;
           currentOutputTranscription := currentOutputTranscription t;
           fullUserTranscript := fullUserTranscript t;
           fullModelTranscript := fullModelTranscript t |}
    | None => t
    end in
  let t :=
    match outputTranscription message with
    | Some text =>
        {| currentInputTranscription := currentInputTranscription t;
           currentOutputTranscription := currentOutputTranscription t ++ text;
           fullUserTranscript := fullUserTranscript t;
           fullModelTranscript := fullModelTranscript t |}
    | None => t
    end in
  if turnComplete message then
    {| currentInputTranscription := [];
       currentOutputTranscription := [];
       fullUserTranscript :=
         trim_history (fullUserTranscript t ++ currentInputTranscription t ++ br);
       fullModelTranscript :=
         trim_history (fullModelTranscript t ++ currentOutputTranscription t ++ br) |}
  else t.

Section WithDoubles.
Context `{ops : DoubleOps}.

(** [source.playbackRate.value = 1.15], as it is read back: an AudioParam
    holds a binary32 value, and the one nearest to 1.15 is
    9646899 / 2^23 = 1.149999976158142. *)
Definition speech_rate : Q := 9646899 # 8388608.

(** "Handle audio output".  [currentTime] is
    [outputAudioContext.currentTime] when the message is handled.  The
    payload is read before the context is looked at; a TypeError of that read
    ends the handler at once.  An exception of [decode] or [decodeAudioData]
    ends it with the cursor already raised. *)
Definition handle_audio (message : LiveServerMessage) (currentTime : Q)
    (st : State) : State * completion :=
  match inlineData message, outputAudioContext st with
  | NoParts, _ => (st, Abrupt TypeError)
  | Data base64Audio, Some _ =>
      if bool_decide (base64Audio = []) then (st, Normal)
      else
        let st := set_nextStartTime (Math_max (nextStartTime st) currentTime) st in
        match (bytes ← Audio.decode base64Audio;
               Audio.decodeAudioData bytes 24000 1) with
        | Throw e => (st, Abrupt e)
        | Ok audioBuffer =>
            let source := length (sources (browser st)) in
            let node :=
              {| startTime := nextStartTime st;
                 bufferDuration := duration audioBuffer;
                 playbackRate := speech_rate;
                 stopped := false |} in
            let st :=
              set_browser
                (set_sources (sources (browser st) ++ [node]) (browser st)) st in
            let st :=
              set_nextStartTime
                (fadd (nextStartTime st) (fdiv (duration audioBuffer) speech_rate))
                st in
            (set_outputSources (set_add source (outputSources st)) st, Normal)
        end
  | _, _ => (st, Normal)
  end.

(** "Handle interruption": every source of the set is stopped and
    deleted, then the cursor is reset. *)
Definition handle_interrupted (message : LiveServerMessage) (st : State) : State :=
  if interrupted message then
    let st :=
      foldl (fun st source =>
               set_outputSources (set_delete source (outputSources st))
                 (set_browser (stop_source source (browser st)) st))
            st (outputSources st) in
    set_nextStartTime 0 st
  else st.

(** [handleServerMessage(message)]. *)
Definition handleServerMessage (message : LiveServerMessage) (currentTime : Q)
    (st : State) : State * completion :=
  let st := set_transcripts (handle_transcriptions message (transcripts st)) st in
  match handle_audio message currentTime st with
  | (st, Abrupt e) => (st, Abrupt e)
  | (st, Normal) => (handle_interrupted message st, Normal)
  end.

(** The messages of a session, each with the output clock at its
    arrival, handled one after the other; a handler that threw leaves the
    variables as they were at the throw. *)
Definition handle_all (arrivals : list (LiveServerMessage * Q)) (st : State)
  : State :=
  foldl (fun st a => (handleServerMessage a.1 a.2 st).1) st arrivals.

End WithDoubles.

(** The ['ended'] listener of a source. *)
Definition source_ended (source : nat) (st : State) : State :=
  set_outputSources (set_delete source (outputSources st)) st.

(** [stopSession(sessionAlreadyClosed)].  [closeThrows] tells whether
    [session.close()] throws; nothing catches it. *)
Definition stopSession (closeThrows : bool) (sessionAlreadyClosed : bool)
    (st : State) : State * completion :=
  let closing :=
    match session st with
    | Some s => negb sessionAlreadyClosed
    | None => false
    end in
  if closing && closeThrows then (st, Abrupt SessionCloseError)
  else
    let p := browser st in
    let p := match session st with
             | Some s => if closing then close_session s p else p
             | None => p
             end in
    let p := match mediaStream st with
             | Some m => stop_tracks m p
             | None => p
             end in
    let p := match scriptProcessor st with
             | Some n => disconnect n p
             | None => p
             end in
    let p := match mediaStreamSource st with
             | Some n => disconnect n p
             | None => p
             end in
    let closable ctx :=
      match ctx with
      | Some c => bool_decide (contextRunning p !! c = Some true)
      | None => false
      end in
    let inputClosable := closable (inputAudioContext st) in
    let outputClosable := closable (outputAudioContext st) in
    let p := match inputAudioContext st with
             | Some c => if inputClosable then close_context c p else p
             | None => p
             end in
    let p := match outputAudioContext st with
             | Some c => if outputClosable then close_context c p else p
             | None => p
             end in
    ({| session := None;
        mediaStream := None;
        inputAudioContext := if inputClosable then None else inputAudioContext st;
        outputAudioContext := if outputClosable then None else outputAudioContext st;
        scriptProcessor := None;
        mediaStreamSource := None;
        nextStartTime := nextStartTime st;
        outputSources := outputSources st;
        transcripts := no_transcripts;
        browser := p |}, Normal).

(** [startSession()].  [streamGranted]: [getUserMedia] resolves;
    [connected]: the socket opens, the [onopen] callback runs and the connect
    promise resolves.  A rejection is caught and answered by
    [stopSession()]. *)
Definition startSession (streamGranted connected closeThrows : bool)
    (st : State) : State * completion :=
  if negb streamGranted then stopSession closeThrows false st
  else
    let p := browser st in
    let stream := length (tracksLive p) in
    let p := set_tracksLive (tracksLive p ++ [true]) p in
    let inputCtx := length (contextRunning p) in
    let outputCtx := S inputCtx in
    let p := set_contextRunning (contextRunning p ++ [true; true]) p in
    let sessionId := length (sessions p) in
    if connected then
      let p := set_sessions (sessions p ++ [Open]) p in
      (* onopen *)
      let source := length (nodes p) in
      let processor := S source in
      let p := set_nodes (nodes p ++
                 [ {| connected := false; Browser.mediaStream := Some stream |};
                   {| connected := false; Browser.mediaStream := None |} ]) p in
      let p := connect source p in
      let p := connect processor p in
      ({| session := Some sessionId;
          mediaStream := Some stream;
          inputAudioContext := Some inputCtx;
          outputAudioContext := Some outputCtx;
          scriptProcessor := Some processor;
          mediaStreamSource := Some source;
          nextStartTime := nextStartTime st;
          outputSources := outputSources st;
          transcripts := transcripts st;
          browser := p |}, Normal)
    else
      let p := set_sessions (sessions p ++ [Failed]) p in
      stopSession closeThrows false
        {| session := session st;
           mediaStream := Some stream;
           inputAudioContext := Some inputCtx;
           outputAudioContext := Some outputCtx;
           scriptProcessor := scriptProcessor st;
           mediaStreamSource := mediaStreamSource st;
           nextStartTime := nextStartTime st;
           outputSources := outputSources st;
           transcripts := transcripts st;
           browser := p |}.

(** [toggleSession()]. *)
Definition toggleSession (streamGranted connected closeThrows : bool)
    (st : State) : State * completion :=
  match session st with
  | Some _ => stopSession closeThrows false st
  | None => startSession streamGranted connected closeThrows st
  end.

End Script.

(** ** The React application ([App], first revision of the component)

    React state and refs are the fields of [State]; an event handler reads
    the state of the latest render.  An [async] function is run to its end:
    what its awaits deliver (the media stream, the settled session promise,
    whether [session.close()] throws) is an argument, and no other handler
    runs in between. *)

Module App.
Import Browser.

Record State : Type := {
  isRecording : bool;
  selectedDeviceId : jsstring;
  error : option jsstring;
  userInputHistory : jsstring;
  translationHistory : jsstring;
  sessionPromiseRef : option nat;
  inputAudioContextRef : option nat;
  outputAudioContextRef : option nat;
  mediaStreamSourceRef : option nat;
  scriptProcessorRef : option nat;
  analyserNodeRef : option nat;
  nextStartTimeRef : Q;
  browser : Platform
}.

(** The state of the first render, with the microphone the device effect
    selected. *)
Definition initial (deviceId : jsstring) : State :=
  {| isRecording := false; selectedDeviceId := deviceId; error := None;
     userInputHistory := []; translationHistory := [];
     sessionPromiseRef := None; inputAudioContextRef := None;
     outputAudioContextRef := None; mediaStreamSourceRef := None;
     scriptProcessorRef := None; analyserNodeRef := None;
     nextStartTimeRef := 0; browser := Browser.empty |}.

Definition MAX_HISTORY_LENGTH : nat := 1000.

(** [cleanupAudio()]: every step is guarded by [?.]; a rejected
    [close()] promise is caught. *)
Definition cleanupAudio (st : State) : State :=
  let p := browser st in
  let p := match mediaStreamSourceRef st with
           | Some n =>
               match nodes p !! n with
               | Some {| mediaStream := Some m |} => stop_tracks m p
               | _ => p
               end
           | None => p
           end in
  let p := match mediaStreamSourceRef st with
           | Some n => disconnect n p
           | None => p
           end in
  let p := match scriptProcessorRef st with
           | Some n => disconnect n p
           | None => p
           end in
  let p := match inputAudioContextRef st with
           | Some c => close_context c p
           | None => p
           end in
  let p := match outputAudioContextRef st with
           | Some c => close_context c p
           | None => p
           end in
  {| isRecording := isRecording st; selectedDeviceId := selectedDeviceId st;
     error := error st; userInputHistory := userInputHistory st;
     translationHistory := translationHistory st;
     sessionPromiseRef := sessionPromiseRef st;
     inputAudioContextRef := None; outputAudioContextRef := None;
     mediaStreamSourceRef := None; scriptProcessorRef := None;
     analyserNodeRef := None;
     nextStartTimeRef := nextStartTimeRef st; browser := p |}.

(** [stopRecording()]: [try { (await promise).close() } catch { log }
    finally { ref = null }], then [cleanupAudio()]. *)
Definition stopRecording (closeThrows : bool) (st : State) : State :=
  let p :=
    match sessionPromiseRef st with
    | Some s =>
        match sessions (browser st) !! s with
        | Some Failed => browser st            (* the await rejects *)
        | _ => if closeThrows then browser st  (* close() throws *)
               else close_session s (browser st)
        end
    | None => browser st
    end in
  cleanupAudio
    {| isRecording := false; selectedDeviceId := selectedDeviceId st;
       error := error st; userInputHistory := userInputHistory st;
       translationHistory := translationHistory st;
       sessionPromiseRef := None;
       inputAudioContextRef := inputAudioContextRef st;
       outputAudioContextRef := outputAudioContextRef st;
       mediaStreamSourceRef := mediaStreamSourceRef st;
       scriptProcessorRef := scriptProcessorRef st;
       analyserNodeRef := analyserNodeRef st;
       nextStartTimeRef := nextStartTimeRef st; browser := p |}.

(** [startRecording()].  [streamGranted]: [getUserMedia] resolves;
    [connected]: the connect promise of the live service resolves. *)
Definition startRecording (streamGranted connected : bool) (st : State)
  : State * completion :=
  if bool_decide (selectedDeviceId st = []) then
    ({| isRecording := isRecording st; selectedDeviceId := selectedDeviceId st;
        error := Some (js "No microphone selected.");
        userInputHistory := userInputHistory st;
        translationHistory := translationHistory st;
        sessionPromiseRef := sessionPromiseRef st;
        inputAudioContextRef := inputAudioContextRef st;
        outputAudioContextRef := outputAudioContextRef st;
        mediaStreamSourceRef := mediaStreamSourceRef st;
        scriptProcessorRef := scriptProcessorRef st;
        analyserNodeRef := analyserNodeRef st;
        nextStartTimeRef := nextStartTimeRef st; browser := browser st |}, Normal)
  else
    let p := browser st in
    let inputCtx := length (contextRunning p) in
    let outputCtx := S inputCtx in
    let p := set_contextRunning (contextRunning p ++ [true; true]) p in
    if negb streamGranted then
      ({| isRecording := true; selectedDeviceId := selectedDeviceId st;
          error := None; userInputHistory := []; translationHistory := [];
          sessionPromiseRef := sessionPromiseRef st;
          inputAudioContextRef := Some inputCtx;
          outputAudioContextRef := Some outputCtx;
          mediaStreamSourceRef := mediaStreamSourceRef st;
          scriptProcessorRef := scriptProcessorRef st;
          analyserNodeRef := analyserNodeRef st;
          nextStartTimeRef := 0; browser := p |}, Abrupt NotAllowedError)
    else
      let stream := length (tracksLive p) in
      let p := set_tracksLive (tracksLive p ++ [true]) p in
      let source := length (nodes p) in
      let processor := S source in
      let analyser := S processor in
      let p := set_nodes (nodes p ++
                 [ {| connected := false; mediaStream := Some stream |};
                   {| connected := false; mediaStream := None |};
                   {| connected := false; mediaStream := None |} ]) p in
      let sessionId := length (sessions p) in
      let p := set_sessions (sessions p ++ [if connected then Open else Failed]) p in
      let p := connect source p in
      let p := connect analyser p in
      let p := connect processor p in
      ({| isRecording := true; selectedDeviceId := selectedDeviceId st;
          error := None; userInputHistory := []; translationHistory := [];
          sessionPromiseRef := Some sessionId;
          inputAudioContextRef := Some inputCtx;
          outputAudioContextRef := Some outputCtx;
          mediaStreamSourceRef := Some source;
          scriptProcessorRef := Some processor;
          analyserNodeRef := Some analyser;
          nextStartTimeRef := 0; browser := p |}, Normal).

(** [handleMicClick()]. *)
Definition handleMicClick (streamGranted connected closeThrows : bool)
    (st : State) : State * completion :=
  if isRecording st then (stopRecording closeThrows st, Normal)
  else startRecording streamGranted connected st.

Section WithDoubles.
Context `{ops : DoubleOps}.

(** The [onMessage] handler [startRecording] installs.  [currentTime] is
    [outputAudioContextRef.current!.currentTime]. *)
Definition onMessage (message : LiveServerMessage) (currentTime : Q)
    (st : State) : State * completion :=
  let user :=
    match inputTranscription message with
    | Some textChunk => slice_last MAX_HISTORY_LENGTH (userInputHistory st ++ textChunk)
    | None => userInputHistory st
    end in
  let translation :=
    match outputTranscription message with
    | Some textChunk =>
        slice_last MAX_HISTORY_LENGTH (translationHistory st ++ textChunk)
    | None => translationHistory st
    end in
  let with_audio next p :=
    {| isRecording := isRecording st; selectedDeviceId := selectedDeviceId st;
       error := error st; userInputHistory := user;
       translationHistory := translation;
       sessionPromiseRef := sessionPromiseRef st;
       inputAudioContextRef := inputAudioContextRef st;
       outputAudioContextRef := outputAudioContextRef st;
       mediaStreamSourceRef := mediaStreamSourceRef st;
       scriptProcessorRef := scriptProcessorRef st;
       analyserNodeRef := analyserNodeRef st;
       nextStartTimeRef := next; browser := p |} in
  let st' := with_audio (nextStartTimeRef st) (browser st) in
  match inlineData message with
  | Data base64Audio =>
      if bool_decide (base64Audio = []) then (st', Normal)
      else
        match Audio.decode base64Audio with
        | Throw e => (st', Abrupt e)
        | Ok audioData =>
            match outputAudioContextRef st with
            | None =>
                (* decodeAudioData(audioData, null, ...): the Int16Array
                   view is built first, then [ctx.createBuffer] fails *)
                (st', Abrupt match Int16Array_of_buffer audioData with
                             | Throw e => e
                             | Ok _ => TypeError
                             end)
            | Some _ =>
                match Audio.decodeAudioData audioData 24000 1 with
                | Throw e => (st', Abrupt e)
                | Ok audioBuffer =>
                    let next := Math_max (nextStartTimeRef st) currentTime in
                    let node :=
                      {| startTime := next;
                         bufferDuration := duration audioBuffer;
                         playbackRate := 1;
                         stopped := false |} in
                    (with_audio
                       (fadd next (duration audioBuffer))
                       (set_sources (sources (browser st) ++ [node]) (browser st)),
                     Normal)
                end
            end
        end
  | NoData => (st', Normal)
  | NoParts => (st', Abrupt TypeError)
  end.

Definition handle_all (arrivals : list (LiveServerMessage * Q)) (st : State)
  : State :=
  foldl (fun st a => (onMessage a.1 a.2 st).1) st arrivals.

End WithDoubles.

End App.

(** ** The second revision: transcript entries and turn boundaries

    [liveService] (the revision with [onTurnComplete]) wraps the handler of
    the component; the component keeps [transcriptionHistory].  Recording
    start and stop, and the audio part of [onMessage], are those of [App];
    the Drive export of [onTurnComplete] does not touch the history and is
    left out. *)

Module App2.

Inductive Speaker : Type := user | model.

Record TranscriptionEntry : Type := { speaker : Speaker; text : jsstring }.

Record State : Type := {
  transcriptionHistory : list TranscriptionEntry;
  currentInputText : jsstring    (* the variable of [connectToLiveService] *)
}.

(** What [startRecording] leaves: [setTranscriptionHistory([])] and a
    fresh [currentInputText]. *)
Definition initial : State :=
  {| transcriptionHistory := []; currentInputText := [] |}.

Definition is_user (e : option TranscriptionEntry) : bool :=
  match e with
  | Some {| speaker := user |} => true
  | _ => false
  end.

(** The updater [onMessage] passes to [setTranscriptionHistory]. *)
Definition update_history (text : jsstring) (isFinal : bool)
    (prev : list TranscriptionEntry) : list TranscriptionEntry :=
  let last := last prev in
  if is_user last && negb isFinal then
    removelast prev ++ [{| speaker := user; text := text |}]
  else if is_user last && isFinal then
    removelast prev ++ [{| speaker := user; text := text |}]
  else prev ++ [{| speaker := user; text := text |}].

(** [onMessage], transcription part. *)
Definition onMessage (message : LiveServerMessage)
    (history : list TranscriptionEntry) : list TranscriptionEntry :=
  match inputTranscription message with
  | Some text => update_history text (turnComplete message) history
  | None => history
  end.

(** [onTurnComplete(input, output)], history part. *)
Definition onTurnComplete (input output : jsstring)
    (history : list TranscriptionEntry) : list TranscriptionEntry :=
  history ++ [{| speaker := model; text := output |}].

(** The [onmessage] callback of [connectToLiveService]. *)
Definition onmessage (targetLangName : jsstring) (message : LiveServerMessage)
    (st : State) : State :=
  let history := onMessage message (transcriptionHistory st) in
  let current :=
    match inputTranscription message with
    | Some text => text
    | None => currentInputText st
    end in
  if turnComplete message then
    let outputPlaceholder :=
      js "[Audio translation to " ++ targetLangName ++ js "]" in
    {| transcriptionHistory := onTurnComplete current outputPlaceholder history;
       currentInputText := [] |}
  else
    {| transcriptionHistory := history; currentInputText := current |}.

Definition user_entries (history : list TranscriptionEntry)
  : list TranscriptionEntry :=
  List.filter (fun e => match speaker e with user => true | model => false end)
              history.

End App2.

(** A message that carries only an input transcription, only a turn
    boundary, only audio, only an interruption. *)
Definition input_fragment (text : jsstring) : LiveServerMessage :=
  {| inputTranscription := Some text; outputTranscription := None;
     turnComplete := false; inlineData := NoData; interrupted := false |}.
Definition turn_complete : LiveServerMessage :=
  {| inputTranscription := None; outputTranscription := None;
     turnComplete := true; inlineData := NoData; interrupted := false |}.
Definition audio_chunk (base64 : jsstring) : LiveServerMessage :=
  {| inputTranscription := None; outputTranscription := None;
     turnComplete := false; inlineData := Data base64; interrupted := false |}.
Definition interruption : LiveServerMessage :=
  {| inputTranscription := None; outputTranscription := None;
     turnComplete := false; inlineData := NoData; interrupted := true |}.

(** ** Vocabulary of the properties *)

Definition is_byte (b : Z) : Prop := 0 <= b < 256.
Definition is_sextet (v : Z) : Prop := 0 <= v < 64.
Definition is_int16 (v : Z) : Prop := -32768 <= v < 32768.

(** The 16-bit samples [createBlob] stores: [int16[i] = data[i] * 32768]. *)
Definition pcm16 (data : list number) : list Z :=
  map (fun x => ToInt16 (mul x 32768)) data.

(** Rounding to the nearest integer, halves upwards ([Math.round]); the
    quantisation the specification names. *)
Definition round_nearest (x : Q) : Z := Qfloor (x + (1 # 2)).

(** The sample range of the round-trip property. *)
Definition in_unit_range (x : Q) : Prop := (- (999 # 1000) <= x <= 999 # 1000)%Q.

(** Reading the audio payload of a message does not throw, and the
    payload, if there is one, is base64 text of 16-bit PCM that [decode] and
    [decodeAudioData] accept (what the service sends). *)
Definition audio_decodes (message : LiveServerMessage) : bool :=
  match inlineData message with
  | Data base64Audio =>
      match (bytes ← Audio.decode base64Audio;
             Audio.decodeAudioData bytes 24000 1) with
      | Ok _ => true
      | Throw _ => bool_decide (base64Audio = [])
      end
  | NoData => true
  | NoParts => false
  end.

(** No message of the run carries the interruption signal. *)
Definition uninterrupted (arrivals : list (LiveServerMessage * Q)) : Prop :=
  Forall (fun a => interrupted a.1 = false) arrivals.

(** Start times in scheduling order: each buffer starts no earlier than the
    one before it, and no earlier than the end [plus start played] of the
    one before it, [played n] being the time buffer [n] takes on the output
    clock. *)
Definition back_to_back (plus : Q -> Q -> Q) (played : Browser.SourceNode -> Q)
    (scheduled : list Browser.SourceNode) : Prop :=
  forall (i : nat) (n1 n2 : Browser.SourceNode),
    scheduled !! i = Some n1 -> scheduled !! S i = Some n2 ->
    (Browser.startTime n1 <= Browser.startTime n2)%Q /\
    (plus (Browser.startTime n1) (played n1) <= Browser.startTime n2)%Q.

(** The time a source takes on the output clock: its buffer duration over
    its playback rate (1.15 in the script). *)
Definition played `{DoubleOps} (n : Browser.SourceNode) : Q :=
  fdiv (Browser.bufferDuration n) (Browser.playbackRate n).

(** The script once [startSession] has run from the initial variables with
    every await fulfilled: session 0; stream 0; the stream source and the
    script processor, nodes 0 and 1; the input and output contexts 0 and
    1. *)
Definition session_open : Script.State :=
  (Script.startSession true true false Script.initial).1.

(** ** The text panel and the favourite buttons of the component

    [handleSwapLanguages] and [handleFavoriteClick] of the first revision,
    with the effect that answers [setStartRecOnFavClick(true)] by calling
    [startRecording()] after the render. *)

Module AppUI.

Record FavoritePair : Type := { source : jsstring; target : jsstring }.

Record TextState : Type := {
  sourceLang : jsstring;
  targetLang : jsstring;
  inputText : jsstring;
  outputText : jsstring
}.

(** [handleSwapLanguages()]: the four setters read the values of the
    render. *)
Definition handleSwapLanguages (t : TextState) : TextState :=
  {| sourceLang := targetLang t;
     targetLang := sourceLang t;
     inputText := outputText t;
     outputText := inputText t |}.

(** [handleFavoriteClick(pair)] followed by the effect on
    [startRecOnFavClick]. *)
Definition handleFavoriteClick (pair : FavoritePair)
    (streamGranted connected closeThrows : bool)
    (ui : App.State * TextState) : (App.State * TextState) * completion :=
  let st := if App.isRecording ui.1 then App.stopRecording closeThrows ui.1
            else ui.1 in
  let text := {| sourceLang := source pair; targetLang := target pair;
                 inputText := []; outputText := [] |} in
  let r := App.startRecording streamGranted connected st in
  ((r.1, text), r.2).

(** What the user does, with what the awaits of the handler deliver. *)
Inductive Event : Type :=
| MicClick (streamGranted connected : bool)
| FavoriteClick (pair : FavoritePair) (streamGranted connected : bool)
| SwapClick.

Definition step (closeThrows : bool) (ui : App.State * TextState) (ev : Event)
  : App.State * TextState :=
  match ev with
  | MicClick g c => ((App.handleMicClick g c closeThrows ui.1).1, ui.2)
  | FavoriteClick fav g c => (handleFavoriteClick fav g c closeThrows ui).1
  | SwapClick => (ui.1, handleSwapLanguages ui.2)
  end.

Definition run (closeThrows : bool) (events : list Event)
    (ui : App.State * TextState) : App.State * TextState :=
  foldl (step closeThrows) ui events.

End AppUI.

(** ** Events of the script: a message, or a source that has finished *)

Inductive ScriptEvent : Type :=
| Message (message : LiveServerMessage) (currentTime : Q)
| Ended (source : nat).

Definition script_step `{DoubleOps} (st : Script.State) (ev : ScriptEvent)
  : Script.State :=
  match ev with
  | Message message currentTime =>
      (Script.handleServerMessage message currentTime st).1
  | Ended source => Script.source_ended source st
  end.

Definition script_run `{DoubleOps} (events : list ScriptEvent) (st : Script.State)
  : Script.State :=
  foldl script_step st events.

(** ** Vocabulary of the further properties *)

(** What the codec makes of a sample: [ToInt16 (x * 32768) / 32768]. *)
Definition quantised (x : number) : number :=
  Fin (ToInt16 (mul x 32768) # 32768).

(** A finite sample in [-1, 1). *)
Definition unit_sample (x : number) : Prop :=
  exists y, x = Fin y /\ (-1 <= y < 1)%Q.

(** A character of base64 text: alphabet or padding. *)
Definition b64_text_char (c : Z) : Prop := is_Some (b64_index c) \/ c = 61.


(** The script holds no handle. *)
Definition no_handles (st : Script.State) : Prop :=
  Script.session st = None /\ Script.mediaStream st = None /\
  Script.inputAudioContext st = None /\ Script.outputAudioContext st = None /\
  Script.scriptProcessor st = None /\ Script.mediaStreamSource st = None.

(** The input and output fragments of a run, in order of arrival. *)
Definition input_fragments (arrivals : list (LiveServerMessage * Q)) : jsstring :=
  concat (omap (fun a => inputTranscription a.1) arrivals).
Definition output_fragments (arrivals : list (LiveServerMessage * Q)) : jsstring :=
  concat (omap (fun a => outputTranscription a.1) arrivals).

(** Messages that carry an input fragment and nothing else. *)
Definition fragments_at (texts : list jsstring) (currentTime : Q)
  : list (LiveServerMessage * Q) :=
  map (fun text => (input_fragment text, currentTime)) texts.

(** No two neighbours of the history are both user entries. *)
Definition no_adjacent_users (history : list App2.TranscriptionEntry) : Prop :=
  forall (i : nat) (e1 e2 : App2.TranscriptionEntry),
    history !! i = Some e1 -> history !! S i = Some e2 ->
    App2.speaker e1 = App2.user -> App2.speaker e2 = App2.user -> False.

Definition model_entries (history : list App2.TranscriptionEntry)
  : list App2.TranscriptionEntry :=
  List.filter (fun e => match App2.speaker e with
                        | App2.model => true
                        | App2.user => false
                        end) history.

Definition turn_boundaries (messages : list LiveServerMessage) : nat :=
  length (List.filter turnComplete messages).

(** The sessions the component has open are at most the one it
    references, and it references none when it is not recording. *)
Definition single_session (st : App.State) : Prop :=
  (forall id, Browser.sessions (App.browser st) !! id = Some Browser.Open ->
              App.sessionPromiseRef st = Some id) /\
  (App.isRecording st = false -> App.sessionPromiseRef st = None).

(** The non-blank lines of a transcript of the script. *)
Definition transcript_lines (full : jsstring) : list jsstring :=
  List.filter (fun line => negb (bool_decide (trim line = [])))
              (split full Script.br).

(** Two states of the script with the same handles and, in the browser, the
    same sessions, tracks, nodes and contexts. *)
Definition script_frame (st st' : Script.State) : Prop :=
  Script.session st' = Script.session st /\
  Script.mediaStream st' = Script.mediaStream st /\
  Script.inputAudioContext st' = Script.inputAudioContext st /\
  Script.outputAudioContext st' = Script.outputAudioContext st /\
  Script.scriptProcessor st' = Script.scriptProcessor st /\
  Script.mediaStreamSource st' = Script.mediaStreamSource st /\
  Browser.sessions (Script.browser st') = Browser.sessions (Script.browser st) /\
  Browser.tracksLive (Script.browser st') = Browser.tracksLive (Script.browser st) /\
  Browser.nodes (Script.browser st') = Browser.nodes (Script.browser st) /\
  Browser.contextRunning (Script.browser st')
  = Browser.contextRunning (Script.browser st).

(** Every source of the first list is still in the second, at the same
    index and with the same start time, and stopped if it was. *)
Definition sources_kept (before after : list Browser.SourceNode) : Prop :=
  forall id n, before !! id = Some n ->
    exists n', after !! id = Some n' /\
               Browser.startTime n' = Browser.startTime n /\
               (Browser.stopped n = true -> Browser.stopped n' = true).

(** Two states of the component that differ at most in the two histories,
    the cursor and the scheduled sources. *)
Definition app_frame (st st' : App.State) : Prop :=
  App.isRecording st' = App.isRecording st /\
  App.selectedDeviceId st' = App.selectedDeviceId st /\
  App.error st' = App.error st /\
  App.sessionPromiseRef st' = App.sessionPromiseRef st /\
  App.inputAudioContextRef st' = App.inputAudioContextRef st /\
  App.outputAudioContextRef st' = App.outputAudioContextRef st /\
  App.mediaStreamSourceRef st' = App.mediaStreamSourceRef st /\
  App.scriptProcessorRef st' = App.scriptProcessorRef st /\
  App.analyserNodeRef st' = App.analyserNodeRef st /\
  Browser.sessions (App.browser st') = Browser.sessions (App.browser st) /\
  Browser.tracksLive (App.browser st') = Browser.tracksLive (App.browser st) /\
  Browser.nodes (App.browser st') = Browser.nodes (App.browser st) /\
  Browser.contextRunning (App.browser st') = Browser.contextRunning (App.browser st).

(** No message of the run carries the turn-complete signal. *)
Definition within_turn (arrivals : list (LiveServerMessage * Q)) : Prop :=
  Forall (fun a => turnComplete a.1 = false) arrivals.

(** Nothing is open, live, running or connected in the second platform
    that was not so in the first. *)
Definition released (before after : Browser.Platform) : Prop :=
  (forall i, Browser.sessions after !! i = Some Browser.Open ->
             Browser.sessions before !! i = Some Browser.Open) /\
  (forall i, Browser.tracksLive after !! i = Some true ->
             Browser.tracksLive before !! i = Some true) /\
  (forall i, Browser.contextRunning after !! i = Some true ->
             Browser.contextRunning before !! i = Some true) /\
  (forall i n, Browser.nodes after !! i = Some n -> Browser.connected n = true ->
               Browser.nodes before !! i = Some n).

(** The history the updater of [App2.onMessage] builds on: the history
    without its last entry when that is a user entry. *)
Definition without_open_user (history : list App2.TranscriptionEntry)
  : list App2.TranscriptionEntry :=
  if App2.is_user (last history) then removelast history else history.

(** The messages of a session handled by the [onmessage] callback of the
    second revision, one after the other. *)
Definition App2_run (targetLangName : jsstring) (messages : list LiveServerMessage)
    (st : App2.State) : App2.State :=
  foldl (fun st message => App2.onmessage targetLangName message st) st messages.

(** No separator ["<br>"] of the script starts within [p], in the text
    [p ++ s]. *)
Fixpoint no_break (p s : jsstring) : bool :=
  match p with
  | [] => true
  | c :: p' => negb (is_prefix Script.br (p ++ s)) && no_break p' s
  end.

(** * Properties *)

(** ** The platform model on known values *)

(** The test vectors of RFC 4648, section 10. *)
Example btoa_rfc4648 :
  map btoa [js ""; js "f"; js "fo"; js "foo"; js "foob"; js "fooba"; js "foobar"]
  = map Ok [js ""; js "Zg=="; js "Zm8="; js "Zm9v"; js "Zm9vYg=="; js "Zm9vYmE=";
            js "Zm9vYmFy"].
Proof. reflexivity. Qed.

(** [atob] skips ASCII whitespace and accepts missing padding, but not
    misplaced padding or a single trailing character. *)
Example atob_forgiving :
  atob (js " Zm 9vYg ") = Ok (js "foob") /\
  atob (js "Zg=") = Throw InvalidCharacterError /\
  atob (js "Zm9vY") = Throw InvalidCharacterError /\
  btoa [256] = Throw InvalidCharacterError.
Proof. repeat split; reflexivity. Qed.

Example ToInt16_values :
  map ToInt16 [Fin (3 # 2); Fin (- (3 # 2)); Fin 32767; Fin 32768; Fin (-32769);
               NaN; Infinity false]
  = [1; -1; 32767; -32768; 32767; 0; 0].
Proof. reflexivity. Qed.

Example split_join :
  split (js "a<br>b<br>") (js "<br>") = [js "a"; js "b"; js ""] /\
  join [js "a"; js "b"] (js "<br>") = js "a<br>b" /\
  trim (js "  a b ") = js "a b".
Proof. repeat split; reflexivity. Qed.

(** A seventh line pushes the oldest one out of the history. *)
Example trim_history_seven_lines :
  Script.trim_history (js "1<br>2<br>3<br>4<br>5<br>6<br>7<br>")
  = js "2<br>3<br>4<br>5<br>6<br>7<br>" /\
  Script.trim_history (js "1<br> <br>2<br>") = js "1<br> <br>2<br>".
Proof. split; reflexivity. Qed.

(** ** base64 *)

Lemma list_ind3 {A} (P : list A -> Prop) :
  P [] -> (forall a, P [a]) -> (forall a b, P [a; b]) ->
  (forall a b c l, P l -> P (a :: b :: c :: l)) ->
  forall l, P l.
Proof.
  intros H0 H1 H2 H3.
  fix IH 1. intros [|a [|b [|c l]]]; [apply H0|apply H1|apply H2|].
  apply H3, IH.
Qed.

Ltac split_tests :=
  repeat match goal with
    | |- context [ (?a <? ?b) ] => destruct (Z.ltb_spec a b)
    | |- context [ (?a <=? ?b) ] => destruct (Z.leb_spec a b)
    | |- context [ (?a =? ?b) ] => destruct (Z.eqb_spec a b)
    end.

Lemma b64_index_char v : is_sextet v -> b64_index (b64_char v) = Some v.
Proof.
  unfold is_sextet, b64_char, b64_index. intros Hv.
  split_tests; simpl; try (f_equal; lia); lia.
Qed.

Lemma b64_char_plain v :
  is_sextet v -> ascii_whitespace (b64_char v) = false /\ b64_char v <> 61.
Proof.
  unfold is_sextet, b64_char, ascii_whitespace. intros Hv.
  split_tests; simpl; split; try reflexivity; lia.
Qed.

Lemma b64_sextets_range bytes :
  Forall is_byte bytes -> Forall is_sextet (b64_sextets bytes).
Proof.
  induction bytes as [|a|a b|a b c l IH] using list_ind3; intros Hb; simpl.
  - constructor.
  - inversion_clear Hb as [|? ? Ha _]. unfold is_byte in Ha.
    repeat constructor; unfold is_sextet; lia.
  - inversion_clear Hb as [|? ? Ha Hb']. inversion_clear Hb' as [|? ? Hb _].
    unfold is_byte in *. repeat constructor; unfold is_sextet; lia.
  - inversion_clear Hb as [|? ? Ha Hb']. inversion_clear Hb' as [|? ? Hb Hc'].
    inversion_clear Hc' as [|? ? Hc Hl]. unfold is_byte in *.
    repeat (constructor; [unfold is_sextet; lia|]). auto.
Qed.

Lemma b64_padding_step n : b64_padding (S (S (S n))) = b64_padding n.
Proof.
  unfold b64_padding. replace (S (S (S n)) mod 3)%nat with (n mod 3)%nat by lia.
  reflexivity.
Qed.

(** The text is a whole number of 4-character groups, with at most two
    padding characters. *)
Lemma b64_lengths bytes :
  ((length (b64_sextets bytes) + length (b64_padding (length bytes))) mod 4 = 0
   /\ length (b64_padding (length bytes)) <= 2)%nat.
Proof.
  induction bytes as [|a|a b|a b c l IH] using list_ind3;
    try (simpl; split; [reflexivity|lia]).
  cbn [length b64_sextets]. rewrite b64_padding_step. lia.
Qed.

Lemma b64_padding_cases n :
  b64_padding n = [] \/ b64_padding n = [61] \/ b64_padding n = [61; 61].
Proof.
  unfold b64_padding. destruct (n mod 3)%nat as [|[|[|?]]]; auto.
Qed.

Lemma filter_all {A} (f : A -> bool) (l : list A) :
  Forall (fun x => f x = true) l -> List.filter f l = l.
Proof.
  induction 1 as [|x l Hx _ IH]; simpl; [reflexivity|].
  rewrite Hx, IH. reflexivity.
Qed.

Lemma ends_with_equals_plain body :
  Forall (fun c => c <> 61) body -> ends_with_equals body = false.
Proof.
  intros Hbody. unfold ends_with_equals.
  destruct (last body) as [c|] eqn:Hlast; [|reflexivity].
  apply last_Some_elem_of in Hlast.
  rewrite Forall_forall in Hbody. apply Z.eqb_neq, Hbody, Hlast.
Qed.

Lemma strip_padding_encoded body pad :
  Forall (fun c => c <> 61) body ->
  pad = [] \/ pad = [61] \/ pad = [61; 61] ->
  (length (body ++ pad) mod 4 = 0)%nat ->
  strip_padding (body ++ pad) = body.
Proof.
  intros Hbody Hpad Hlen. unfold strip_padding.
  rewrite Hlen. cbn [Nat.eqb].
  destruct Hpad as [-> | [-> | ->]].
  - rewrite app_nil_r, ends_with_equals_plain by assumption. reflexivity.
  - unfold ends_with_equals at 1. rewrite last_snoc, Z.eqb_refl.
    cbv zeta. rewrite removelast_last, ends_with_equals_plain by assumption.
    reflexivity.
  - change [61; 61] with ([61] ++ [61]). rewrite app_assoc.
    unfold ends_with_equals at 1. rewrite last_snoc, Z.eqb_refl.
    cbv zeta. rewrite removelast_last.
    unfold ends_with_equals. rewrite last_snoc, Z.eqb_refl.
    apply removelast_last.
Qed.

(** Four characters of the alphabet fill the buffer and give three bytes. *)
Lemma atob_loop_group s0 s1 s2 s3 rest :
  is_sextet s0 -> is_sextet s1 -> is_sextet s2 -> is_sextet s3 ->
  atob_loop (b64_char s0 :: b64_char s1 :: b64_char s2 :: b64_char s3 :: rest) 0 0
  = let buffer := ((s0 * 64 + s1) * 64 + s2) * 64 + s3 in
    buffer / 65536 :: (buffer / 256) mod 256 :: buffer mod 256 :: atob_loop rest 0 0.
Proof.
  intros H0 H1 H2 H3. cbn [atob_loop].
  rewrite !b64_index_char by assumption. cbn [default from_option id]. reflexivity.
Qed.

Lemma atob_loop_sextets bytes :
  Forall is_byte bytes ->
  atob_loop (map b64_char (b64_sextets bytes)) 0 0 = bytes.
Proof.
  induction bytes as [|a|a b|a b c l IH] using list_ind3; intros Hb.
  - reflexivity.
  - inversion_clear Hb as [|? ? Ha _]. unfold is_byte in Ha.
    cbn [b64_sextets map atob_loop].
    rewrite !b64_index_char by (unfold is_sextet; lia). cbn [default from_option id].
    f_equal. lia.
  - inversion_clear Hb as [|? ? Ha Hb']. inversion_clear Hb' as [|? ? Hb _].
    unfold is_byte in *. cbn [b64_sextets map atob_loop].
    rewrite !b64_index_char by (unfold is_sextet; lia). cbn [default from_option id].
    f_equal; [lia|]. f_equal. lia.
  - inversion_clear Hb as [|? ? Ha Hb']. inversion_clear Hb' as [|? ? Hb Hc'].
    inversion_clear Hc' as [|? ? Hc Hl]. unfold is_byte in *.
    cbn [b64_sextets map].
    rewrite atob_loop_group by (unfold is_sextet; lia).
    cbv zeta. rewrite IH by assumption.
    f_equal; [lia|]. f_equal; [lia|]. f_equal. lia.
Qed.

(** [atob] undoes the base64 text of any byte sequence. *)
Lemma atob_b64_encode bytes :
  Forall is_byte bytes -> atob (b64_encode bytes) = Ok bytes.
Proof.
  intros Hb. pose proof (b64_sextets_range bytes Hb) as Hs.
  assert (Hplain : Forall (fun c => c <> 61) (map b64_char (b64_sextets bytes))).
  { apply Forall_map. eapply Forall_impl; [exact Hs|].
    intros v Hv. apply (b64_char_plain v Hv). }
  destruct (b64_lengths bytes) as [Hlen Hpad].
  unfold atob.
  rewrite filter_all.
  2:{ unfold b64_encode. apply Forall_app. split.
      - apply Forall_map. eapply Forall_impl; [exact Hs|].
        intros v Hv. simpl. destruct (b64_char_plain v Hv) as [-> _]. reflexivity.
      - destruct (b64_padding_cases (length bytes)) as [-> | [-> | ->]];
          repeat constructor. }
  unfold b64_encode. rewrite strip_padding_encoded.
  - replace (length (map b64_char (b64_sextets bytes)) mod 4 =? 1)%nat with false.
    2:{ symmetry. apply Nat.eqb_neq. rewrite length_map. lia. }
    rewrite (proj2 (forallb_forall _ _)).
    + rewrite atob_loop_sextets by assumption. reflexivity.
    + intros c Hc. apply list_elem_of_In, list_elem_of_fmap in Hc.
      destruct Hc as (v & -> & Hv).
      rewrite Forall_forall in Hs. rewrite b64_index_char by auto.
      apply bool_decide_eq_true. eauto.
  - exact Hplain.
  - apply b64_padding_cases.
  - rewrite length_app, length_map. exact Hlen.
Qed.

Lemma map_id_on {A} (f : A -> A) (l : list A) :
  Forall (fun x => f x = x) l -> map f l = l.
Proof. induction 1 as [|x l Hx _ IH]; simpl; congruence. Qed.

Lemma encode_bytes bytes :
  Forall is_byte bytes -> Audio.encode bytes = Ok (b64_encode bytes).
Proof.
  intros Hb. unfold Audio.encode, btoa.
  rewrite map_id_on.
  2:{ eapply Forall_impl; [exact Hb|]. unfold is_byte, fromCharCode, ToUint16.
      intros b Hb'. apply Z.mod_small. lia. }
  rewrite (proj2 (forallb_forall _ _)); [reflexivity|].
  intros b Hin. rewrite Forall_forall in Hb.
  apply list_elem_of_In, Hb in Hin. unfold is_byte in Hin. lia.
Qed.

Lemma decode_b64_encode bytes :
  Forall is_byte bytes -> Audio.decode (b64_encode bytes) = Ok bytes.
Proof.
  intros Hb. unfold Audio.decode. rewrite atob_b64_encode by assumption.
  simpl. f_equal. apply map_id_on.
  eapply Forall_impl; [exact Hb|]. unfold is_byte, ToUint8.
  intros b Hb'. apply Z.mod_small. lia.
Qed.

(** C10.  Transport round trip: for every byte array [bytes] (of any length,
    the empty one included), [encode] succeeds and [decode] of its result
    returns [bytes]. *)
Theorem C10_transport_round_trip (bytes : list Z) :
  Forall is_byte bytes ->
  exists base64, Audio.encode bytes = Ok base64 /\ Audio.decode base64 = Ok bytes.
Proof.
  intros Hb. exists (b64_encode bytes).
  split; [apply encode_bytes | apply decode_b64_encode]; assumption.
Qed.

Lemma C10_transport_round_trip_witness :
  Forall is_byte [0; 255; 16; 128] /\
  exists base64,
    Audio.encode [0; 255; 16; 128] = Ok base64 /\
    Audio.decode base64 = Ok [0; 255; 16; 128].
Proof.
  assert (H : Forall is_byte [0; 255; 16; 128])
    by (repeat constructor; unfold is_byte; lia).
  split; [exact H | exact (C10_transport_round_trip _ H)].
Defined.

(** ** Truncation and the 16-bit conversions *)

Lemma truncate_nonneg q : (0 <= q)%Q -> truncate q = Qfloor q.
Proof.
  intros Hq. unfold truncate. destruct (Qlt_le_dec q 0) as [Hlt|_]; [|reflexivity].
  exfalso. apply (Qlt_not_le _ _ Hlt Hq).
Qed.

Lemma truncate_neg q : (q < 0)%Q -> truncate q = - Qfloor (- q).
Proof.
  intros Hq. unfold truncate. destruct (Qlt_le_dec q 0) as [_|Hle]; [reflexivity|].
  exfalso. apply (Qlt_not_le _ _ Hq Hle).
Qed.

(** Truncation moves towards zero by less than one. *)
Lemma truncate_spec q :
  ((0 <= q -> inject_Z (truncate q) <= q /\ q < inject_Z (truncate q) + 1) /\
   (q < 0 -> q <= inject_Z (truncate q) /\ inject_Z (truncate q) - 1 < q))%Q.
Proof.
  split; intros Hq.
  - rewrite truncate_nonneg by assumption. split; [apply Qfloor_le|].
    pose proof (Qlt_floor q) as H. rewrite inject_Z_plus in H. exact H.
  - rewrite truncate_neg by assumption. rewrite inject_Z_opp.
    pose proof (Qfloor_le (- q)) as H1. pose proof (Qlt_floor (- q)) as H2.
    rewrite inject_Z_plus in H2. change (inject_Z 1) with 1%Q in H2.
    set (f := inject_Z (Qfloor (- q))) in *. clearbody f. split; lra.
Qed.

Lemma truncate_error q : (Qabs (inject_Z (truncate q) - q) < 1)%Q.
Proof.
  destruct (truncate_spec q) as [Hpos Hneg].
  apply Qabs_Qlt_condition.
  set (t := inject_Z (truncate q)) in *. clearbody t.
  destruct (Qlt_le_dec q 0) as [Hq|Hq]; [destruct (Hneg Hq)|destruct (Hpos Hq)];
    split; lra.
Qed.

(** An integer interval around zero is closed under truncation. *)
Lemma truncate_between (a b : Z) q :
  a <= 0 <= b -> (inject_Z a <= q <= inject_Z b)%Q -> a <= truncate q <= b.
Proof.
  intros Hab [Ha Hb]. destruct (Qlt_le_dec q 0) as [Hq|Hq].
  - rewrite truncate_neg by assumption. split.
    + assert (Qfloor (- q) <= - a); [|lia].
      rewrite <- (Qfloor_Z (- a)). apply Qfloor_resp_le.
      rewrite inject_Z_opp. set (a' := inject_Z a) in *. clearbody a'. lra.
    + assert (0 <= Qfloor (- q)); [|lia].
      change 0 with (Qfloor 0). apply Qfloor_resp_le. lra.
  - rewrite truncate_nonneg by assumption. split.
    + assert (0 <= Qfloor q); [|lia].
      change 0 with (Qfloor 0). apply Qfloor_resp_le. exact Hq.
    + rewrite <- (Qfloor_Z b). apply Qfloor_resp_le. exact Hb.
Qed.

Lemma ToInt16_range x : is_int16 (ToInt16 x).
Proof.
  unfold is_int16. destruct x as [q| |s]; simpl; try lia.
  destruct (Z.leb_spec 32768 (truncate q mod 65536)); lia.
Qed.

Lemma ToInt16_congruent q : (ToInt16 (Fin q) - truncate q) mod 65536 = 0.
Proof.
  simpl. destruct (Z.leb_spec 32768 (truncate q mod 65536)); lia.
Qed.

Lemma ToInt16_no_wrap q : is_int16 (truncate q) -> ToInt16 (Fin q) = truncate q.
Proof.
  unfold is_int16. intros Hq. simpl.
  destruct (Z.leb_spec 32768 (truncate q mod 65536)); lia.
Qed.

Lemma Uint8Array_bytes int16 : Forall is_byte (Uint8Array_of_Int16Array int16).
Proof.
  induction int16 as [|v l IH]; simpl; [constructor|].
  repeat (constructor; [unfold is_byte; lia|]). exact IH.
Qed.

Lemma Uint8Array_length int16 :
  length (Uint8Array_of_Int16Array int16) = (2 * length int16)%nat.
Proof. induction int16 as [|v l IH]; simpl; [reflexivity|]. rewrite IH. lia. Qed.

(** Reading the bytes of an [Int16Array] back as 16-bit integers. *)
Lemma int16_pairs_bytes int16 :
  Forall is_int16 int16 -> int16_pairs (Uint8Array_of_Int16Array int16) = int16.
Proof.
  induction 1 as [|v l Hv _ IH]; simpl; [reflexivity|].
  rewrite IH. f_equal. unfold is_int16 in Hv.
  destruct (Z.leb_spec 32768 (v mod 65536 mod 256 + 256 * (v mod 65536 / 256))); lia.
Qed.

Lemma Int16Array_of_Uint8Array int16 :
  Forall is_int16 int16 ->
  Int16Array_of_buffer (Uint8Array_of_Int16Array int16) = Ok int16.
Proof.
  intros H. unfold Int16Array_of_buffer.
  rewrite Uint8Array_length, int16_pairs_bytes by assumption.
  replace (Nat.even (2 * length int16)) with true; [reflexivity|].
  symmetry. apply Nat.even_spec. exists (length int16). reflexivity.
Qed.

Lemma pcm16_range data : Forall is_int16 (pcm16 data).
Proof. apply Forall_map, Forall_true. intros x. apply ToInt16_range. Qed.

Lemma list_ind2 {A} (P : list A -> Prop) :
  P [] -> (forall a, P [a]) -> (forall a b l, P l -> P (a :: b :: l)) ->
  forall l, P l.
Proof.
  intros H0 H1 H2.
  fix IH 1. intros [|a [|b l]]; [apply H0|apply H1|].
  apply H2, IH.
Qed.

Lemma int16_pairs_length bytes :
  length (int16_pairs bytes) = (length bytes / 2)%nat.
Proof.
  induction bytes as [|a|a b l IH] using list_ind2; try reflexivity.
  cbn [int16_pairs length]. rewrite IH. lia.
Qed.

(** ** The loops of [decodeAudioData] *)

(** Stores [cd[i] = g i] for [i = 0 .. k-1]: the stores inside the array
    take effect, the others are dropped. *)
Lemma fill_stores {A} (g : nat -> A) (k : nat) (cd : list A) :
  let r := foldl (fun cd i => <[i := g i]> cd) cd (seq 0 k) in
  length r = length cd /\
  forall i, r !! i = if decide (i < k /\ i < length cd)%nat then Some (g i) else cd !! i.
Proof.
  induction k as [|k [IHlen IH]]; cbv zeta.
  - split; [reflexivity|]. intros i. destruct (decide _) as [[H _]|_]; [lia|reflexivity].
  - rewrite seq_S, foldl_app. cbn [foldl plus].
    set (r := foldl _ cd (seq 0 k)) in *.
    split; [rewrite length_insert; exact IHlen|].
    intros i. destruct (decide (i = k)) as [->|Hne].
    + destruct (decide (k < length cd)%nat) as [Hk|Hk].
      * rewrite list_lookup_insert_eq by lia.
        destruct (decide _) as [_|H]; [reflexivity|lia].
      * rewrite list_insert_ge by lia. rewrite IH.
        destruct (decide _) as [H|_]; [lia|].
        destruct (decide _) as [H|_]; [lia|reflexivity].
    + rewrite list_lookup_insert_ne by congruence. rewrite IH.
      destruct (decide _) as [H|H]; destruct (decide _) as [H'|H'];
        try reflexivity; lia.
Qed.

(** The outer loop replaces channel [c] by [F c] of it, for [c < k]. *)
Lemma fill_channels {A} (F : nat -> A -> A) (k : nat) (chans : list A) :
  let r := foldl (fun chans c => match chans !! c with
                                 | Some cd => <[c := F c cd]> chans
                                 | None => chans
                                 end) chans (seq 0 k) in
  length r = length chans /\
  forall c, r !! c = if decide (c < k)%nat then F c <$> chans !! c else chans !! c.
Proof.
  induction k as [|k [IHlen IH]]; cbv zeta.
  - split; [reflexivity|]. intros c. destruct (decide _); [lia|reflexivity].
  - rewrite seq_S, foldl_app. cbn [foldl plus].
    set (r := foldl _ chans (seq 0 k)) in *.
    assert (Hk : r !! k = chans !! k).
    { rewrite IH. destruct (decide _); [lia|reflexivity]. }
    destruct (r !! k) as [cd|] eqn:Hr.
    + split; [rewrite length_insert; exact IHlen|].
      intros c. destruct (decide (c = k)) as [->|Hne].
      * rewrite list_lookup_insert_eq by (eapply lookup_lt_Some; eassumption).
        destruct (decide _); [|lia]. rewrite <- Hk. reflexivity.
      * rewrite list_lookup_insert_ne by congruence. rewrite IH.
        destruct (decide _); destruct (decide _); try reflexivity; lia.
    + split; [exact IHlen|].
      intros c. destruct (decide (c = k)) as [->|Hne].
      * destruct (decide _); [|lia]. rewrite Hr, <- Hk. reflexivity.
      * rewrite IH.
        destruct (decide _); destruct (decide _); try reflexivity; lia.
Qed.

(** The loop over the channels only changes [channelData]. *)
Lemma buffer_fold (F : nat -> list number -> list number) (l : list nat)
    (b : AudioBuffer) :
  foldl (fun buffer channel =>
           match channelData buffer !! channel with
           | Some cd =>
               {| sampleRate := sampleRate buffer;
                  frames := frames buffer;
                  channelData := <[channel := F channel cd]> (channelData buffer) |}
           | None => buffer
           end) b l
  = {| sampleRate := sampleRate b;
       frames := frames b;
       channelData :=
         foldl (fun chans c => match chans !! c with
                               | Some cd => <[c := F c cd]> chans
                               | None => chans
                               end) (channelData b) l |}.
Proof.
  revert b. induction l as [|c l IH]; intros b; cbn [foldl].
  - destruct b; reflexivity.
  - rewrite IH. destruct (channelData b !! c); reflexivity.
Qed.

Lemma frames_of_length (n nc : nat) :
  (1 <= nc)%nat ->
  unsigned_long (Audio.div_length n nc) = (n / nc)%nat /\
  (n / nc <= Audio.iterations (Audio.div_length n nc))%nat.
Proof.
  intros Hnc. destruct nc as [|nc']; [lia|].
  unfold Audio.div_length, unsigned_long, Audio.iterations.
  set (q := (Z.of_nat n # Pos.of_nat (S nc'))%Q).
  assert (Hq : (0 <= q)%Q).
  { unfold q, Qle. cbn [Qnum Qden]. rewrite Z.mul_0_l, Z.mul_1_r. apply Nat2Z.is_nonneg. }
  rewrite truncate_nonneg by assumption.
  assert (Hfloor : Qfloor q = Z.of_nat (n / S nc')).
  { unfold q, Qfloor. rewrite Nat2Z.inj_div. f_equal. lia. }
  pose proof (Qle_floor_ceiling q) as Hc. rewrite <- Zle_Qle in Hc. rewrite Hfloor in *.
  set (m := (n / S nc')%nat) in *. clearbody m. clear Hfloor. lia.
Qed.

(** ** [decodeAudioData] *)

Lemma decodeAudioData_odd data rate nc :
  Nat.even (length data) = false ->
  Audio.decodeAudioData data rate nc = Throw RangeError.
Proof.
  intros Hodd. unfold Audio.decodeAudioData, Int16Array_of_buffer.
  rewrite Hodd. reflexivity.
Qed.

Lemma decodeAudioData_no_frame data rate nc :
  Nat.even (length data) = true -> (length data / 2 < nc)%nat ->
  Audio.decodeAudioData data rate nc = Throw NotSupportedError.
Proof.
  intros Heven Hlt. unfold Audio.decodeAudioData, Int16Array_of_buffer.
  rewrite Heven. cbn [mbind result_bind].
  rewrite int16_pairs_length. unfold createBuffer.
  assert (Hnc : (1 <= nc)%nat) by lia.
  destruct (frames_of_length (length data / 2) nc Hnc) as [-> _].
  rewrite (Nat.div_small (length data / 2) nc) by exact Hlt.
  destruct (nc =? 0)%nat, (max_channels <? nc)%nat; reflexivity.
Qed.

(** With an even byte length, a supported rate and between 1 and 32 channels,
    none more than there are samples, the buffer has
    [floor (samples / channels)] frames and channel [c] holds the samples
    [c], [c + channels], [c + 2 channels], ... divided by 32768. *)
Lemma decodeAudioData_ok data rate nc :
  Nat.even (length data) = true ->
  (1 <= nc <= max_channels)%nat -> rate_supported rate = true ->
  (nc <= length data / 2)%nat ->
  exists chans,
    Audio.decodeAudioData data rate nc
    = Ok {| sampleRate := rate; frames := (length data / 2 / nc)%nat;
            channelData := chans |} /\
    length chans = nc /\
    forall c, (c < nc)%nat ->
      exists cd, chans !! c = Some cd /\
        length cd = (length data / 2 / nc)%nat /\
        forall i, (i < length data / 2 / nc)%nat ->
          cd !! i = Some (Audio.sample_at (int16_pairs data) (i * nc + c)).
Proof.
  intros Heven [Hnc1 Hnc2] Hrate Hle.
  unfold Audio.decodeAudioData, Int16Array_of_buffer.
  rewrite Heven. cbn [mbind result_bind].
  rewrite int16_pairs_length.
  set (samples := (length data / 2)%nat) in *.
  destruct (frames_of_length samples nc Hnc1) as [Hframes Hiter].
  assert (Hpos : (0 < samples / nc)%nat) by (apply Nat.div_str_pos; lia).
  unfold createBuffer. rewrite Hframes, Hrate.
  replace (nc =? 0)%nat with false by (symmetry; apply Nat.eqb_neq; lia).
  replace (max_channels <? nc)%nat with false by (symmetry; apply Nat.ltb_ge; lia).
  replace (samples / nc =? 0)%nat with false by (symmetry; apply Nat.eqb_neq; lia).
  cbn [orb negb mbind result_bind mret result_ret].
  rewrite (buffer_fold
             (fun c cd => Audio.fill_channel (int16_pairs data) nc c
                            (Audio.div_length samples nc) cd)).
  cbn [sampleRate frames channelData].
  set (F := fun c cd => Audio.fill_channel (int16_pairs data) nc c
                         (Audio.div_length samples nc) cd).
  destruct (fill_channels F nc (replicate nc (replicate (samples / nc) (Fin 0))))
    as [Hlen Hlook].
  cbv zeta in Hlen, Hlook. rewrite length_replicate in Hlen.
  eexists. split; [reflexivity|]. split; [exact Hlen|].
  intros c Hc. rewrite Hlook. destruct (decide (c < nc)%nat); [|lia].
  rewrite lookup_replicate_2 by assumption. cbn [fmap option_fmap option_map].
  eexists. split; [reflexivity|].
  unfold F, Audio.fill_channel.
  destruct (fill_stores
              (fun i => Audio.sample_at (int16_pairs data) (i * nc + c))
              (Audio.iterations (Audio.div_length samples nc))
              (replicate (samples / nc) (Fin 0))) as [Hl Hi].
  cbv zeta in Hl, Hi. rewrite length_replicate in Hl, Hi.
  split; [exact Hl|].
  intros i Hlt. rewrite Hi. destruct (decide _) as [_|H]; [reflexivity|lia].
Qed.

(** ** The PCM codec *)

Lemma quantum_error (v : Z) (x : Q) :
  (Qabs (inject_Z v - x * 32768) < 1)%Q -> (Qabs ((v # 32768) - x) <= 1 # 32768)%Q.
Proof.
  intros H. apply Qabs_Qlt_condition in H. apply Qabs_Qle_condition.
  rewrite (Qmake_Qdiv v 32768). unfold Qdiv.
  change (/ inject_Z (Z.pos 32768))%Q with (1 # 32768)%Q.
  set (t := inject_Z v) in *. clearbody t. destruct H. split; lra.
Qed.

(** [createBlob] never throws: the text is the base64 of the little-endian
    bytes of the 16-bit samples. *)
Lemma createBlob_ok data :
  Audio.createBlob data
  = Ok {| Audio.data := b64_encode (Uint8Array_of_Int16Array (pcm16 data));
          Audio.mimeType := js "audio/pcm;rate=16000" |}.
Proof.
  unfold Audio.createBlob. fold (pcm16 data).
  rewrite encode_bytes by apply Uint8Array_bytes. reflexivity.
Qed.

Lemma createAudioBlobForLive_ok data :
  Audio.createAudioBlobForLive data = Audio.createBlob data.
Proof. reflexivity. Qed.

(** A sample within the unit range is stored as its truncation, unwrapped. *)
Lemma pcm16_in_range x :
  in_unit_range x ->
  ToInt16 (mul (Fin x) 32768) = truncate (x * 32768) /\
  is_int16 (truncate (x * 32768)).
Proof.
  intros [Hlo Hhi].
  assert (H : -32767 <= truncate (x * 32768) <= 32767).
  { apply truncate_between; [lia|].
    change (inject_Z (-32767)) with (-32767)%Q.
    change (inject_Z 32767) with 32767%Q. split; lra. }
  split; [apply ToInt16_no_wrap|]; unfold is_int16; lia.
Qed.

(** C1, in the form that holds of the code.  Codec round trip: for every NON-EMPTY array [s] of
    samples in [-0.999, 0.999] and every supported sample rate, [createBlob]
    followed by [decode] and [decodeAudioData] with one channel succeeds and
    yields one channel of the same length whose [i]-th element differs from
    [s[i]] by at most 1/32768. *)
Theorem C1_codec_round_trip (s : list Q) (rate : Q) :
  s <> [] -> Forall in_unit_range s -> rate_supported rate = true ->
  exists blob bytes ch,
    Audio.createBlob (map Fin s) = Ok blob /\
    Audio.decode (Audio.data blob) = Ok bytes /\
    Audio.decodeAudioData bytes rate 1
    = Ok {| sampleRate := rate; frames := length s; channelData := [ch] |} /\
    length ch = length s /\
    forall i x, s !! i = Some x ->
      exists y, ch !! i = Some (Fin y) /\ (Qabs (y - x) <= 1 # 32768)%Q.
Proof.
  intros Hne Hs Hrate.
  set (int16 := pcm16 (map Fin s)).
  set (bytes := Uint8Array_of_Int16Array int16).
  assert (Hbytes : Forall is_byte bytes) by apply Uint8Array_bytes.
  assert (Hlen : length bytes = (2 * length s)%nat).
  { unfold bytes, int16, pcm16. rewrite Uint8Array_length, !length_map. reflexivity. }
  assert (Hhalf : (length bytes / 2 = length s)%nat) by (rewrite Hlen; lia).
  assert (Hpos : (1 <= length s)%nat) by (destruct s; [congruence|simpl; lia]).
  destruct (decodeAudioData_ok bytes rate 1) as (chans & Hdec & Hchans & Hch).
  { rewrite Hlen. apply Nat.even_spec. exists (length s). reflexivity. }
  { unfold max_channels. lia. }
  { exact Hrate. }
  { lia. }
  rewrite Hhalf, Nat.div_1_r in Hdec, Hch.
  destruct (Hch 0%nat) as (cd & Hcd & Hcdlen & Hsamples); [lia|].
  destruct chans as [|cd' [|? ?]]; try discriminate Hchans.
  injection Hcd as ->.
  exists {| Audio.data := b64_encode bytes;
            Audio.mimeType := js "audio/pcm;rate=16000" |}, bytes, cd.
  split; [apply createBlob_ok|].
  split; [apply decode_b64_encode; exact Hbytes|].
  split; [exact Hdec|]. split; [exact Hcdlen|].
  intros i x Hx.
  assert (Hi : (i < length s)%nat) by (eapply lookup_lt_Some; eassumption).
  rewrite (Hsamples i Hi).
  unfold Audio.sample_at, bytes. rewrite int16_pairs_bytes by apply pcm16_range.
  replace (i * 1 + 0)%nat with i by lia.
  unfold int16, pcm16. rewrite !list_lookup_fmap, Hx. cbn [fmap option_fmap option_map].
  rewrite Forall_forall in Hs.
  destruct (pcm16_in_range x) as [-> _];
    [apply Hs; eapply list_elem_of_lookup_2; eassumption|].
  eexists. split; [reflexivity|].
  apply quantum_error, truncate_error.
Qed.

Lemma C1_codec_round_trip_witness :
  exists blob bytes ch,
    Audio.createBlob (map Fin [1 # 3; - (999 # 1000)]%Q) = Ok blob /\
    Audio.decode (Audio.data blob) = Ok bytes /\
    Audio.decodeAudioData bytes 24000 1
    = Ok {| sampleRate := 24000; frames := 2; channelData := [ch] |} /\
    length ch = 2%nat /\
    forall i x, [1 # 3; - (999 # 1000)]%Q !! i = Some x ->
      exists y, ch !! i = Some (Fin y) /\ (Qabs (y - x) <= 1 # 32768)%Q.
Proof.
  apply (C1_codec_round_trip [1 # 3; - (999 # 1000)]%Q 24000).
  - discriminate.
  - repeat constructor; unfold in_unit_range; simpl; lra.
  - reflexivity.
Defined.

(** C1, counterexample.  For the empty array the encoder gives the empty
    text, [decode] the empty byte array, and [decodeAudioData] throws:
    [createBuffer] rejects a length of zero frames. *)
Lemma C1_counterexample :
  Audio.createBlob (map Fin []) = Ok {| Audio.data := [];
                                        Audio.mimeType := js "audio/pcm;rate=16000" |} /\
  Audio.decode [] = Ok [] /\
  Audio.decodeAudioData [] 24000 1 = Throw NotSupportedError.
Proof. repeat split; reflexivity. Qed.

(** C4, in the form that holds of the code.  Encode quantisation: [createBlob] and
    [createAudioBlobForLive] never throw and tag the result
    [audio/pcm;rate=16000]; each sample is stored as two bytes, low byte
    first; a finite sample [s] is stored as [s * 32768] TRUNCATED TOWARDS
    ZERO (not rounded to nearest) and reduced modulo 2^16 into
    [-32768, 32767]; [-1.0] is stored as -32768 and decodes to exactly
    [-1.0], while [1.0] wraps to -32768 and decodes to [-1.0]. *)
Theorem C4_encode_quantization :
  (forall data,
     Audio.createBlob data
     = Ok {| Audio.data := b64_encode (Uint8Array_of_Int16Array (pcm16 data));
             Audio.mimeType := js "audio/pcm;rate=16000" |} /\
     Audio.createAudioBlobForLive data = Audio.createBlob data) /\
  (forall v, exists lo hi,
     Uint8Array_of_Int16Array [v] = [lo; hi] /\
     is_byte lo /\ is_byte hi /\ lo + 256 * hi = v mod 65536) /\
  (forall s : Q,
     let x := (s * 32768)%Q in
     let v := ToInt16 (mul (Fin s) 32768) in
     is_int16 v /\
     (v - truncate x) mod 65536 = 0 /\
     (is_int16 (truncate x) -> v = truncate x) /\
     (Qabs (inject_Z (truncate x) - x) < 1)%Q /\
     ((0 <= x)%Q -> 0 <= truncate x /\ (inject_Z (truncate x) <= x)%Q) /\
     ((x < 0)%Q -> truncate x <= 0 /\ (x <= inject_Z (truncate x))%Q)) /\
  (blob ← Audio.createBlob [Fin (-1)];
   bytes ← Audio.decode (Audio.data blob);
   Audio.decodeAudioData bytes 24000 1)
  = Ok {| sampleRate := 24000; frames := 1;
          channelData := [[Fin (-32768 # 32768)]] |} /\
  (-32768 # 32768 == -1)%Q /\
  ToInt16 (mul (Fin 1) 32768) = -32768 /\
  (blob ← Audio.createBlob [Fin 1];
   bytes ← Audio.decode (Audio.data blob);
   Audio.decodeAudioData bytes 24000 1)
  = Ok {| sampleRate := 24000; frames := 1;
          channelData := [[Fin (-32768 # 32768)]] |}.
Proof.
  split; [|split; [|split; [|repeat split; reflexivity]]].
  - intros data. split; [apply createBlob_ok|reflexivity].
  - intros v. eexists _, _. split; [reflexivity|].
    unfold is_byte. repeat split; lia.
  - intros s x v.
    split; [apply ToInt16_range|].
    split; [apply ToInt16_congruent|].
    split; [apply ToInt16_no_wrap|].
    split; [apply truncate_error|].
    destruct (truncate_spec x) as [Hpos Hneg].
    split; intros Hx.
    + split; [|apply Hpos, Hx].
      rewrite truncate_nonneg by assumption.
      change 0 with (Qfloor 0). apply Qfloor_resp_le, Hx.
    + split; [|apply Hneg, Hx].
      rewrite truncate_neg by assumption.
      assert (0 <= Qfloor (- x)); [|lia].
      change 0 with (Qfloor 0). apply Qfloor_resp_le. lra.
Qed.

Lemma C4_encode_quantization_witness :
  is_int16 (truncate ((1 # 2) * 32768)) /\
  ToInt16 (mul (Fin (1 # 2)) 32768) = truncate ((1 # 2) * 32768).
Proof.
  assert (H : is_int16 (truncate ((1 # 2) * 32768))).
  { change (truncate ((1 # 2) * 32768)) with 16384. unfold is_int16. lia. }
  split; [exact H|].
  destruct C4_encode_quantization as (_ & _ & Hq & _).
  destruct (Hq (1 # 2)%Q) as (_ & _ & Hv & _). exact (Hv H).
Defined.

(** C4, counterexample.  The sample 0.75 / 32768 (a binary32 value) is
    stored as the bytes 00 00, the integer 0; rounding [s * 32768 = 0.75] to
    the nearest integer gives 1. *)
Lemma C4_counterexample :
  (blob ← Audio.createBlob [Fin (3 # 131072)]; Audio.decode (Audio.data blob))
  = Ok [0; 0] /\
  pcm16 [Fin (3 # 131072)] = [0] /\
  round_nearest ((3 # 131072) * 32768) = 1 /\
  ToInt16 (mul (Fin (3 # 131072)) 32768) <> round_nearest ((3 # 131072) * 32768).
Proof. repeat split; try reflexivity. vm_compute. discriminate. Qed.

(** C8, in the form that holds of the code.  [decodeAudioData] has no truncation check of its own.
    For 1 to 32 channels and a supported sample rate it throws a RangeError
    when the byte length is odd, and a NotSupportedError when the bytes hold
    fewer 16-bit samples than channels (no complete frame; the empty input
    included); otherwise it succeeds, whether or not the sample count is a
    multiple of the channel count, and returns [channels] planar arrays of
    [floor (samples / channels)] elements, channel [c] holding the samples
    [c], [c + channels], ... divided by 32768. *)
Theorem C8_decodeAudioData_outcomes (data : list Z) (rate : Q) (channels : nat) :
  (1 <= channels <= max_channels)%nat -> rate_supported rate = true ->
  (Nat.even (length data) = false ->
   Audio.decodeAudioData data rate channels = Throw RangeError) /\
  (Nat.even (length data) = true -> (length data / 2 < channels)%nat ->
   Audio.decodeAudioData data rate channels = Throw NotSupportedError) /\
  (Nat.even (length data) = true -> (channels <= length data / 2)%nat ->
   exists chans,
     Audio.decodeAudioData data rate channels
     = Ok {| sampleRate := rate; frames := (length data / 2 / channels)%nat;
             channelData := chans |} /\
     length chans = channels /\
     forall c, (c < channels)%nat ->
       exists cd, chans !! c = Some cd /\
         length cd = (length data / 2 / channels)%nat /\
         forall i, (i < length data / 2 / channels)%nat ->
           cd !! i = Some (Audio.sample_at (int16_pairs data) (i * channels + c))).
Proof.
  intros Hch Hrate. split; [|split].
  - apply decodeAudioData_odd.
  - apply decodeAudioData_no_frame.
  - intros Heven Hle. apply decodeAudioData_ok; assumption.
Qed.

Lemma C8_decodeAudioData_outcomes_witness :
  exists chans,
    Audio.decodeAudioData [1; 0; 2; 0; 3; 0; 4; 0] 24000 2
    = Ok {| sampleRate := 24000; frames := 2; channelData := chans |} /\
    length chans = 2%nat /\
    forall c, (c < 2)%nat ->
      exists cd, chans !! c = Some cd /\
        length cd = 2%nat /\
        forall i, (i < 2)%nat ->
          cd !! i = Some (Audio.sample_at [1; 2; 3; 4] (i * 2 + c)).
Proof.
  destruct (C8_decodeAudioData_outcomes [1; 0; 2; 0; 3; 0; 4; 0] 24000 2)
    as (_ & _ & H).
  - unfold max_channels. lia.
  - reflexivity.
  - apply H; [reflexivity|simpl; lia].
Defined.

(** C8, counterexample.  Six bytes for two channels are not a multiple of
    [2 * channels] bytes, yet the call succeeds with one frame per channel,
    the third sample being dropped; no bytes for one channel are a multiple
    of [2 * channels], yet the call throws. *)
Lemma C8_counterexample :
  (length [1; 0; 2; 0; 3; 0] mod (2 * 2) <> 0)%nat /\
  Audio.decodeAudioData [1; 0; 2; 0; 3; 0] 24000 2
  = Ok {| sampleRate := 24000; frames := 1;
          channelData := [[Fin (1 # 32768)]; [Fin (2 # 32768)]] |} /\
  (length (@nil Z) mod (2 * 1) = 0)%nat /\
  Audio.decodeAudioData [] 24000 1 = Throw NotSupportedError.
Proof. repeat split; try reflexivity. simpl. discriminate. Qed.

(** ** The playback scheduler *)

Section Scheduler.
Context (ops : DoubleOps) (order : DoubleOpsOrder ops).

Lemma Math_max_l a b : (a <= Math_max a b)%Q.
Proof.
  unfold Math_max. destruct (Qlt_le_dec a b) as [H|H];
    [apply Qlt_le_weak, H|apply Qle_refl].
Qed.

Lemma Math_max_r a b : (b <= Math_max a b)%Q.
Proof.
  unfold Math_max. destruct (Qlt_le_dec a b) as [H|H]; [apply Qle_refl|exact H].
Qed.

(** A decoded buffer keeps the rate it was asked for, so its duration is
    not negative. *)
Lemma decodeAudioData_rate data rate nc buffer :
  Audio.decodeAudioData data rate nc = Ok buffer ->
  sampleRate buffer = rate /\ rate_supported rate = true.
Proof.
  unfold Audio.decodeAudioData.
  destruct (Int16Array_of_buffer data) as [int16|e]; [|discriminate].
  cbn [mbind result_bind]. unfold createBuffer.
  destruct (_ || _ || _ || negb (rate_supported rate)) eqn:Hcheck; [discriminate|].
  cbn [mbind result_bind mret result_ret]. rewrite buffer_fold.
  intros [= <-]. cbn [sampleRate]. split; [reflexivity|].
  apply orb_false_elim in Hcheck as [_ Hcheck].
  apply negb_false_iff, Hcheck.
Qed.

Lemma duration_nonneg data rate nc buffer :
  Audio.decodeAudioData data rate nc = Ok buffer -> (0 <= duration buffer)%Q.
Proof.
  intros Hdec. destruct (decodeAudioData_rate _ _ _ _ Hdec) as [Hr Hs].
  unfold duration. apply fdiv_nonneg.
  - rewrite <- (Zle_Qle 0). apply Nat2Z.is_nonneg.
  - rewrite Hr. unfold rate_supported in Hs.
    apply andb_true_iff in Hs as [Hlo _]. apply Qle_bool_iff in Hlo. lra.
Qed.

(** What one message does to the cursor and to the scheduled sources of
    the script, interruptions aside. *)
Lemma Script_step message currentTime st :
  interrupted message = false ->
  let st' := (Script.handleServerMessage message currentTime st).1 in
  (Browser.sources (Script.browser st') = Browser.sources (Script.browser st) /\
   (Script.nextStartTime st <= Script.nextStartTime st')%Q) \/
  (exists n,
     Browser.sources (Script.browser st')
     = Browser.sources (Script.browser st) ++ [n] /\
     (Script.nextStartTime st <= Browser.startTime n)%Q /\
     Browser.playbackRate n = Script.speech_rate /\
     (0 <= fdiv (Browser.bufferDuration n) (Browser.playbackRate n))%Q /\
     Script.nextStartTime st'
     = fadd (Browser.startTime n)
            (fdiv (Browser.bufferDuration n) (Browser.playbackRate n))).
Proof.
  intros Hint. unfold Script.handleServerMessage, Script.handle_interrupted.
  rewrite Hint. unfold Script.handle_audio.
  cbn [Script.outputAudioContext Script.set_transcripts].
  destruct (inlineData message) as [base64Audio| |];
    [|left; split; [reflexivity|apply Qle_refl]..].
  destruct (Script.outputAudioContext st) as [ctx|];
    [|left; split; [reflexivity|apply Qle_refl]].
  destruct (bool_decide (base64Audio = []));
    [left; split; [reflexivity|apply Qle_refl]|].
  destruct (Audio.decode base64Audio) as [bytes|e]; cbn [mbind result_bind].
  2:{ left. split; [reflexivity|]. apply Math_max_l. }
  destruct (Audio.decodeAudioData bytes 24000 1) as [buffer|e] eqn:Hdec.
  2:{ left. split; [reflexivity|]. apply Math_max_l. }
  right. eexists. cbn. split; [reflexivity|].
  split; [apply Math_max_l|]. split; [reflexivity|].
  split; [|reflexivity].
  apply fdiv_nonneg; [eapply duration_nonneg; eassumption|reflexivity].
Qed.

(** The same for the [onMessage] handler of the component, which plays
    at the normal rate and adds the buffer duration itself. *)
Lemma App_step message currentTime st :
  let st' := (App.onMessage message currentTime st).1 in
  (Browser.sources (App.browser st') = Browser.sources (App.browser st) /\
   App.nextStartTimeRef st' = App.nextStartTimeRef st) \/
  (exists n,
     Browser.sources (App.browser st')
     = Browser.sources (App.browser st) ++ [n] /\
     (App.nextStartTimeRef st <= Browser.startTime n)%Q /\
     (0 <= Browser.bufferDuration n)%Q /\
     App.nextStartTimeRef st'
     = fadd (Browser.startTime n) (Browser.bufferDuration n)).
Proof.
  unfold App.onMessage.
  destruct (inlineData message) as [base64Audio| |];
    [|left; split; reflexivity..].
  destruct (bool_decide (base64Audio = [])); [left; split; reflexivity|].
  destruct (Audio.decode base64Audio) as [bytes|e]; [|left; split; reflexivity].
  destruct (App.outputAudioContextRef st) as [ctx|]; [|left; split; reflexivity].
  destruct (Audio.decodeAudioData bytes 24000 1) as [buffer|e] eqn:Hdec;
    [|left; split; reflexivity].
  right. eexists. cbn. split; [reflexivity|].
  split; [apply Math_max_l|]. split; [|reflexivity].
  eapply duration_nonneg; eassumption.
Qed.

End Scheduler.

Lemma back_to_back_snoc plus played scheduled n :
  back_to_back plus played scheduled ->
  (forall p, last scheduled = Some p ->
     (Browser.startTime p <= Browser.startTime n)%Q /\
     (plus (Browser.startTime p) (played p) <= Browser.startTime n)%Q) ->
  back_to_back plus played (scheduled ++ [n]).
Proof.
  intros Hold Hlast i n1 n2 H1 H2.
  destruct (decide (S i < length scheduled)%nat) as [Hlt|Hge].
  - rewrite lookup_app_l in H1, H2 by lia. eapply Hold; eassumption.
  - assert (Hi : S i = length scheduled).
    { apply lookup_lt_Some in H2. rewrite length_app in H2. simpl in H2. lia. }
    rewrite lookup_app_l in H1 by lia.
    rewrite lookup_app_r, Hi, Nat.sub_diag in H2 by lia.
    injection H2 as <-. apply Hlast.
    rewrite last_lookup, <- Hi. exact H1.
Qed.

Lemma exact_ops_order : DoubleOpsOrder exact_ops.
Proof.
  split; cbn [fadd fdiv exact_ops]; intros a b.
  - intros Hb. lra.
  - intros Ha Hb. apply Qle_shift_div_l; [exact Hb|lra].
Qed.

Section Runs.
Context (ops : DoubleOps) (order : DoubleOpsOrder ops).

Lemma Script_run arrivals st :
  uninterrupted arrivals ->
  exists scheduled,
    Browser.sources (Script.browser (Script.handle_all arrivals st))
    = Browser.sources (Script.browser st) ++ scheduled /\
    back_to_back fadd played scheduled /\
    Forall (fun n => Browser.playbackRate n = Script.speech_rate
                     /\ (0 <= played n)%Q) scheduled /\
    (Script.nextStartTime st
     <= Script.nextStartTime (Script.handle_all arrivals st))%Q /\
    (forall p, last scheduled = Some p ->
       (fadd (Browser.startTime p) (played p)
        <= Script.nextStartTime (Script.handle_all arrivals st))%Q).
Proof.
  induction arrivals as [|[message currentTime] arrivals IH] using rev_ind;
    intros Hcalm.
  - exists []. rewrite app_nil_r. cbn.
    split; [reflexivity|]. split; [intros i n1 n2 Hi; discriminate Hi|].
    split; [constructor|]. split; [apply Qle_refl|].
    intros p Hp. discriminate Hp.
  - apply Forall_app in Hcalm as [Hcalm Hm].
    inversion_clear Hm as [|? ? Hint _]. cbn [fst] in Hint.
    destruct (IH Hcalm) as (scheduled & Hsrc & Hbb & Hall & Hmono & Hlast).
    unfold Script.handle_all in *. rewrite foldl_app. cbn [foldl fst snd].
    set (mid := foldl _ st arrivals) in *.
    destruct (Script_step ops order message currentTime mid Hint)
      as [[Hsame Hle] | (n & Happ & Hstart & Hrate & Hplayed & Hnext)];
      cbv zeta in *.
    + exists scheduled. rewrite Hsame.
      split; [exact Hsrc|]. split; [exact Hbb|]. split; [exact Hall|]. split.
      * eapply Qle_trans; eassumption.
      * intros p Hp. eapply Qle_trans; [apply Hlast, Hp|exact Hle].
    + exists (scheduled ++ [n]). rewrite Happ, Hsrc, app_assoc.
      assert (Hend : (Browser.startTime n
                      <= fadd (Browser.startTime n) (played n))%Q)
        by (apply fadd_ge, Hplayed).
      split; [reflexivity|]. split; [|split; [|split]].
      * apply back_to_back_snoc; [exact Hbb|].
        intros p Hp. assert (Hp' := Hlast p Hp).
        assert (Hin : (0 <= played p)%Q).
        { rewrite Forall_forall in Hall. apply Hall.
          apply last_Some_elem_of, Hp. }
        split; [|eapply Qle_trans; eassumption].
        eapply Qle_trans; [apply fadd_ge, Hin|].
        eapply Qle_trans; eassumption.
      * apply Forall_app. split; [exact Hall|]. repeat constructor; assumption.
      * rewrite Hnext. eapply Qle_trans; [exact Hmono|].
        eapply Qle_trans; eassumption.
      * intros p Hp. rewrite last_snoc in Hp. injection Hp as <-.
        rewrite Hnext. apply Qle_refl.
Qed.

Lemma App_run arrivals st :
  exists scheduled,
    Browser.sources (App.browser (App.handle_all arrivals st))
    = Browser.sources (App.browser st) ++ scheduled /\
    back_to_back fadd Browser.bufferDuration scheduled /\
    Forall (fun n => (0 <= Browser.bufferDuration n)%Q) scheduled /\
    (App.nextStartTimeRef st
     <= App.nextStartTimeRef (App.handle_all arrivals st))%Q /\
    (forall p, last scheduled = Some p ->
       (fadd (Browser.startTime p) (Browser.bufferDuration p)
        <= App.nextStartTimeRef (App.handle_all arrivals st))%Q).
Proof.
  induction arrivals as [|[message currentTime] arrivals IH] using rev_ind.
  - exists []. rewrite app_nil_r. cbn.
    split; [reflexivity|]. split; [intros i n1 n2 Hi; discriminate Hi|].
    split; [constructor|]. split; [apply Qle_refl|].
    intros p Hp. discriminate Hp.
  - destruct IH as (scheduled & Hsrc & Hbb & Hall & Hmono & Hlast).
    unfold App.handle_all in *. rewrite foldl_app. cbn [foldl fst snd].
    set (mid := foldl _ st arrivals) in *.
    destruct (App_step ops order message currentTime mid)
      as [[Hsame Heq] | (n & Happ & Hstart & Hdur & Hnext)];
      cbv zeta in *.
    + exists scheduled. rewrite Hsame, Heq.
      split; [exact Hsrc|]. split; [exact Hbb|]. split; [exact Hall|].
      split; assumption.
    + exists (scheduled ++ [n]). rewrite Happ, Hsrc, app_assoc.
      assert (Hend : (Browser.startTime n
                      <= fadd (Browser.startTime n) (Browser.bufferDuration n))%Q)
        by (apply fadd_ge, Hdur).
      split; [reflexivity|]. split; [|split; [|split]].
      * apply back_to_back_snoc; [exact Hbb|].
        intros p Hp. assert (Hp' := Hlast p Hp).
        assert (Hin : (0 <= Browser.bufferDuration p)%Q).
        { rewrite Forall_forall in Hall. apply Hall.
          apply last_Some_elem_of, Hp. }
        split; [|eapply Qle_trans; eassumption].
        eapply Qle_trans; [apply fadd_ge, Hin|].
        eapply Qle_trans; eassumption.
      * apply Forall_app. split; [exact Hall|]. repeat constructor; assumption.
      * rewrite Hnext. eapply Qle_trans; [exact Hmono|].
        eapply Qle_trans; eassumption.
      * intros p Hp. rewrite last_snoc in Hp. injection Hp as <-.
        rewrite Hnext. apply Qle_refl.
Qed.

End Runs.

(** C3, in the form that holds of the code.  Playback scheduler: for any run of messages arriving at
    arbitrary output-clock times, the start times of the buffers the
    component schedules are non-decreasing and each is at least the previous
    start plus the previous buffer duration.  The script plays each buffer at
    rate 1.15 and advances its cursor by duration / 1.15: in a run without
    interruption its start times are non-decreasing and each is at least the
    previous start plus the previous duration DIVIDED BY 1.15.  Sums and
    quotients are those of the machine ([fadd], [fdiv]). *)
Theorem C3_scheduler_back_to_back (ops : DoubleOps) (order : DoubleOpsOrder ops)
    (arrivals : list (LiveServerMessage * Q)) :
  (forall st, exists scheduled,
     Browser.sources (App.browser (App.handle_all arrivals st))
     = Browser.sources (App.browser st) ++ scheduled /\
     back_to_back fadd Browser.bufferDuration scheduled) /\
  (uninterrupted arrivals ->
   forall st, exists scheduled,
     Browser.sources (Script.browser (Script.handle_all arrivals st))
     = Browser.sources (Script.browser st) ++ scheduled /\
     Forall (fun n => Browser.playbackRate n = Script.speech_rate) scheduled /\
     back_to_back fadd played scheduled).
Proof.
  split.
  - intros st. destruct (App_run ops order arrivals st) as (scheduled & H1 & H2 & _).
    exists scheduled. split; assumption.
  - intros Hcalm st.
    destruct (Script_run ops order arrivals st Hcalm)
      as (scheduled & H1 & H2 & H3 & _).
    exists scheduled. split; [exact H1|]. split; [|exact H2].
    eapply Forall_impl; [exact H3|]. intros n [Hn _]. exact Hn.
Qed.

Lemma C3_scheduler_back_to_back_witness :
  exists scheduled,
    Browser.sources
      (Script.browser
         (Script.handle_all (ops := exact_ops)
            [(audio_chunk (js "AAA="), 0%Q); (audio_chunk (js "AAA="), (1 # 2)%Q)]
            session_open))
    = Browser.sources (Script.browser session_open) ++ scheduled /\
    Forall (fun n => Browser.playbackRate n = Script.speech_rate) scheduled /\
    back_to_back Qplus (played (H := exact_ops)) scheduled.
Proof.
  apply (C3_scheduler_back_to_back exact_ops exact_ops_order
           [(audio_chunk (js "AAA="), 0%Q); (audio_chunk (js "AAA="), (1 # 2)%Q)]).
  repeat constructor.
Defined.

(** C3, counterexample.  The script, two one-frame buffers arriving at clock
    time 0: the first starts at 0 and lasts 1/24000 s, the second starts
    1/24000 s over the playback rate later (about 1/27600 s), before
    0 + 1/24000. *)
Lemma C3_counterexample :
  exists n1 n2,
    Browser.sources
      (Script.browser
         (Script.handle_all (ops := exact_ops)
            [(audio_chunk (js "AAA="), 0%Q); (audio_chunk (js "AAA="), 0%Q)]
            session_open))
    = [n1; n2] /\
    (Browser.bufferDuration n1 == 1 # 24000)%Q /\
    (Browser.startTime n2 < Browser.startTime n1 + Browser.bufferDuration n1)%Q.
Proof.
  eexists _, _. split; [vm_compute; reflexivity|].
  split; reflexivity.
Qed.

(** C6, in the form that holds of the code.  Cursor: handling a message that does not carry the
    interruption signal never decreases [nextStartTime], also when the
    handler throws, and so does any run of such messages; a message that
    carries the signal, and whose audio payload, if it has one, is read and
    decoded without an exception, resets it to 0; a handler that throws,
    whatever the message carries, does not decrease it. *)
Theorem C6_cursor_monotone (ops : DoubleOps) (order : DoubleOpsOrder ops)
    (st : Script.State) :
  (forall message currentTime,
     interrupted message = false ->
     (Script.nextStartTime st
      <= Script.nextStartTime (Script.handleServerMessage message currentTime st).1)%Q) /\
  (forall arrivals,
     uninterrupted arrivals ->
     (Script.nextStartTime st
      <= Script.nextStartTime (Script.handle_all arrivals st))%Q) /\
  (forall message currentTime,
     interrupted message = true -> audio_decodes message = true ->
     Script.nextStartTime (Script.handleServerMessage message currentTime st).1 = 0%Q) /\
  (forall message currentTime,
     (Script.handleServerMessage message currentTime st).2 <> Normal ->
     (Script.nextStartTime st
      <= Script.nextStartTime (Script.handleServerMessage message currentTime st).1)%Q).
Proof.
  split; [|split; [|split]].
  - intros message currentTime Hint.
    destruct (Script_step ops order message currentTime st Hint)
      as [[_ Hle] | (n & _ & Hstart & _ & Hplayed & Hnext)]; cbv zeta in *.
    + exact Hle.
    + rewrite Hnext. eapply Qle_trans; [exact Hstart|]. apply fadd_ge, Hplayed.
  - intros arrivals Hcalm.
    destruct (Script_run ops order arrivals st Hcalm) as (_ & _ & _ & _ & H & _).
    exact H.
  - intros message currentTime Hint Hdec.
    unfold Script.handleServerMessage, Script.handle_audio, audio_decodes in *.
    cbn [Script.outputAudioContext Script.set_transcripts].
    destruct (inlineData message) as [base64Audio| |]; [| |discriminate Hdec].
    + destruct (Script.outputAudioContext st) as [ctx|].
      * destruct (bool_decide (base64Audio = [])).
        -- unfold Script.handle_interrupted. rewrite Hint. reflexivity.
        -- destruct (_ ≫= _) as [buffer|e]; [|discriminate Hdec].
           unfold Script.handle_interrupted. rewrite Hint. reflexivity.
      * unfold Script.handle_interrupted. rewrite Hint. reflexivity.
    + unfold Script.handle_interrupted. rewrite Hint. reflexivity.
  - intros message currentTime.
    unfold Script.handleServerMessage, Script.handle_audio.
    cbn [Script.outputAudioContext Script.set_transcripts].
    destruct (inlineData message) as [base64Audio| |];
      [|intros H; contradiction H; reflexivity|intros _; apply Qle_refl].
    destruct (Script.outputAudioContext st) as [ctx|];
      [|intros H; contradiction H; reflexivity].
    destruct (bool_decide (base64Audio = []));
      [intros H; contradiction H; reflexivity|].
    destruct (_ ≫= _) as [buffer|e]; [intros H; contradiction H; reflexivity|].
    intros _. apply Math_max_l.
Qed.

Lemma C6_cursor_monotone_witness :
  (Script.nextStartTime session_open
   <= Script.nextStartTime
        (Script.handleServerMessage (ops := exact_ops)
           (audio_chunk (js "AAA=")) (1 # 2) session_open).1)%Q.
Proof.
  destruct (C6_cursor_monotone exact_ops exact_ops_order session_open) as [H _].
  apply (H (audio_chunk (js "AAA=")) (1 # 2)%Q). reflexivity.
Defined.

(** C6, counterexample.  After one buffer the cursor is past 0; the
    interruption that follows sets it back to 0, within the same session. *)
Lemma C6_counterexample :
  let st1 := (Script.handleServerMessage (ops := exact_ops)
                (audio_chunk (js "AAA=")) 0 session_open).1 in
  let st2 := (Script.handleServerMessage (ops := exact_ops) interruption 1 st1).1 in
  Script.session st2 = Some 0%nat /\
  (0 < Script.nextStartTime st1)%Q /\
  Script.nextStartTime st2 = 0%Q /\
  (Script.nextStartTime st2 < Script.nextStartTime st1)%Q.
Proof. repeat split; reflexivity. Qed.

(** ** Interruption *)

Lemma filter_none {A} (f : A -> bool) (l : list A) :
  Forall (fun x => f x = false) l -> List.filter f l = [].
Proof.
  induction 1 as [|x l Hx _ IH]; simpl; [reflexivity|]. rewrite Hx. exact IH.
Qed.

Lemma filter_set_delete (x : nat) (ids l : list nat) :
  List.filter (fun y => negb (bool_decide (y ∈ ids))) (set_delete x l)
  = List.filter (fun y => negb (bool_decide (y ∈ x :: ids))) l.
Proof.
  unfold set_delete. induction l as [|y l IH]; [reflexivity|].
  cbn [List.filter]. destruct (Nat.eqb_spec y x) as [->|Hne]; cbn [negb].
  - rewrite (bool_decide_eq_true_2 (x ∈ x :: ids)) by apply list_elem_of_here.
    cbn [negb]. exact IH.
  - cbn [List.filter]. rewrite IH.
    destruct (decide (y ∈ ids)) as [Hin|Hnin].
    + rewrite !bool_decide_eq_true_2;
        [reflexivity|apply list_elem_of_further, Hin|exact Hin].
    + rewrite !bool_decide_eq_false_2; [reflexivity| |exact Hnin].
      intros Hin. apply elem_of_cons in Hin as [?|?]; [congruence|auto].
Qed.

(** The loop over the set: what is left of the set, and the sources after
    the stops. *)
Lemma interrupt_loop (ids : list nat) (st : Script.State) :
  let st' :=
    foldl (fun st source =>
             Script.set_outputSources
               (set_delete source (Script.outputSources st))
               (Script.set_browser
                  (Browser.stop_source source (Script.browser st)) st))
          st ids in
  Script.outputSources st'
  = List.filter (fun y => negb (bool_decide (y ∈ ids))) (Script.outputSources st) /\
  length (Browser.sources (Script.browser st'))
  = length (Browser.sources (Script.browser st)) /\
  forall id n,
    Browser.sources (Script.browser st) !! id = Some n ->
    exists n',
      Browser.sources (Script.browser st') !! id = Some n' /\
      Browser.startTime n' = Browser.startTime n /\
      (id ∈ ids \/ Browser.stopped n = true -> Browser.stopped n' = true).
Proof.
  revert st. induction ids as [|x ids IH]; intros st; cbv zeta.
  - cbn [foldl]. split; [|split; [reflexivity|]].
    + symmetry. apply filter_all, Forall_forall. intros y _.
      rewrite bool_decide_eq_false_2; [reflexivity|]. apply not_elem_of_nil.
    + intros id n Hn. exists n. split; [exact Hn|]. split; [reflexivity|].
      intros [H|H]; [|exact H]. apply elem_of_nil in H. destruct H.
  - cbn [foldl].
    set (st1 := Script.set_outputSources _ _).
    destruct (IH st1) as (Hset & Hlen & Hsrc). cbv zeta in *.
    split; [|split].
    + rewrite Hset. apply filter_set_delete.
    + rewrite Hlen. unfold st1, Browser.stop_source. cbn. apply length_alter.
    + intros id n Hn.
      assert (Hmid : exists n1,
                 Browser.sources (Script.browser st1) !! id = Some n1 /\
                 Browser.startTime n1 = Browser.startTime n /\
                 (id = x \/ Browser.stopped n = true -> Browser.stopped n1 = true)).
      { unfold st1. cbn. unfold Browser.stop_source. cbn.
        destruct (decide (id = x)) as [->|Hne].
        - rewrite list_lookup_alter_eq, Hn. cbn. eexists. split; [reflexivity|].
          split; [reflexivity|]. intros _. reflexivity.
        - rewrite list_lookup_alter_ne by congruence. exists n.
          split; [exact Hn|]. split; [reflexivity|]. intros [?|?]; [congruence|auto]. }
      destruct Hmid as (n1 & Hn1 & Hstart1 & Hstop1).
      destruct (Hsrc id n1 Hn1) as (n' & Hn' & Hstart' & Hstop').
      exists n'. split; [exact Hn'|]. split; [congruence|].
      intros [Hin|Hst]; apply Hstop'.
      * apply elem_of_cons in Hin as [->|Hin]; [right; apply Hstop1; auto|left; exact Hin].
      * right. apply Hstop1. auto.
Qed.

(** The interruption block, when the signal is there. *)
Lemma interrupted_block message (st : Script.State) :
  interrupted message = true ->
  let st' := Script.handle_interrupted message st in
  Script.outputSources st' = [] /\
  Script.nextStartTime st' = 0%Q /\
  length (Browser.sources (Script.browser st'))
  = length (Browser.sources (Script.browser st)) /\
  forall id n,
    Browser.sources (Script.browser st) !! id = Some n ->
    exists n',
      Browser.sources (Script.browser st') !! id = Some n' /\
      Browser.startTime n' = Browser.startTime n /\
      (id ∈ Script.outputSources st -> Browser.stopped n' = true).
Proof.
  intros Hint. unfold Script.handle_interrupted. rewrite Hint. cbv zeta.
  destruct (interrupt_loop (Script.outputSources st) st) as (Hset & Hlen & Hsrc).
  cbv zeta in *. cbn [Script.outputSources Script.nextStartTime Script.browser
                      Script.set_nextStartTime].
  split; [|split; [reflexivity|split; [exact Hlen|]]].
  - rewrite Hset. apply filter_none, Forall_forall. intros y Hy.
    rewrite bool_decide_eq_true_2 by exact Hy. reflexivity.
  - intros id n Hn. destruct (Hsrc id n Hn) as (n' & Hn' & Hstart & Hstop).
    exists n'. split; [exact Hn'|]. split; [exact Hstart|]. auto.
Qed.

(** C5, in the form that holds of the code.  Interruption: when a message
    carries the interruption signal and its audio payload, if it has one, is
    read and decoded without an exception, the handler completes, the set of
    pending output sources is empty afterwards, every source that was
    pending, and the one this very message may have scheduled, has been
    stopped, and [nextStartTime] is 0. *)
Theorem C5_interruption_stops_playback (ops : DoubleOps)
    (message : LiveServerMessage) (currentTime : Q) (st : Script.State) :
  interrupted message = true -> audio_decodes message = true ->
  let r := Script.handleServerMessage message currentTime st in
  r.2 = Normal /\
  Script.outputSources r.1 = [] /\
  Script.nextStartTime r.1 = 0%Q /\
  (forall id n,
     id ∈ Script.outputSources st ->
     Browser.sources (Script.browser st) !! id = Some n ->
     exists n',
       Browser.sources (Script.browser r.1) !! id = Some n' /\
       Browser.startTime n' = Browser.startTime n /\
       Browser.stopped n' = true) /\
  (forall id n',
     (length (Browser.sources (Script.browser st)) <= id)%nat ->
     Browser.sources (Script.browser r.1) !! id = Some n' ->
     Browser.stopped n' = true).
Proof.
  intros Hint Hdec.
  unfold Script.handleServerMessage, Script.handle_audio, audio_decodes in *.
  cbn [Script.outputAudioContext Script.set_transcripts].
  set (st0 := Script.set_transcripts _ st).
  assert (Hplain :
    let r := (Script.handle_interrupted message st0, Normal) in
    r.2 = Normal /\ Script.outputSources r.1 = [] /\
    Script.nextStartTime r.1 = 0%Q /\
    (forall id n,
       id ∈ Script.outputSources st ->
       Browser.sources (Script.browser st) !! id = Some n ->
       exists n',
         Browser.sources (Script.browser r.1) !! id = Some n' /\
         Browser.startTime n' = Browser.startTime n /\
         Browser.stopped n' = true) /\
    (forall id n',
       (length (Browser.sources (Script.browser st)) <= id)%nat ->
       Browser.sources (Script.browser r.1) !! id = Some n' ->
       Browser.stopped n' = true)).
  { cbv zeta. cbn [fst snd].
    destruct (interrupted_block message st0 Hint) as (Hset & Hnext & Hlen & Hsrc).
    cbv zeta in *.
    split; [reflexivity|]. split; [exact Hset|]. split; [exact Hnext|]. split.
    - intros id n Hin Hn. destruct (Hsrc id n Hn) as (n' & Hn' & Hstart & Hstop).
      exists n'. split; [exact Hn'|]. split; [exact Hstart|]. apply Hstop, Hin.
    - intros id n' Hid Hn'. exfalso.
      apply lookup_lt_Some in Hn'. rewrite Hlen in Hn'.
      unfold st0 in Hn'. cbn in Hn'. lia. }
  destruct (inlineData message) as [base64Audio| |];
    [|exact Hplain|discriminate Hdec].
  destruct (Script.outputAudioContext st) as [ctx|]; [|exact Hplain].
  destruct (bool_decide (base64Audio = [])); [exact Hplain|].
  destruct (_ ≫= _) as [buffer|e]; [|discriminate Hdec].
  cbv zeta. cbn [fst snd].
  match goal with
  | |- context [Script.handle_interrupted message ?s] => set (st1 := s)
  end.
  destruct (interrupted_block message st1 Hint) as (Hset & Hnext & Hlen & Hsrc).
  cbv zeta in *.
  split; [reflexivity|]. split; [exact Hset|]. split; [exact Hnext|].
  set (node := {| Browser.startTime := Math_max (Script.nextStartTime st) currentTime;
                  Browser.bufferDuration := duration buffer;
                  Browser.playbackRate := Script.speech_rate;
                  Browser.stopped := false |}).
  assert (Hsrc1 : Browser.sources (Script.browser st1)
                  = Browser.sources (Script.browser st) ++ [node]) by reflexivity.
  assert (Hout1 : Script.outputSources st1
                  = set_add (length (Browser.sources (Script.browser st)))
                            (Script.outputSources st)) by reflexivity.
  split.
  - intros id n Hin Hn.
    destruct (Hsrc id n) as (n' & Hn' & Hstart & Hstop).
    { rewrite Hsrc1. apply lookup_app_l_Some, Hn. }
    exists n'. split; [exact Hn'|]. split; [exact Hstart|]. apply Hstop.
    rewrite Hout1. unfold set_add. destruct (bool_decide _); [exact Hin|].
    apply elem_of_app. left. exact Hin.
  - intros id n' Hid Hn'.
    assert (Hlt : (id < length (Browser.sources (Script.browser st1)))%nat).
    { rewrite <- Hlen. eapply lookup_lt_Some. exact Hn'. }
    rewrite Hsrc1, length_app in Hlt. cbn [length] in Hlt.
    assert (id = length (Browser.sources (Script.browser st))) as -> by lia.
    destruct (Hsrc (length (Browser.sources (Script.browser st))) node)
      as (n1 & Hn1 & _ & Hstop).
    { rewrite Hsrc1. rewrite lookup_app_r, Nat.sub_diag by lia. reflexivity. }
    rewrite Hn1 in Hn'. injection Hn' as <-. apply Hstop.
    rewrite Hout1. unfold set_add.
    destruct (bool_decide _) eqn:Hb.
    + apply bool_decide_eq_true in Hb. exact Hb.
    + apply elem_of_app. right. apply list_elem_of_singleton. reflexivity.
Qed.

Lemma C5_interruption_stops_playback_witness :
  let st := (Script.handleServerMessage (ops := exact_ops)
               (audio_chunk (js "AAA=")) 0 session_open).1 in
  let r := Script.handleServerMessage (ops := exact_ops) interruption (1 # 100) st in
  r.2 = Normal /\
  Script.outputSources r.1 = [] /\
  Script.nextStartTime r.1 = 0%Q /\
  (forall id n,
     id ∈ Script.outputSources st ->
     Browser.sources (Script.browser st) !! id = Some n ->
     exists n',
       Browser.sources (Script.browser r.1) !! id = Some n' /\
       Browser.startTime n' = Browser.startTime n /\
       Browser.stopped n' = true) /\
  (forall id n',
     (length (Browser.sources (Script.browser st)) <= id)%nat ->
     Browser.sources (Script.browser r.1) !! id = Some n' ->
     Browser.stopped n' = true).
Proof.
  intros st.
  apply (C5_interruption_stops_playback exact_ops interruption (1 # 100) st);
    reflexivity.
Defined.

(** C5, counterexample.  One buffer is pending; a message then carries the
    interruption signal together with a payload of three bytes ("AQID").
    The audio is handled first: [decodeAudioData] throws [RangeError], the
    handler ends there, the source is still pending and not stopped, and the
    cursor is at the clock, not at 0. *)
Lemma C5_counterexample :
  let st := (Script.handleServerMessage (ops := exact_ops)
               (audio_chunk (js "AAA=")) 0 session_open).1 in
  let message :=
    {| inputTranscription := None; outputTranscription := None;
       turnComplete := false; inlineData := Data (js "AQID");
       interrupted := true |} in
  let r := Script.handleServerMessage (ops := exact_ops) message 1 st in
  interrupted message = true /\
  Script.outputSources st = [0%nat] /\
  r.2 = Abrupt RangeError /\
  Script.outputSources r.1 = [0%nat] /\
  (exists n, Browser.sources (Script.browser r.1) !! 0%nat = Some n /\
             Browser.stopped n = false) /\
  (Script.nextStartTime r.1 == 1)%Q.
Proof.
  cbv zeta. split; [reflexivity|]. split; [reflexivity|].
  split; [reflexivity|]. split; [reflexivity|].
  split; [eexists; split; reflexivity|reflexivity].
Qed.

(** ** Transcripts *)

(** C7, in the form that holds of the code.  Transcript finalisation, fragments "Hel" and "lo" followed
    by a turn-complete signal.  In the script the fragments are appended to
    the accumulator: the one line "Hello<br>" is appended to
    [fullUserTranscript] (which is then trimmed to its last 6 non-blank
    lines) and [currentInputTranscription] is reset to the empty string;
    from the start of a session the history is exactly "Hello<br>".  In the
    component that keeps transcript entries each fragment REPLACES the text
    of the last user entry: the same messages leave exactly one new user
    entry, whose text is "lo", followed by the model placeholder entry, and
    [currentInputText] is reset to the empty string. *)
Theorem C7_transcript_finalization :
  (forall (ops : DoubleOps) (st : Script.State) (t1 t2 t3 : Q),
     Script.currentInputTranscription (Script.transcripts st) = [] ->
     let st' :=
       Script.handle_all
         [(input_fragment (js "Hel"), t1); (input_fragment (js "lo"), t2);
          (turn_complete, t3)] st in
     Script.currentInputTranscription (Script.transcripts st') = [] /\
     Script.fullUserTranscript (Script.transcripts st')
     = Script.trim_history
         (Script.fullUserTranscript (Script.transcripts st) ++ js "Hello<br>")) /\
  (forall (ops : DoubleOps) (t1 t2 t3 : Q),
     Script.fullUserTranscript
       (Script.transcripts
          (Script.handle_all
             [(input_fragment (js "Hel"), t1); (input_fragment (js "lo"), t2);
              (turn_complete, t3)] Script.initial))
     = js "Hello<br>") /\
  (forall (targetLangName : jsstring) (history : list App2.TranscriptionEntry)
          (current : jsstring),
     App2.is_user (last history) = false ->
     let st' :=
       foldl (fun st message => App2.onmessage targetLangName message st)
             {| App2.transcriptionHistory := history;
                App2.currentInputText := current |}
             [input_fragment (js "Hel"); input_fragment (js "lo"); turn_complete] in
     App2.transcriptionHistory st'
     = history
       ++ [ {| App2.speaker := App2.user; App2.text := js "lo" |};
            {| App2.speaker := App2.model;
               App2.text := js "[Audio translation to " ++ targetLangName ++ js "]" |} ]
     /\ App2.currentInputText st' = []).
Proof.
  split; [|split].
  - intros ops st t1 t2 t3 Hcur. cbv zeta.
    destruct st as [? ? ? ? ? ? ? ? [cur ? full ?] ?]. cbn in Hcur. subst cur.
    split; reflexivity.
  - intros ops t1 t2 t3. reflexivity.
  - intros targetLangName history current Hlast. cbv zeta.
    cbn [foldl]. unfold App2.onmessage at 3. cbn.
    unfold App2.update_history at 2. rewrite Hlast. cbn.
    unfold App2.update_history.
    rewrite last_snoc. cbn. rewrite removelast_last.
    unfold App2.onTurnComplete. rewrite <- app_assoc. split; reflexivity.
Qed.

Lemma C7_transcript_finalization_witness :
  let st' :=
    foldl (fun st message => App2.onmessage (js "English") message st)
          {| App2.transcriptionHistory := []; App2.currentInputText := [] |}
          [input_fragment (js "Hel"); input_fragment (js "lo"); turn_complete] in
  App2.transcriptionHistory st'
  = [] ++ [ {| App2.speaker := App2.user; App2.text := js "lo" |};
            {| App2.speaker := App2.model;
               App2.text := js "[Audio translation to " ++ js "English" ++ js "]" |} ]
  /\ App2.currentInputText st' = [].
Proof.
  destruct C7_transcript_finalization as (_ & _ & H).
  apply (H (js "English") [] []). reflexivity.
Defined.

(** C7, counterexample.  The component with transcript entries, from the
    start of a recording: after "Hel", "lo" and the turn-complete signal the
    only user entry reads "lo", not "Hello". *)
Lemma C7_counterexample :
  let st' :=
    foldl (fun st message => App2.onmessage (js "English") message st)
          App2.initial
          [input_fragment (js "Hel"); input_fragment (js "lo"); turn_complete] in
  App2.user_entries (App2.transcriptionHistory st')
  = [ {| App2.speaker := App2.user; App2.text := js "lo" |} ] /\
  App2.user_entries (App2.transcriptionHistory st')
  <> [ {| App2.speaker := App2.user; App2.text := js "Hello" |} ].
Proof. split; [reflexivity|]. vm_compute. discriminate. Qed.

(** ** Recording start and stop *)

Lemma cleanupAudio_sessions st :
  Browser.sessions (App.browser (App.cleanupAudio st))
  = Browser.sessions (App.browser st).
Proof.
  unfold App.cleanupAudio. cbn [App.browser].
  destruct (App.mediaStreamSourceRef st) as [n|];
    destruct (App.scriptProcessorRef st) as [q|];
    destruct (App.inputAudioContextRef st) as [c1|];
    destruct (App.outputAudioContextRef st) as [c2|];
    try destruct (Browser.nodes (App.browser st) !! n) as [[? [m|]]|];
    reflexivity.
Qed.



Lemma alter_disconnect (k n : nat) (l : list Browser.AudioNode) node :
  l !! n = Some node ->
  exists node',
    alter (fun x => {| Browser.connected := false;
                       Browser.mediaStream := Browser.mediaStream x |}) k l !! n
    = Some node' /\
    (k = n \/ Browser.connected node = false -> Browser.connected node' = false).
Proof.
  intros Hn. destruct (decide (k = n)) as [->|Hne].
  - rewrite list_lookup_alter_eq, Hn. cbn. eexists. split; [reflexivity|]. auto.
  - rewrite list_lookup_alter_ne by exact Hne. exists node. split; [exact Hn|].
    intros [?|?]; [congruence|assumption].
Qed.

Lemma insert_closed (c c' : nat) (l : list bool) :
  (c < length l)%nat ->
  <[c := false]> l !! c = Some false /\
  (<[c' := false]> (<[c := false]> l)) !! c = Some false /\
  (<[c := false]> (<[c' := false]> l)) !! c = Some false.
Proof.
  intros Hlt. split; [apply list_lookup_insert_eq, Hlt|]. split.
  - destruct (decide (c' = c)) as [->|Hne].
    + apply list_lookup_insert_eq. rewrite length_insert. exact Hlt.
    + rewrite list_lookup_insert_ne by exact Hne. apply list_lookup_insert_eq, Hlt.
  - apply list_lookup_insert_eq. rewrite length_insert. exact Hlt.
Qed.

(** [stopRecording] of the component: whatever the session promise and
    [session.close()] do, the handles are dropped, the tracks of the stream
    behind the stream source are stopped, the stream source and the script
    processor are disconnected and both contexts are closed. *)
Lemma stopRecording_releases closeThrows st :
  let st' := App.stopRecording closeThrows st in
  (App.mediaStreamSourceRef st' = None /\ App.scriptProcessorRef st' = None /\
   App.inputAudioContextRef st' = None /\ App.outputAudioContextRef st' = None /\
   App.analyserNodeRef st' = None) /\
  (forall n node m,
     App.mediaStreamSourceRef st = Some n ->
     Browser.nodes (App.browser st) !! n = Some node ->
     Browser.mediaStream node = Some m ->
     (m < length (Browser.tracksLive (App.browser st)))%nat ->
     Browser.tracksLive (App.browser st') !! m = Some false) /\
  (forall n node,
     App.mediaStreamSourceRef st = Some n \/ App.scriptProcessorRef st = Some n ->
     Browser.nodes (App.browser st) !! n = Some node ->
     exists node',
       Browser.nodes (App.browser st') !! n = Some node' /\
       Browser.connected node' = false) /\
  (forall c,
     App.inputAudioContextRef st = Some c \/ App.outputAudioContextRef st = Some c ->
     (c < length (Browser.contextRunning (App.browser st)))%nat ->
     Browser.contextRunning (App.browser st') !! c = Some false).
Proof.
  cbv zeta. unfold App.stopRecording.
  set (p := match App.sessionPromiseRef st with Some _ => _ | None => _ end).
  assert (Hp : Browser.tracksLive p = Browser.tracksLive (App.browser st) /\
               Browser.nodes p = Browser.nodes (App.browser st) /\
               Browser.contextRunning p = Browser.contextRunning (App.browser st)).
  { unfold p. destruct (App.sessionPromiseRef st) as [s|]; [|auto].
    destruct (Browser.sessions (App.browser st) !! s) as [[| |]|];
      destruct closeThrows; auto. }
  destruct Hp as (Htr & Hnd & Hctx). clearbody p.
  unfold App.cleanupAudio.
  cbn [App.browser App.mediaStreamSourceRef App.scriptProcessorRef
       App.inputAudioContextRef App.outputAudioContextRef App.analyserNodeRef].
  rewrite <- Htr, <- Hnd, <- Hctx.
  split; [repeat split; reflexivity|]. split; [|split].
  - intros n node m Hn Hnode Hm Hlt. rewrite Hn, Hnode.
    destruct node as [conn ms]. cbn in Hm. subst ms.
    destruct (App.scriptProcessorRef st), (App.inputAudioContextRef st),
      (App.outputAudioContextRef st); cbn;
      apply list_lookup_insert_eq; exact Hlt.
  - intros n node Href Hnode.
    destruct (App.mediaStreamSourceRef st) as [src|] eqn:Hsrc;
      destruct (App.scriptProcessorRef st) as [proc|] eqn:Hproc;
      destruct Href as [Href|Href]; try discriminate Href;
      injection Href as ->;
      destruct (App.inputAudioContextRef st), (App.outputAudioContextRef st);
      try rewrite Hnode;
      try (destruct (Browser.nodes p !! src) as [[? [?|]]|] eqn:Hs');
      try (destruct node as [? [?|]]);
      cbn;
      first
        [ destruct (alter_disconnect n n _ _ Hnode) as (nodeA & HA & CA);
          first
            [ exists nodeA; split; [exact HA|apply CA; auto]
            | destruct (alter_disconnect proc n _ _ HA) as (nodeB & HB & CB);
              exists nodeB; split; [exact HB|apply CB; right; apply CA; auto] ]
        | destruct (alter_disconnect src n _ _ Hnode) as (nodeA & HA & CA);
          destruct (alter_disconnect n n _ _ HA) as (nodeB & HB & CB);
          exists nodeB; split; [exact HB|apply CB; auto] ].
  - intros c Href Hlt.
    destruct (insert_closed c c (Browser.contextRunning p) Hlt) as (I1 & _ & _).
    destruct (App.inputAudioContextRef st) as [c1|] eqn:Hc1;
      destruct (App.outputAudioContextRef st) as [c2|] eqn:Hc2;
      destruct Href as [Href|Href]; try discriminate Href;
      injection Href as ->;
      destruct (App.mediaStreamSourceRef st) as [src|];
      destruct (App.scriptProcessorRef st);
      try (destruct (Browser.nodes p !! src) as [[? [?|]]|]);
      cbn;
      first [ exact I1
            | apply (insert_closed c c2 (Browser.contextRunning p) Hlt)
            | apply (insert_closed c c1 (Browser.contextRunning p) Hlt) ].
Qed.

(** C9.  Teardown of the script when closing the session throws:
    [stopSession] calls [session.close()] outside any [try], so the
    exception leaves the function at once and nothing is released.  From the
    state of an open session the microphone tracks stay live, the nodes stay
    connected, both contexts stay running and every handle is kept.  When
    [close()] returns, the same call releases them all; and the component's
    [stopRecording], which wraps the call in [try / catch / finally],
    releases its resources even when [close()] throws. *)
Theorem C9_stopSession_close_throws :
  (forall (st : Script.State) (s : nat),
     Script.session st = Some s ->
     Script.stopSession true false st = (st, Abrupt SessionCloseError)) /\
  (let r := Script.stopSession true false session_open in
   r.2 = Abrupt SessionCloseError /\
   Browser.tracksLive (Script.browser r.1) = [true] /\
   Browser.contextRunning (Script.browser r.1) = [true; true] /\
   map Browser.connected (Browser.nodes (Script.browser r.1)) = [true; true] /\
   Script.mediaStream r.1 = Some 0%nat) /\
  (let r := Script.stopSession false false session_open in
   r.2 = Normal /\
   Browser.tracksLive (Script.browser r.1) = [false] /\
   Browser.contextRunning (Script.browser r.1) = [false; false] /\
   map Browser.connected (Browser.nodes (Script.browser r.1)) = [false; false]) /\
  (let st := (App.startRecording true true (App.initial (js "default"))).1 in
   let st' := App.stopRecording true st in
   Browser.tracksLive (App.browser st) = [true] /\
   Browser.tracksLive (App.browser st') = [false] /\
   Browser.contextRunning (App.browser st') = [false; false] /\
   map Browser.connected (Browser.nodes (App.browser st')) = [false; false; true]).
Proof.
  split; [|repeat split; reflexivity].
  intros st s Hs. unfold Script.stopSession. rewrite Hs. reflexivity.
Qed.

Lemma C9_stopSession_close_throws_witness :
  Script.session session_open = Some 0%nat /\
  Script.stopSession true false session_open
  = (session_open, Abrupt SessionCloseError).
Proof.
  split; [reflexivity|].
  destruct C9_stopSession_close_throws as [H _].
  apply (H session_open 0%nat). reflexivity.
Defined.

(** * Further properties of the code *)

(** ** The codec on arbitrary input *)

Lemma int16_pairs_range bytes :
  Forall is_byte bytes -> Forall is_int16 (int16_pairs bytes).
Proof.
  induction bytes as [|a|a b l IH] using list_ind2; intros Hb; cbn [int16_pairs];
    try constructor.
  - inversion_clear Hb as [|? ? Ha Hb']. inversion_clear Hb' as [|? ? Hb _].
    unfold is_byte, is_int16 in *.
    destruct (Z.leb_spec 32768 (a + 256 * b)); lia.
  - apply IH. inversion_clear Hb as [|? ? _ Hb']. inversion_clear Hb' as [|? ? _ Hl].
    exact Hl.
Qed.

Lemma bytes_of_int16_pairs bytes :
  Forall is_byte bytes -> Nat.even (length bytes) = true ->
  Uint8Array_of_Int16Array (int16_pairs bytes) = bytes.
Proof.
  induction bytes as [|a|a b l IH] using list_ind2; intros Hb Heven.
  - reflexivity.
  - discriminate Heven.
  - inversion_clear Hb as [|? ? Ha Hb']. inversion_clear Hb' as [|? ? Hb Hl].
    cbn [int16_pairs Uint8Array_of_Int16Array flat_map app].
    fold (Uint8Array_of_Int16Array (int16_pairs l)).
    rewrite IH by assumption. unfold is_byte in *.
    destruct (Z.leb_spec 32768 (a + 256 * b)); f_equal; try lia; f_equal; lia.
Qed.

(** One channel: the buffer holds every 16-bit sample divided by 32768. *)
Lemma decodeAudioData_mono bytes rate :
  Nat.even (length bytes) = true -> (2 <= length bytes)%nat ->
  rate_supported rate = true ->
  Audio.decodeAudioData bytes rate 1
  = Ok {| sampleRate := rate; frames := (length bytes / 2)%nat;
          channelData := [map (fun v => Fin (v # 32768)) (int16_pairs bytes)] |}.
Proof.
  intros Heven Hlen Hrate.
  destruct (decodeAudioData_ok bytes rate 1) as (chans & Hdec & Hchans & Hch);
    [exact Heven|unfold max_channels; lia|exact Hrate|lia|].
  rewrite Nat.div_1_r in Hdec, Hch.
  destruct (Hch 0%nat) as (cd & Hcd & Hcdlen & Hsamples); [lia|].
  destruct chans as [|cd' [|? ?]]; try discriminate Hchans.
  injection Hcd as ->. rewrite Hdec. do 3 f_equal.
  apply list_eq. intros i. rewrite list_lookup_fmap.
  destruct (decide (i < length bytes / 2)%nat) as [Hi|Hi].
  - rewrite (Hsamples i Hi). unfold Audio.sample_at.
    replace (i * 1 + 0)%nat with i by lia.
    destruct (int16_pairs bytes !! i) as [v|] eqn:Hv; [reflexivity|].
    apply lookup_ge_None in Hv. rewrite int16_pairs_length in Hv. lia.
  - rewrite (lookup_ge_None_2 cd) by lia.
    rewrite (lookup_ge_None_2 (int16_pairs bytes));
      [reflexivity|rewrite int16_pairs_length; lia].
Qed.

(** What a successful call tells about its arguments. *)
Lemma decodeAudioData_inv data rate nc buffer :
  Audio.decodeAudioData data rate nc = Ok buffer ->
  Nat.even (length data) = true /\ (1 <= nc <= max_channels)%nat /\
  rate_supported rate = true /\ (nc <= length data / 2)%nat.
Proof.
  intros Hdec.
  destruct (Nat.even (length data)) eqn:Heven;
    [|rewrite decodeAudioData_odd in Hdec by exact Heven; discriminate Hdec].
  destruct (decide (length data / 2 < nc)%nat) as [Hlt|Hge];
    [rewrite decodeAudioData_no_frame in Hdec by assumption; discriminate Hdec|].
  split; [reflexivity|].
  unfold Audio.decodeAudioData, Int16Array_of_buffer in Hdec.
  rewrite Heven in Hdec. cbn [mbind result_bind] in Hdec. unfold createBuffer in Hdec.
  destruct (nc =? 0)%nat eqn:H0; [discriminate Hdec|].
  destruct (max_channels <? nc)%nat eqn:Hmax; [discriminate Hdec|].
  destruct (unsigned_long _ =? 0)%nat; [discriminate Hdec|].
  destruct (rate_supported rate); [|discriminate Hdec].
  apply Nat.eqb_neq in H0. apply Nat.ltb_ge in Hmax. repeat split; lia.
Qed.

Lemma truncate_of_quotient (v : Z) : truncate ((v # 32768) * 32768) = v.
Proof.
  assert (Heq : ((v # 32768) * 32768 == inject_Z v)%Q).
  { unfold Qeq, inject_Z. cbn [Qnum Qden Qmult]. lia. }
  unfold truncate.
  destruct (Qlt_le_dec ((v # 32768) * 32768) 0) as [H|H].
  - rewrite Heq, <- inject_Z_opp, Qfloor_Z. lia.
  - rewrite Heq. apply Qfloor_Z.
Qed.

Lemma pcm16_of_decoded int16 :
  Forall is_int16 int16 -> pcm16 (map (fun v => Fin (v # 32768)) int16) = int16.
Proof.
  intros H. unfold pcm16. rewrite map_map. apply map_id_on.
  eapply Forall_impl; [exact H|]. intros v Hv. cbn [mul].
  rewrite ToInt16_no_wrap; rewrite truncate_of_quotient; [reflexivity|exact Hv].
Qed.

(** X1.  The whole codec on any non-empty array of Numbers (NaN, infinities
    and values outside [-1, 1] included): [createBlob] succeeds, [decode]
    returns two bytes per sample, and [decodeAudioData] with one channel
    returns the array of the same length whose [i]-th element is
    [ToInt16 (data[i] * 32768) / 32768]. *)
Theorem X1_codec_is_quantisation (data : list number) (rate : Q) :
  data <> [] -> rate_supported rate = true ->
  exists blob bytes,
    Audio.createBlob data = Ok blob /\
    Audio.decode (Audio.data blob) = Ok bytes /\
    length bytes = (2 * length data)%nat /\
    Audio.decodeAudioData bytes rate 1
    = Ok {| sampleRate := rate; frames := length data;
            channelData := [map quantised data] |}.
Proof.
  intros Hne Hrate.
  set (bytes := Uint8Array_of_Int16Array (pcm16 data)).
  assert (Hlen : length bytes = (2 * length data)%nat).
  { unfold bytes, pcm16. rewrite Uint8Array_length, length_map. reflexivity. }
  exists {| Audio.data := b64_encode bytes;
            Audio.mimeType := js "audio/pcm;rate=16000" |}, bytes.
  split; [apply createBlob_ok|].
  split; [apply decode_b64_encode, Uint8Array_bytes|].
  split; [exact Hlen|].
  rewrite decodeAudioData_mono.
  - unfold bytes at 2. rewrite int16_pairs_bytes by apply pcm16_range.
    rewrite Hlen. replace (2 * length data / 2)%nat with (length data) by lia.
    unfold pcm16. rewrite map_map. reflexivity.
  - rewrite Hlen. apply Nat.even_spec. exists (length data). reflexivity.
  - destruct data; [congruence|]. rewrite Hlen. simpl. lia.
  - exact Hrate.
Qed.

Lemma X1_codec_is_quantisation_witness :
  exists blob bytes,
    Audio.createBlob [NaN; Fin (3 # 2); Infinity true] = Ok blob /\
    Audio.decode (Audio.data blob) = Ok bytes /\
    length bytes = (2 * 3)%nat /\
    Audio.decodeAudioData bytes 24000 1
    = Ok {| sampleRate := 24000; frames := 3;
            channelData := [map quantised [NaN; Fin (3 # 2); Infinity true]] |}.
Proof.
  apply (X1_codec_is_quantisation [NaN; Fin (3 # 2); Infinity true] 24000);
    [discriminate|reflexivity].
Defined.

(** X2.  Whatever bytes [decodeAudioData] is given, a buffer it returns
    holds only finite samples in [-1, 1): never NaN, never the [undefined]
    read past the end of the 16-bit view. *)
Theorem X2_decoded_samples_in_range (data : list Z) (rate : Q) (channels : nat)
    (buffer : AudioBuffer) :
  Forall is_byte data ->
  Audio.decodeAudioData data rate channels = Ok buffer ->
  length (channelData buffer) = channels /\
  forall cd x, cd ∈ channelData buffer -> x ∈ cd -> unit_sample x.
Proof.
  intros Hbytes Hdec.
  destruct (decodeAudioData_inv _ _ _ _ Hdec) as (Heven & Hnc & Hrate & Hle).
  destruct (decodeAudioData_ok data rate channels Heven Hnc Hrate Hle)
    as (chans & Hok & Hchans & Hch).
  rewrite Hok in Hdec. injection Hdec as <-. cbn [channelData].
  split; [exact Hchans|].
  intros cd x Hcd Hx.
  apply list_elem_of_lookup in Hcd as [c Hc].
  assert (Hclt : (c < channels)%nat) by (rewrite <- Hchans; eapply lookup_lt_Some, Hc).
  destruct (Hch c Hclt) as (cd' & Hcd' & Hlen & Hsamples).
  rewrite Hc in Hcd'. injection Hcd' as <-.
  apply list_elem_of_lookup in Hx as [i Hi].
  assert (Hilt : (i < length data / 2 / channels)%nat)
    by (rewrite <- Hlen; eapply lookup_lt_Some, Hi).
  rewrite (Hsamples i Hilt) in Hi. injection Hi as <-.
  unfold Audio.sample_at.
  destruct (int16_pairs data !! (i * channels + c)%nat) as [v|] eqn:Hv.
  - pose proof (int16_pairs_range data Hbytes) as Hrange.
    rewrite Forall_forall in Hrange.
    assert (Hin : is_int16 v) by (apply Hrange; eapply list_elem_of_lookup_2, Hv).
    exists (v # 32768)%Q. split; [reflexivity|].
    unfold is_int16 in Hin. unfold Qle, Qlt. cbn [Qnum Qden]. lia.
  - exfalso. apply lookup_ge_None in Hv. rewrite int16_pairs_length in Hv.
    set (n := (length data / 2)%nat) in *.
    pose proof (Nat.div_mod_eq n channels) as Hdm.
    assert (Hmul : ((n / channels) * channels <= n)%nat) by lia.
    assert (Hi' : (S i <= n / channels)%nat) by lia.
    apply (Nat.mul_le_mono_r _ _ channels) in Hi'. lia.
Qed.

Lemma X2_decoded_samples_in_range_witness :
  length (channelData
            {| sampleRate := 24000; frames := 1;
               channelData := [[Fin (-32768 # 32768)]; [Fin (32767 # 32768)]] |})
  = 2%nat /\
  forall cd x,
    cd ∈ channelData
           {| sampleRate := 24000; frames := 1;
              channelData := [[Fin (-32768 # 32768)]; [Fin (32767 # 32768)]] |} ->
    x ∈ cd -> unit_sample x.
Proof.
  apply (X2_decoded_samples_in_range [0; 128; 255; 127; 9; 9] 24000 2).
  - repeat constructor; unfold is_byte; lia.
  - reflexivity.
Defined.

(** X3.  Decoding then encoding is the identity on PCM bytes: for every
    byte array of even, non-zero length, [decodeAudioData] with one channel
    followed by [createBlob] and [decode] returns the bytes. *)
Theorem X3_reencoding_round_trip (bytes : list Z) (rate : Q) :
  Forall is_byte bytes -> Nat.even (length bytes) = true ->
  bytes <> [] -> rate_supported rate = true ->
  exists samples blob,
    Audio.decodeAudioData bytes rate 1
    = Ok {| sampleRate := rate; frames := (length bytes / 2)%nat;
            channelData := [samples] |} /\
    Audio.createBlob samples = Ok blob /\
    Audio.decode (Audio.data blob) = Ok bytes.
Proof.
  intros Hb Heven Hne Hrate.
  assert (Hlen : (2 <= length bytes)%nat).
  { destruct bytes as [|a [|b l]]; [congruence|discriminate Heven|simpl; lia]. }
  eexists _, _. split; [apply decodeAudioData_mono; assumption|].
  split; [apply createBlob_ok|]. cbn [Audio.data].
  rewrite pcm16_of_decoded by (apply int16_pairs_range, Hb).
  rewrite bytes_of_int16_pairs by assumption.
  apply decode_b64_encode, Hb.
Qed.

Lemma X3_reencoding_round_trip_witness :
  exists samples blob,
    Audio.decodeAudioData [0; 128; 255; 127] 24000 1
    = Ok {| sampleRate := 24000; frames := (length [0; 128; 255; 127] / 2)%nat;
            channelData := [samples] |} /\
    Audio.createBlob samples = Ok blob /\
    Audio.decode (Audio.data blob) = Ok [0; 128; 255; 127].
Proof.
  apply (X3_reencoding_round_trip [0; 128; 255; 127] 24000);
    [repeat constructor; unfold is_byte; lia|reflexivity|discriminate|reflexivity].
Defined.

(** X4.  [encode] never throws on a byte array, and its text is well
    formed: four characters for every started group of three bytes, each
    from the base64 alphabet or the padding character. *)
Theorem X4_encode_shape (bytes : list Z) :
  Forall is_byte bytes ->
  exists text,
    Audio.encode bytes = Ok text /\
    length text = (4 * ((length bytes + 2) / 3))%nat /\
    Forall b64_text_char text.
Proof.
  intros Hb. exists (b64_encode bytes).
  split; [apply encode_bytes, Hb|]. split.
  - unfold b64_encode. rewrite length_app, length_map. clear Hb.
    induction bytes as [|a|a b|a b c l IH] using list_ind3; try reflexivity.
    cbn [length b64_sextets]. rewrite b64_padding_step. lia.
  - unfold b64_encode. apply Forall_app. split.
    + apply Forall_map. eapply Forall_impl; [apply b64_sextets_range, Hb|].
      intros v Hv. left. cbn. rewrite b64_index_char by exact Hv. eauto.
    + destruct (b64_padding_cases (length bytes)) as [-> | [-> | ->]];
        repeat constructor; right; reflexivity.
Qed.

Lemma X4_encode_shape_witness :
  exists text,
    Audio.encode [1; 2; 3; 4] = Ok text /\
    length text = (4 * ((length [1; 2; 3; 4] + 2) / 3))%nat /\
    Forall b64_text_char text.
Proof.
  apply (X4_encode_shape [1; 2; 3; 4]). repeat constructor; unfold is_byte; lia.
Defined.

(** ** The message handler of the script: what it leaves alone *)

Lemma script_frame_refl st : script_frame st st.
Proof. repeat split. Qed.

Lemma script_frame_trans st1 st2 st3 :
  script_frame st1 st2 -> script_frame st2 st3 -> script_frame st1 st3.
Proof.
  unfold script_frame.
  intros (A1 & A2 & A3 & A4 & A5 & A6 & A7 & A8 & A9 & A10)
         (B1 & B2 & B3 & B4 & B5 & B6 & B7 & B8 & B9 & B10).
  repeat split; congruence.
Qed.

Lemma sources_kept_refl l : sources_kept l l.
Proof. intros id n Hn. exists n. auto. Qed.

Lemma sources_kept_trans l1 l2 l3 :
  sources_kept l1 l2 -> sources_kept l2 l3 -> sources_kept l1 l3.
Proof.
  intros H12 H23 id n Hn.
  destruct (H12 id n Hn) as (n2 & Hn2 & Hs2 & Hp2).
  destruct (H23 id n2 Hn2) as (n3 & Hn3 & Hs3 & Hp3).
  exists n3. split; [exact Hn3|]. split; [congruence|auto].
Qed.

Lemma sources_kept_app l extra : sources_kept l (l ++ extra).
Proof.
  intros id n Hn. exists n. split; [apply lookup_app_l_Some, Hn|auto].
Qed.

Lemma interrupt_loop_frame (ids : list nat) (st : Script.State) :
  let st' :=
    foldl (fun st source =>
             Script.set_outputSources
               (set_delete source (Script.outputSources st))
               (Script.set_browser
                  (Browser.stop_source source (Script.browser st)) st))
          st ids in
  script_frame st st' /\ Script.transcripts st' = Script.transcripts st.
Proof.
  revert st. induction ids as [|x ids IH]; intros st; cbv zeta; cbn [foldl].
  - split; [apply script_frame_refl|reflexivity].
  - set (st1 := Script.set_outputSources _ _).
    destruct (IH st1) as [Hf Ht]. cbv zeta in *. split.
    + eapply script_frame_trans; [|exact Hf]. repeat split.
    + rewrite Ht. reflexivity.
Qed.

(** The three parts of the handler, one after the other. *)
Lemma handle_audio_frame (ops : DoubleOps) message currentTime st :
  let st' := (Script.handle_audio message currentTime st).1 in
  script_frame st st' /\
  Script.transcripts st' = Script.transcripts st /\
  sources_kept (Browser.sources (Script.browser st))
               (Browser.sources (Script.browser st')).
Proof.
  cbv zeta. unfold Script.handle_audio.
  destruct (inlineData message) as [base64Audio| |];
    [|split; [apply script_frame_refl|split; [reflexivity|apply sources_kept_refl]]..].
  destruct (Script.outputAudioContext st) as [ctx|] eqn:Hctx;
    [|split; [apply script_frame_refl|split; [reflexivity|apply sources_kept_refl]]].
  destruct (bool_decide (base64Audio = []));
    [split; [apply script_frame_refl|split; [reflexivity|apply sources_kept_refl]]|].
  destruct (_ ≫= _) as [buffer|e]; cbn.
  - split; [repeat split; symmetry; exact Hctx|]. split; [reflexivity|].
    apply sources_kept_app.
  - split; [repeat split; symmetry; exact Hctx|]. split; [reflexivity|].
    apply sources_kept_refl.
Qed.

Lemma handle_interrupted_frame message st :
  let st' := Script.handle_interrupted message st in
  script_frame st st' /\
  Script.transcripts st' = Script.transcripts st /\
  sources_kept (Browser.sources (Script.browser st))
               (Browser.sources (Script.browser st')).
Proof.
  cbv zeta. unfold Script.handle_interrupted.
  destruct (interrupted message);
    [|split; [apply script_frame_refl|split; [reflexivity|apply sources_kept_refl]]].
  destruct (interrupt_loop_frame (Script.outputSources st) st) as [Hf Ht].
  destruct (interrupt_loop (Script.outputSources st) st) as (_ & _ & Hsrc).
  cbv zeta in *. split; [|split].
  - eapply script_frame_trans; [exact Hf|]. repeat split.
  - cbn. exact Ht.
  - intros id n Hn. destruct (Hsrc id n Hn) as (n' & Hn' & Hs & Hp).
    exists n'. split; [exact Hn'|]. split; [exact Hs|]. auto.
Qed.

Lemma handleServerMessage_frame (ops : DoubleOps) message currentTime st :
  let st' := (Script.handleServerMessage message currentTime st).1 in
  script_frame st st' /\
  Script.transcripts st'
  = Script.handle_transcriptions message (Script.transcripts st) /\
  sources_kept (Browser.sources (Script.browser st))
               (Browser.sources (Script.browser st')).
Proof.
  cbv zeta. unfold Script.handleServerMessage.
  set (st0 := Script.set_transcripts _ st).
  destruct (handle_audio_frame ops message currentTime st0) as (Hf & Ht & Hs).
  cbv zeta in *.
  destruct (Script.handle_audio message currentTime st0) as [st1 [|e]]; cbn [fst] in *.
  - destruct (handle_interrupted_frame message st1) as (Hf' & Ht' & Hs').
    cbv zeta in *. split; [|split].
    + eapply script_frame_trans; [|exact Hf'].
      eapply script_frame_trans; [|exact Hf]. repeat split.
    + rewrite Ht', Ht. reflexivity.
    + eapply sources_kept_trans; [exact Hs|exact Hs'].
  - split; [|split].
    + eapply script_frame_trans; [|exact Hf]. repeat split.
    + rewrite Ht. reflexivity.
    + exact Hs.
Qed.

(** X5.  Whatever messages arrive and whatever sources end, the script's
    message handling never touches the session, the microphone stream, the
    nodes or the contexts (neither the handles nor the objects), and never
    forgets or reschedules a source: a source once scheduled keeps its index
    and its start time, and a stopped source stays stopped. *)
Theorem X5_messages_leave_resources_alone (ops : DoubleOps)
    (events : list ScriptEvent) (st : Script.State) :
  script_frame st (script_run events st) /\
  sources_kept (Browser.sources (Script.browser st))
               (Browser.sources (Script.browser (script_run events st))).
Proof.
  unfold script_run.
  induction events as [|ev events [IHf IHs]] using rev_ind.
  - split; [apply script_frame_refl|apply sources_kept_refl].
  - rewrite foldl_app. cbn [foldl].
    set (mid := foldl script_step st events) in *.
    destruct ev as [message currentTime|source]; cbn [script_step].
    + destruct (handleServerMessage_frame ops message currentTime mid)
        as (Hf & _ & Hs). cbv zeta in *.
      split; [eapply script_frame_trans|eapply sources_kept_trans]; eassumption.
    + split; [|exact IHs].
      eapply script_frame_trans; [exact IHf|]. repeat split.
Qed.

(** ** The pending set of the script *)








(** ** A payload that does not decode *)

(** X7.  A chunk whose base64 text carries an odd number of bytes makes the
    handler throw [RangeError] once the transcripts are updated and the
    cursor is raised to the clock, before anything is scheduled and before
    the interruption signal of the same message is looked at: the pending
    sources are neither stopped nor forgotten and the cursor is not
    reset. *)
Theorem X7_odd_payload_skips_interruption (ops : DoubleOps)
    (bytes : list Z) (message : LiveServerMessage) (currentTime : Q)
    (st : Script.State) :
  Forall is_byte bytes -> Nat.even (length bytes) = false ->
  inlineData message = Data (b64_encode bytes) ->
  is_Some (Script.outputAudioContext st) ->
  let r := Script.handleServerMessage message currentTime st in
  r.2 = Abrupt RangeError /\
  Script.transcripts r.1
  = Script.handle_transcriptions message (Script.transcripts st) /\
  Script.nextStartTime r.1 = Math_max (Script.nextStartTime st) currentTime /\
  Script.outputSources r.1 = Script.outputSources st /\
  Script.browser r.1 = Script.browser st.
Proof.
  intros Hb Hodd Hdata [ctx Hctx]. cbv zeta.
  unfold Script.handleServerMessage, Script.handle_audio.
  cbn [Script.outputAudioContext Script.set_transcripts].
  rewrite Hdata, Hctx.
  assert (Hne : b64_encode bytes <> []).
  { intros Hnil. apply (f_equal Audio.decode) in Hnil.
    rewrite decode_b64_encode in Hnil by exact Hb.
    destruct bytes; [discriminate Hodd|].
    vm_compute in Hnil. discriminate Hnil. }
  rewrite bool_decide_eq_false_2 by exact Hne.
  rewrite decode_b64_encode by exact Hb. cbn [mbind result_bind].
  rewrite decodeAudioData_odd by exact Hodd.
  repeat split.
Qed.

Lemma X7_odd_payload_skips_interruption_witness :
  let message :=
    {| inputTranscription := None; outputTranscription := None;
       turnComplete := false; inlineData := Data (b64_encode [1; 2; 3]);
       interrupted := true |} in
  let st := (Script.handleServerMessage (ops := exact_ops)
               (audio_chunk (js "AAA=")) 0 session_open).1 in
  let r := Script.handleServerMessage (ops := exact_ops) message 1 st in
  r.2 = Abrupt RangeError /\
  Script.transcripts r.1
  = Script.handle_transcriptions message (Script.transcripts st) /\
  Script.nextStartTime r.1 = Math_max (Script.nextStartTime st) 1 /\
  Script.outputSources r.1 = Script.outputSources st /\
  Script.browser r.1 = Script.browser st.
Proof.
  cbv zeta.
  apply (X7_odd_payload_skips_interruption exact_ops [1; 2; 3]).
  - repeat constructor; unfold is_byte; lia.
  - reflexivity.
  - reflexivity.
  - eexists. reflexivity.
Defined.

(** ** Starting and stopping the script *)

(** What a completed [stopSession] leaves: no session, stream or node
    handle, no transcript, and a context handle only for a context that is
    not running. *)
Lemma stopSession_result closeThrows sessionAlreadyClosed st st' :
  Script.stopSession closeThrows sessionAlreadyClosed st = (st', Normal) ->
  Script.session st' = None /\ Script.mediaStream st' = None /\
  Script.scriptProcessor st' = None /\ Script.mediaStreamSource st' = None /\
  Script.transcripts st' = Script.no_transcripts /\
  (forall c, Script.inputAudioContext st' = Some c ->
             Browser.contextRunning (Script.browser st') !! c <> Some true) /\
  (forall c, Script.outputAudioContext st' = Some c ->
             Browser.contextRunning (Script.browser st') !! c <> Some true).
Proof.
  unfold Script.stopSession.
  destruct (_ && closeThrows); [discriminate|].
  set (p3 := match Script.mediaStreamSource st with
             | Some n => Browser.disconnect n _
             | None => _
             end).
  clearbody p3. intros [= <-].
  cbn [Script.session Script.mediaStream Script.scriptProcessor
       Script.mediaStreamSource Script.inputAudioContext
       Script.outputAudioContext Script.browser Script.transcripts].
  do 5 (split; [reflexivity|]).
  assert (Hkeep : forall (c i : nat) (l : list bool),
             l !! c <> Some true -> <[i := false]> l !! c <> Some true).
  { intros c i l Hc Hrun. destruct (decide (i = c)) as [->|Hne].
    - apply list_lookup_insert_Some in Hrun as [[_ [Hrun _]]|[Hrun _]]; congruence.
    - rewrite list_lookup_insert_ne in Hrun by exact Hne. contradiction. }
  destruct (Script.inputAudioContext st) as [c1|],
           (Script.outputAudioContext st) as [c2|];
    try destruct (decide (Browser.contextRunning p3 !! c1 = Some true)) as [H1|H1];
    try destruct (decide (Browser.contextRunning p3 !! c2 = Some true)) as [H2|H2];
    rewrite ?(bool_decide_eq_true_2 _ H1), ?(bool_decide_eq_false_2 _ H1),
            ?(bool_decide_eq_true_2 _ H2), ?(bool_decide_eq_false_2 _ H2);
    split; intros c Hc; try discriminate Hc; injection Hc as <-;
    cbn [Browser.close_context Browser.set_contextRunning Browser.contextRunning];
    repeat apply Hkeep; assumption.
Qed.

(** A state of that kind is a fixed point of [stopSession]. *)
Lemma stopSession_fixed closeThrows sessionAlreadyClosed st :
  Script.session st = None -> Script.mediaStream st = None ->
  Script.scriptProcessor st = None -> Script.mediaStreamSource st = None ->
  Script.transcripts st = Script.no_transcripts ->
  (forall c, Script.inputAudioContext st = Some c ->
             Browser.contextRunning (Script.browser st) !! c <> Some true) ->
  (forall c, Script.outputAudioContext st = Some c ->
             Browser.contextRunning (Script.browser st) !! c <> Some true) ->
  Script.stopSession closeThrows sessionAlreadyClosed st = (st, Normal).
Proof.
  destruct st as [s m ic oc sp ms next outs tr p].
  cbn [Script.session Script.mediaStream Script.scriptProcessor
       Script.mediaStreamSource Script.inputAudioContext
       Script.outputAudioContext Script.browser Script.transcripts].
  intros -> -> -> -> -> Hin Hout. unfold Script.stopSession.
  cbn [Script.session Script.mediaStream Script.scriptProcessor
       Script.mediaStreamSource Script.inputAudioContext
       Script.outputAudioContext Script.browser Script.nextStartTime
       Script.outputSources andb].
  destruct ic as [c1|], oc as [c2|];
    rewrite ?(bool_decide_eq_false_2 _ (Hin _ eq_refl)),
            ?(bool_decide_eq_false_2 _ (Hout _ eq_refl));
    reflexivity.
Qed.

(** X8.  [stopSession] is idempotent: once a call has completed, a second
    call (as [onclose] makes after [session.close()]) changes no variable
    and no browser object, and cannot throw, whatever its argument. *)
Theorem X8_stopSession_idempotent
    (closeThrows sessionAlreadyClosed closeThrows' sessionAlreadyClosed' : bool)
    (st st' : Script.State) :
  Script.stopSession closeThrows sessionAlreadyClosed st = (st', Normal) ->
  Script.stopSession closeThrows' sessionAlreadyClosed' st' = (st', Normal).
Proof.
  intros Hstop.
  destruct (stopSession_result _ _ _ _ Hstop) as (H1 & H2 & H3 & H4 & H5 & H6 & H7).
  apply stopSession_fixed; assumption.
Qed.

Lemma X8_stopSession_idempotent_witness :
  Script.stopSession true true (Script.stopSession false false session_open).1
  = ((Script.stopSession false false session_open).1, Normal).
Proof.
  apply (X8_stopSession_idempotent false false true true session_open).
  reflexivity.
Defined.

Lemma released_refl p : released p p.
Proof. repeat split; auto. Qed.

Lemma lookup_snoc_insert {A} (l : list A) (x v w : A) (i : nat) :
  <[length l := v]> (l ++ [x]) !! i = Some w -> w <> v -> l !! i = Some w.
Proof.
  intros Hlook Hne.
  apply list_lookup_insert_Some in Hlook as [(_ & <- & _)|[Hi Hlook]];
    [congruence|].
  apply lookup_app_Some in Hlook as [Hlook|[Hge Hlook]]; [exact Hlook|].
  apply lookup_lt_Some in Hlook. cbn in Hlook. exfalso.
  apply Hi, Nat.le_antisymm; [exact Hge|]. apply Nat.sub_0_le.
  apply Nat.lt_1_r, Hlook.
Qed.

(** X9.  A start that fails (the microphone is refused, or the connection
    is) cleans up after itself from a script that holds no handle: the
    function completes, the script holds no handle afterwards, and no
    session is open, no track live, no context running and no node connected
    that was not so before. *)
Theorem X9_failed_start_leaks_nothing
    (streamGranted connected closeThrows : bool) (st : Script.State) :
  no_handles st -> streamGranted && connected = false ->
  let r := Script.startSession streamGranted connected closeThrows st in
  r.2 = Normal /\ no_handles r.1 /\
  released (Script.browser st) (Script.browser r.1).
Proof.
  intros (Hs & Hm & Hi & Ho & Hp & Hsrc) Hfail. cbv zeta.
  unfold Script.startSession.
  destruct streamGranted; cbn [negb].
  - cbn [andb] in Hfail. subst connected.
    unfold Script.stopSession.
    cbn [Script.session Script.mediaStream Script.scriptProcessor
         Script.mediaStreamSource Script.inputAudioContext
         Script.outputAudioContext Script.browser].
    rewrite Hs, Hp, Hsrc. cbn [andb].
    cbn [Browser.stop_tracks Browser.set_tracksLive Browser.set_sessions
         Browser.set_contextRunning Browser.contextRunning Browser.tracksLive
         Browser.sessions Browser.nodes].
    set (ctxs := Browser.contextRunning (Script.browser st)).
    assert (H1 : (ctxs ++ [true; true]) !! length ctxs = Some true).
    { rewrite lookup_app_r, Nat.sub_diag by lia. reflexivity. }
    assert (H2 : (ctxs ++ [true; true]) !! S (length ctxs) = Some true).
    { rewrite lookup_app_r by lia.
      replace (S (length ctxs) - length ctxs)%nat with 1%nat by lia. reflexivity. }
    rewrite (bool_decide_eq_true_2 _ H1), (bool_decide_eq_true_2 _ H2).
    cbn [fst snd Script.browser Browser.close_context Browser.set_contextRunning
         Browser.contextRunning Browser.tracksLive Browser.sessions Browser.nodes].
    split; [reflexivity|]. split; [repeat split|].
    unfold released.
    cbn [Browser.contextRunning Browser.tracksLive Browser.sessions Browser.nodes].
    split; [|split; [|split]].
    + intros i Hopen. apply lookup_app_Some in Hopen as [Hopen|[_ Hopen]];
        [exact Hopen|].
      destruct (i - _)%nat as [|[|?]]; discriminate Hopen.
    + intros i Hlive. eapply lookup_snoc_insert; [exact Hlive|discriminate].
    + intros i Hrun. fold ctxs.
      apply list_lookup_insert_Some in Hrun as [(_ & Hrun & _)|[Hi2 Hrun]];
        [discriminate Hrun|].
      apply list_lookup_insert_Some in Hrun as [(_ & Hrun & _)|[Hi1 Hrun]];
        [discriminate Hrun|].
      apply lookup_app_Some in Hrun as [Hrun|[Hge Hrun]]; [exact Hrun|].
      exfalso. apply lookup_lt_Some in Hrun. cbn in Hrun. lia.
    + auto.
  - unfold Script.stopSession. rewrite Hs, Hm, Hi, Ho, Hp, Hsrc. cbn.
    split; [reflexivity|]. split; [repeat split|apply released_refl].
Qed.

Lemma X9_failed_start_leaks_nothing_witness :
  let r := Script.startSession true false false Script.initial in
  r.2 = Normal /\ no_handles r.1 /\
  released (Script.browser Script.initial) (Script.browser r.1).
Proof.
  apply (X9_failed_start_leaks_nothing true false false Script.initial).
  - repeat split.
  - reflexivity.
Defined.

(** X10.  A session that was started from a script without handles and is
    then stopped leaves nothing behind: both functions complete, the script
    holds no handle, and the session, the microphone track, the two contexts
    and the two nodes that the start created are closed, stopped, closed and
    disconnected. *)
Theorem X10_start_then_stop_releases (closeThrows : bool) (st : Script.State) :
  no_handles st ->
  let started := Script.startSession true true closeThrows st in
  let stopped := Script.stopSession false false started.1 in
  started.2 = Normal /\ is_Some (Script.session started.1) /\
  stopped.2 = Normal /\ no_handles stopped.1 /\
  released (Script.browser st) (Script.browser stopped.1).
Proof.
  intros (Hs & Hm & Hi & Ho & Hp & Hsrc). cbv zeta.
  unfold Script.startSession. cbn [negb fst snd].
  split; [reflexivity|]. split; [eexists; reflexivity|].
  unfold Script.stopSession.
  cbn [Script.session Script.mediaStream Script.scriptProcessor
       Script.mediaStreamSource Script.inputAudioContext
       Script.outputAudioContext Script.browser negb andb].
  unfold Browser.connect, Browser.disconnect, Browser.close_session,
    Browser.stop_tracks.
  cbn [Browser.set_tracksLive Browser.set_sessions Browser.set_nodes
       Browser.set_contextRunning Browser.contextRunning Browser.tracksLive
       Browser.sessions Browser.nodes].
  set (ctxs := Browser.contextRunning (Script.browser st)).
  assert (H1 : (ctxs ++ [true; true]) !! length ctxs = Some true).
  { rewrite lookup_app_r, Nat.sub_diag by lia. reflexivity. }
  assert (H2 : (ctxs ++ [true; true]) !! S (length ctxs) = Some true).
  { rewrite lookup_app_r by lia.
    replace (S (length ctxs) - length ctxs)%nat with 1%nat by lia. reflexivity. }
  rewrite (bool_decide_eq_true_2 _ H1), (bool_decide_eq_true_2 _ H2).
  cbn [fst snd Script.browser Browser.close_context Browser.set_contextRunning
       Browser.contextRunning Browser.tracksLive Browser.sessions Browser.nodes].
  split; [reflexivity|]. split; [repeat split|].
  unfold released.
  cbn [Browser.contextRunning Browser.tracksLive Browser.sessions Browser.nodes
       Browser.close_context Browser.set_contextRunning Browser.set_nodes
       Browser.set_tracksLive Browser.set_sessions].
  split; [|split; [|split]].
  - intros i Hopen. eapply lookup_snoc_insert; [exact Hopen|discriminate].
  - intros i Hlive. eapply lookup_snoc_insert; [exact Hlive|discriminate].
  - intros i Hrun. fold ctxs.
    apply list_lookup_insert_Some in Hrun as [(_ & Hrun & _)|[Hi2 Hrun]];
      [discriminate Hrun|].
    apply list_lookup_insert_Some in Hrun as [(_ & Hrun & _)|[Hi1 Hrun]];
      [discriminate Hrun|].
    apply lookup_app_Some in Hrun as [Hrun|[Hge Hrun]]; [exact Hrun|].
    exfalso. apply lookup_lt_Some in Hrun. cbn in Hrun. lia.
  - intros i n Hn Hconn.
    set (nds := Browser.nodes (Script.browser st)) in *.
    destruct (decide (i = length nds)) as [->|Hne1].
    { rewrite list_lookup_alter_eq in Hn.
      destruct (_ !! length nds) as [n0|]; [|discriminate Hn].
      injection Hn as <-. discriminate Hconn. }
    rewrite list_lookup_alter_ne in Hn by congruence.
    destruct (decide (i = S (length nds))) as [->|Hne2].
    { rewrite list_lookup_alter_eq in Hn.
      destruct (_ !! S (length nds)) as [n0|]; [|discriminate Hn].
      injection Hn as <-. discriminate Hconn. }
    rewrite !list_lookup_alter_ne in Hn by congruence.
    apply lookup_app_Some in Hn as [Hn|[Hge Hn]]; [exact Hn|].
    exfalso. apply lookup_lt_Some in Hn. cbn in Hn. lia.
Qed.

Lemma X10_start_then_stop_releases_witness :
  let started := Script.startSession true true false Script.initial in
  let stopped := Script.stopSession false false started.1 in
  started.2 = Normal /\ is_Some (Script.session started.1) /\
  stopped.2 = Normal /\ no_handles stopped.1 /\
  released (Script.browser Script.initial) (Script.browser stopped.1).
Proof.
  apply (X10_start_then_stop_releases false Script.initial). repeat split.
Defined.

Lemma stopSession_playback closeThrows sessionAlreadyClosed st :
  let r := Script.stopSession closeThrows sessionAlreadyClosed st in
  Script.nextStartTime r.1 = Script.nextStartTime st /\
  Script.outputSources r.1 = Script.outputSources st /\
  Browser.sources (Script.browser r.1) = Browser.sources (Script.browser st).
Proof.
  cbv zeta. unfold Script.stopSession.
  destruct (_ && closeThrows); [repeat split|].
  cbn [fst Script.nextStartTime Script.outputSources Script.browser].
  do 2 (split; [reflexivity|]).
  destruct (Script.session st), (Script.mediaStream st),
    (Script.scriptProcessor st), (Script.mediaStreamSource st),
    (Script.inputAudioContext st), (Script.outputAudioContext st),
    sessionAlreadyClosed;
    repeat match goal with
           | |- context [bool_decide ?P] => destruct (bool_decide P)
           end; reflexivity.
Qed.

Lemma startSession_playback streamGranted connected closeThrows st :
  let r := Script.startSession streamGranted connected closeThrows st in
  Script.nextStartTime r.1 = Script.nextStartTime st /\
  Script.outputSources r.1 = Script.outputSources st /\
  Browser.sources (Script.browser r.1) = Browser.sources (Script.browser st).
Proof.
  cbv zeta. unfold Script.startSession.
  destruct streamGranted; cbn [negb]; [|apply stopSession_playback].
  destruct connected; [repeat split|].
  match goal with
  | |- context [Script.stopSession _ _ ?s] =>
      destruct (stopSession_playback closeThrows false s) as (H1 & H2 & H3)
  end.
  cbv zeta in *. rewrite H1, H2, H3. repeat split.
Qed.

Lemma b64_encode_nonempty bytes :
  Forall is_byte bytes -> bytes <> [] -> b64_encode bytes <> [].
Proof.
  intros Hb Hne Hnil. apply (f_equal Audio.decode) in Hnil.
  rewrite decode_b64_encode in Hnil by exact Hb.
  vm_compute in Hnil. congruence.
Qed.

(** A decodable chunk, with an output context at hand, is scheduled at the
    later of the cursor and the clock. *)
Lemma audio_chunk_scheduled (ops : DoubleOps) bytes currentTime st :
  Forall is_byte bytes -> Nat.even (length bytes) = true -> bytes <> [] ->
  is_Some (Script.outputAudioContext st) ->
  let r := Script.handleServerMessage (audio_chunk (b64_encode bytes))
             currentTime st in
  r.2 = Normal /\
  exists n,
    Browser.sources (Script.browser r.1)
    = Browser.sources (Script.browser st) ++ [n] /\
    Browser.startTime n = Math_max (Script.nextStartTime st) currentTime /\
    Browser.stopped n = false.
Proof.
  intros Hb Heven Hne [ctx Hctx]. cbv zeta.
  unfold Script.handleServerMessage, Script.handle_audio.
  cbn [Script.outputAudioContext Script.set_transcripts inlineData audio_chunk].
  rewrite Hctx.
  rewrite bool_decide_eq_false_2 by (apply b64_encode_nonempty; assumption).
  rewrite decode_b64_encode by exact Hb. cbn [mbind result_bind].
  rewrite decodeAudioData_mono; [|exact Heven| |reflexivity].
  2:{ destruct bytes as [|a [|b l]]; [congruence|discriminate Heven|cbn; lia]. }
  cbn. split; [reflexivity|]. eexists. split; [reflexivity|]. split; reflexivity.
Qed.

(** X11.  Stopping and starting do not touch playback: [toggleSession],
    whichever branch it takes and however it ends, leaves the cursor, the
    pending set and every scheduled source as they are.  So the first buffer
    of a session that follows a stopped one starts at the cursor the old
    session left, if that is later than the clock of the new output
    context. *)
Theorem X11_cursor_survives_restart (ops : DoubleOps)
    (bytes : list Z) (currentTime : Q) (st : Script.State) :
  Forall is_byte bytes -> Nat.even (length bytes) = true -> bytes <> [] ->
  (forall streamGranted connected closeThrows,
     let r := Script.toggleSession streamGranted connected closeThrows st in
     Script.nextStartTime r.1 = Script.nextStartTime st /\
     Script.outputSources r.1 = Script.outputSources st /\
     Browser.sources (Script.browser r.1) = Browser.sources (Script.browser st)) /\
  (is_Some (Script.session st) ->
   let off := (Script.toggleSession true true false st).1 in
   let on := (Script.toggleSession true true false off).1 in
   let r := Script.handleServerMessage (audio_chunk (b64_encode bytes))
              currentTime on in
   Script.session off = None /\ is_Some (Script.session on) /\
   r.2 = Normal /\
   exists n,
     Browser.sources (Script.browser r.1)
     = Browser.sources (Script.browser st) ++ [n] /\
     Browser.startTime n = Math_max (Script.nextStartTime st) currentTime /\
     Browser.stopped n = false).
Proof.
  intros Hb Heven Hne.
  assert (Htoggle : forall g c ct st0,
    let r := Script.toggleSession g c ct st0 in
    Script.nextStartTime r.1 = Script.nextStartTime st0 /\
    Script.outputSources r.1 = Script.outputSources st0 /\
    Browser.sources (Script.browser r.1) = Browser.sources (Script.browser st0)).
  { intros g c ct st0. cbv zeta. unfold Script.toggleSession.
    destruct (Script.session st0);
      [apply stopSession_playback|apply startSession_playback]. }
  split; [intros g c ct; apply Htoggle|].
  intros [s Hs]. cbv zeta.
  set (off := (Script.toggleSession true true false st).1).
  set (on := (Script.toggleSession true true false off).1).
  assert (Hoff : Script.session off = None).
  { unfold off, Script.toggleSession. rewrite Hs.
    unfold Script.stopSession. rewrite Hs. cbn. reflexivity. }
  assert (Hon : is_Some (Script.session on) /\
                is_Some (Script.outputAudioContext on)).
  { unfold on, Script.toggleSession. rewrite Hoff.
    unfold Script.startSession. cbn. split; eexists; reflexivity. }
  destruct Hon as [Hon Hctx].
  destruct (Htoggle true true false st) as (Hn1 & _ & Hs1).
  destruct (Htoggle true true false off) as (Hn2 & _ & Hs2).
  cbv zeta in *. fold off in Hn1, Hs1, Hn2, Hs2. fold on in Hn2, Hs2.
  split; [exact Hoff|]. split; [exact Hon|].
  destruct (audio_chunk_scheduled ops bytes currentTime on Hb Heven Hne Hctx)
    as (Hnormal & n & Hsrc & Hstart & Hstopped).
  cbv zeta in *. split; [exact Hnormal|].
  exists n. rewrite Hsrc, Hs2, Hs1, Hstart, Hn2, Hn1. repeat split; assumption.
Qed.

Lemma X11_cursor_survives_restart_witness :
  let st := (Script.handleServerMessage (ops := exact_ops)
               (audio_chunk (js "AAAAAA==")) 5 session_open).1 in
  let off := (Script.toggleSession true true false st).1 in
  let on := (Script.toggleSession true true false off).1 in
  let r := Script.handleServerMessage (ops := exact_ops)
             (audio_chunk (b64_encode [1; 2])) 0 on in
  Script.session off = None /\ is_Some (Script.session on) /\
  r.2 = Normal /\
  exists n,
    Browser.sources (Script.browser r.1)
    = Browser.sources (Script.browser st) ++ [n] /\
    Browser.startTime n = Math_max (Script.nextStartTime st) 0 /\
    Browser.stopped n = false.
Proof.
  cbv zeta.
  refine (proj2 (X11_cursor_survives_restart exact_ops [1; 2] 0 _ _ _ _) _).
  - repeat constructor; unfold is_byte; lia.
  - reflexivity.
  - discriminate.
  - eexists. reflexivity.
Defined.

(** ** Transcripts of the script, for any run *)

Lemma fragments_snoc (arrivals : list (LiveServerMessage * Q)) a :
  input_fragments (arrivals ++ [a])
  = input_fragments arrivals ++ default [] (inputTranscription a.1) /\
  output_fragments (arrivals ++ [a])
  = output_fragments arrivals ++ default [] (outputTranscription a.1).
Proof.
  unfold input_fragments, output_fragments. rewrite !omap_app, !concat_app.
  cbn [omap list_omap]. split.
  - destruct (inputTranscription a.1); cbn; rewrite ?app_nil_r; reflexivity.
  - destruct (outputTranscription a.1); cbn; rewrite ?app_nil_r; reflexivity.
Qed.

(** X12.  Transcripts of the script.  Within a turn the two accumulators
    grow by the fragments in order of arrival and the two histories stand
    still, whatever else the messages carry (audio that does not decode and
    interruptions included); the message that carries the turn-complete
    signal moves each accumulator, with its own fragment, as one line into
    its history, which is then trimmed, and empties it. *)
Theorem X12_transcripts_accumulate (ops : DoubleOps)
    (arrivals : list (LiveServerMessage * Q)) (st : Script.State) :
  within_turn arrivals ->
  let t := Script.transcripts st in
  Script.transcripts (Script.handle_all arrivals st)
  = {| Script.currentInputTranscription :=
         Script.currentInputTranscription t ++ input_fragments arrivals;
       Script.currentOutputTranscription :=
         Script.currentOutputTranscription t ++ output_fragments arrivals;
       Script.fullUserTranscript := Script.fullUserTranscript t;
       Script.fullModelTranscript := Script.fullModelTranscript t |} /\
  forall message currentTime,
    turnComplete message = true ->
    Script.transcripts (Script.handle_all (arrivals ++ [(message, currentTime)]) st)
    = {| Script.currentInputTranscription := [];
         Script.currentOutputTranscription := [];
         Script.fullUserTranscript :=
           Script.trim_history
             (Script.fullUserTranscript t ++
              (Script.currentInputTranscription t ++
               input_fragments (arrivals ++ [(message, currentTime)])) ++
              Script.br);
         Script.fullModelTranscript :=
           Script.trim_history
             (Script.fullModelTranscript t ++
              (Script.currentOutputTranscription t ++
               output_fragments (arrivals ++ [(message, currentTime)])) ++
              Script.br) |}.
Proof.
  intros Hturn. cbv zeta.
  assert (Hacc : Script.transcripts (Script.handle_all arrivals st)
    = {| Script.currentInputTranscription :=
           Script.currentInputTranscription (Script.transcripts st)
           ++ input_fragments arrivals;
         Script.currentOutputTranscription :=
           Script.currentOutputTranscription (Script.transcripts st)
           ++ output_fragments arrivals;
         Script.fullUserTranscript :=
           Script.fullUserTranscript (Script.transcripts st);
         Script.fullModelTranscript :=
           Script.fullModelTranscript (Script.transcripts st) |}).
  { induction arrivals as [|[message currentTime] arrivals IH] using rev_ind.
    - cbn. rewrite !app_nil_r. destruct (Script.transcripts st). reflexivity.
    - apply Forall_app in Hturn as [Hturn Hm].
      inversion_clear Hm as [|? ? Hm' _]. cbn [fst] in Hm'.
      unfold Script.handle_all in *. rewrite foldl_app. cbn [foldl fst snd].
      destruct (handleServerMessage_frame ops message currentTime
                  (foldl (fun st a => (Script.handleServerMessage a.1 a.2 st).1)
                         st arrivals)) as (_ & -> & _).
      rewrite (IH Hturn).
      destruct (fragments_snoc arrivals (message, currentTime)) as [-> ->].
      cbn [fst]. unfold Script.handle_transcriptions. rewrite Hm'.
      destruct (inputTranscription message), (outputTranscription message);
        cbn; rewrite ?app_nil_r, <- ?app_assoc; reflexivity. }
  split; [exact Hacc|].
  intros message currentTime Hm.
  unfold Script.handle_all in *. rewrite foldl_app. cbn [foldl fst snd].
  destruct (handleServerMessage_frame ops message currentTime
              (foldl (fun st a => (Script.handleServerMessage a.1 a.2 st).1)
                     st arrivals)) as (_ & -> & _).
  rewrite Hacc.
  destruct (fragments_snoc arrivals (message, currentTime)) as [-> ->].
  cbn [fst]. unfold Script.handle_transcriptions. rewrite Hm.
  destruct (inputTranscription message), (outputTranscription message);
    cbn; rewrite ?app_nil_r, <- ?app_assoc; reflexivity.
Qed.

Lemma X12_transcripts_accumulate_witness :
  let arrivals := [(input_fragment (js "Hel"), 0%Q);
                   (audio_chunk (js "A"), 0%Q);
                   (input_fragment (js "lo"), 1%Q)] in
  Script.transcripts (Script.handle_all (ops := exact_ops) arrivals session_open)
  = {| Script.currentInputTranscription := js "Hello";
       Script.currentOutputTranscription := [];
       Script.fullUserTranscript := [];
       Script.fullModelTranscript := [] |}.
Proof.
  cbv zeta.
  refine (proj1 (X12_transcripts_accumulate exact_ops
                   [(input_fragment (js "Hel"), 0%Q);
                    (audio_chunk (js "A"), 0%Q);
                    (input_fragment (js "lo"), 1%Q)] session_open _)).
  repeat constructor.
Defined.

(** ** The component: histories *)

Lemma slice_last_short {A} (n : nat) (xs : list A) :
  (length xs <= n)%nat -> slice_last n xs = xs.
Proof.
  intros Hle. unfold slice_last.
  replace (length xs - n)%nat with 0%nat by lia. reflexivity.
Qed.

Lemma slice_last_length {A} (n : nat) (xs : list A) :
  (length (slice_last n xs) <= n)%nat.
Proof. unfold slice_last. rewrite length_drop. lia. Qed.

(** Slicing in between changes nothing for the last [n] elements. *)
Lemma slice_last_app {A} (n : nat) (xs ys : list A) :
  slice_last n (slice_last n xs ++ ys) = slice_last n (xs ++ ys).
Proof.
  unfold slice_last. rewrite !length_app, length_drop.
  destruct (decide (length xs <= n)%nat) as [Hle|Hgt].
  - replace (length xs - n)%nat with 0%nat by lia. cbn [drop].
    rewrite Nat.sub_0_r. reflexivity.
  - replace (length xs - (length xs - n) + length ys - n)%nat
      with (length ys)%nat by lia.
    replace (length xs + length ys - n)%nat
      with ((length xs - n) + length ys)%nat by lia.
    rewrite <- drop_drop.
    rewrite (drop_app_le xs ys (length xs - n)) by lia. reflexivity.
Qed.

Lemma App_onMessage_frame (ops : DoubleOps) message currentTime st :
  let st' := (App.onMessage message currentTime st).1 in
  app_frame st st' /\
  App.userInputHistory st'
  = match inputTranscription message with
    | Some textChunk =>
        slice_last App.MAX_HISTORY_LENGTH (App.userInputHistory st ++ textChunk)
    | None => App.userInputHistory st
    end /\
  App.translationHistory st'
  = match outputTranscription message with
    | Some textChunk =>
        slice_last App.MAX_HISTORY_LENGTH (App.translationHistory st ++ textChunk)
    | None => App.translationHistory st
    end.
Proof.
  cbv zeta. unfold App.onMessage.
  destruct (inlineData message) as [base64Audio| |]; [|repeat split..].
  destruct (bool_decide (base64Audio = [])); [repeat split|].
  destruct (Audio.decode base64Audio) as [audioData|e]; [|repeat split].
  destruct (App.outputAudioContextRef st) as [ctx|] eqn:Hctx;
    [|repeat split; cbn; congruence].
  destruct (Audio.decodeAudioData audioData 24000 1) as [buffer|e];
    repeat split; cbn; congruence.
Qed.

Lemma app_frame_refl st : app_frame st st.
Proof. repeat split. Qed.

Lemma app_frame_trans st1 st2 st3 :
  app_frame st1 st2 -> app_frame st2 st3 -> app_frame st1 st3.
Proof.
  unfold app_frame.
  intros (A1 & A2 & A3 & A4 & A5 & A6 & A7 & A8 & A9 & A10 & A11 & A12 & A13)
         (B1 & B2 & B3 & B4 & B5 & B6 & B7 & B8 & B9 & B10 & B11 & B12 & B13).
  repeat split; congruence.
Qed.

(** X13.  Histories of the component (first revision).  Over any run of
    messages each history is the last 1000 code units of what it was
    followed by the fragments in order of arrival, whether or not the audio
    of a message decodes; and the messages change nothing else than the two
    histories, the cursor and the scheduled sources: not the recording flag,
    the error, a handle, a session, a track, a node or a context. *)
Theorem X13_history_is_last_1000 (ops : DoubleOps)
    (arrivals : list (LiveServerMessage * Q)) (st : App.State) :
  (length (App.userInputHistory st) <= App.MAX_HISTORY_LENGTH)%nat ->
  (length (App.translationHistory st) <= App.MAX_HISTORY_LENGTH)%nat ->
  let st' := App.handle_all arrivals st in
  App.userInputHistory st'
  = slice_last App.MAX_HISTORY_LENGTH
      (App.userInputHistory st ++ input_fragments arrivals) /\
  App.translationHistory st'
  = slice_last App.MAX_HISTORY_LENGTH
      (App.translationHistory st ++ output_fragments arrivals) /\
  app_frame st st'.
Proof.
  intros Hu Ht. cbv zeta.
  induction arrivals as [|[message currentTime] arrivals (IHu & IHt & IHf)]
    using rev_ind.
  - cbn. rewrite !app_nil_r, !slice_last_short by assumption.
    split; [reflexivity|]. split; [reflexivity|apply app_frame_refl].
  - unfold App.handle_all in *. rewrite foldl_app. cbn [foldl fst snd].
    set (mid := foldl _ st arrivals) in *.
    destruct (App_onMessage_frame ops message currentTime mid) as (Hf & Hin & Hout).
    cbv zeta in *. rewrite Hin, Hout, IHu, IHt.
    destruct (fragments_snoc arrivals (message, currentTime)) as [-> ->].
    cbn [fst]. split; [|split].
    + destruct (inputTranscription message) as [textChunk|]; cbn.
      * rewrite slice_last_app, app_assoc. reflexivity.
      * rewrite app_nil_r. reflexivity.
    + destruct (outputTranscription message) as [textChunk|]; cbn.
      * rewrite slice_last_app, app_assoc. reflexivity.
      * rewrite app_nil_r. reflexivity.
    + eapply app_frame_trans; eassumption.
Qed.

Lemma X13_history_is_last_1000_witness :
  let st := (App.startRecording true true (App.initial (js "default"))).1 in
  let arrivals := [(input_fragment (js "Hel"), 0%Q);
                   (audio_chunk (js "A"), 0%Q);
                   (input_fragment (js "lo"), 1%Q)] in
  let st' := App.handle_all (ops := exact_ops) arrivals st in
  App.userInputHistory st'
  = slice_last App.MAX_HISTORY_LENGTH
      (App.userInputHistory st ++ input_fragments arrivals) /\
  App.translationHistory st'
  = slice_last App.MAX_HISTORY_LENGTH
      (App.translationHistory st ++ output_fragments arrivals) /\
  app_frame st st'.
Proof.
  apply (X13_history_is_last_1000 exact_ops); cbn; unfold App.MAX_HISTORY_LENGTH; lia.
Defined.

(** ** The component: what a stop releases *)

Lemma insert_not_kept {A} (l : list A) (i j : nat) (v w : A) :
  <[i := v]> l !! j = Some w -> w <> v -> l !! j = Some w /\ i <> j.
Proof.
  intros Hlook Hne.
  apply list_lookup_insert_Some in Hlook as [(_ & <- & _)|[Hi Hlook]];
    [congruence|auto].
Qed.

Lemma alter_disconnect_connected (l : list Browser.AudioNode) (i j : nat) n :
  alter (fun n => {| Browser.connected := false;
                     Browser.mediaStream := Browser.mediaStream n |}) i l !! j
  = Some n ->
  Browser.connected n = true -> l !! j = Some n /\ i <> j.
Proof.
  intros Hlook Hconn. destruct (decide (i = j)) as [->|Hne].
  - rewrite list_lookup_alter_eq in Hlook.
    destruct (l !! j); [|discriminate Hlook].
    injection Hlook as <-. discriminate Hconn.
  - rewrite list_lookup_alter_ne in Hlook by exact Hne. auto.
Qed.

(** After [stopRecording], [close()] having returned: a session that is
    open, a track that is live, a context that is running, a node that is
    connected was so before, and the component did not reference it. *)
Lemma stopRecording_unreferenced st :
  let st' := App.stopRecording false st in
  (forall i, Browser.sessions (App.browser st') !! i = Some Browser.Open ->
     Browser.sessions (App.browser st) !! i = Some Browser.Open /\
     App.sessionPromiseRef st <> Some i) /\
  (forall i, Browser.tracksLive (App.browser st') !! i = Some true ->
     Browser.tracksLive (App.browser st) !! i = Some true /\
     forall n node, App.mediaStreamSourceRef st = Some n ->
       Browser.nodes (App.browser st) !! n = Some node ->
       Browser.mediaStream node <> Some i) /\
  (forall i, Browser.contextRunning (App.browser st') !! i = Some true ->
     Browser.contextRunning (App.browser st) !! i = Some true /\
     App.inputAudioContextRef st <> Some i /\
     App.outputAudioContextRef st <> Some i) /\
  (forall i n, Browser.nodes (App.browser st') !! i = Some n ->
     Browser.connected n = true ->
     Browser.nodes (App.browser st) !! i = Some n /\
     App.mediaStreamSourceRef st <> Some i /\
     App.scriptProcessorRef st <> Some i).
Proof.
  cbv zeta. unfold App.stopRecording.
  set (p := match App.sessionPromiseRef st with Some _ => _ | None => _ end).
  assert (Hp : Browser.tracksLive p = Browser.tracksLive (App.browser st) /\
               Browser.nodes p = Browser.nodes (App.browser st) /\
               Browser.contextRunning p = Browser.contextRunning (App.browser st)).
  { unfold p. destruct (App.sessionPromiseRef st) as [s|]; [|auto].
    destruct (Browser.sessions (App.browser st) !! s) as [[| |]|]; auto. }
  destruct Hp as (Htr & Hnd & Hctx).
  split; [|split; [|split]].
  - intros i. rewrite cleanupAudio_sessions. cbn [App.browser]. unfold p.
    destruct (App.sessionPromiseRef st) as [s|]; [|intros H; split; [exact H|discriminate]].
    destruct (Browser.sessions (App.browser st) !! s) as [status|] eqn:Hs.
    + destruct status; cbn [Browser.close_session Browser.set_sessions Browser.sessions];
        intros Hopen;
        try (apply insert_not_kept in Hopen as [Hopen Hne]; [|discriminate];
             split; [exact Hopen|congruence]).
      split; [exact Hopen|]. intros [= ->]. congruence.
    + cbn [Browser.close_session Browser.set_sessions Browser.sessions].
      intros Hopen. apply insert_not_kept in Hopen as [Hopen Hne]; [|discriminate].
      split; [exact Hopen|congruence].
  - clearbody p. unfold App.cleanupAudio.
    cbn [App.browser App.mediaStreamSourceRef App.scriptProcessorRef
         App.inputAudioContextRef App.outputAudioContextRef].
    rewrite <- Htr, <- Hnd. intros i Hlive.
    assert (Hlive' :
      Browser.tracksLive
        match App.mediaStreamSourceRef st with
        | Some n =>
            match Browser.nodes p !! n with
            | Some {| Browser.mediaStream := Some m |} => Browser.stop_tracks m p
            | _ => p
            end
        | None => p
        end !! i = Some true).
    { destruct (App.mediaStreamSourceRef st), (App.scriptProcessorRef st),
        (App.inputAudioContextRef st), (App.outputAudioContextRef st);
        exact Hlive. }
    clear Hlive.
    destruct (App.mediaStreamSourceRef st) as [src|];
      [|split; [exact Hlive'|discriminate]].
    destruct (Browser.nodes p !! src) as [[conn [m|]]|] eqn:Hsrc.
    + cbn [Browser.stop_tracks Browser.set_tracksLive Browser.tracksLive] in Hlive'.
      apply insert_not_kept in Hlive' as [Hlive' Hne]; [|discriminate].
      split; [exact Hlive'|]. intros n node [= <-] Hnode.
      rewrite Hsrc in Hnode. injection Hnode as <-. cbn. congruence.
    + split; [exact Hlive'|]. intros n node [= <-] Hnode.
      rewrite Hsrc in Hnode. injection Hnode as <-. discriminate.
    + split; [exact Hlive'|]. intros n node [= <-] Hnode. congruence.
  - clearbody p. unfold App.cleanupAudio.
    cbn [App.browser App.mediaStreamSourceRef App.scriptProcessorRef
         App.inputAudioContextRef App.outputAudioContextRef].
    rewrite <- Hctx. intros i Hrun.
    set (p1 := match App.mediaStreamSourceRef st with
               | Some n => match Browser.nodes p !! n with
                           | Some {| Browser.mediaStream := Some m |} =>
                               Browser.stop_tracks m p
                           | _ => p
                           end
               | None => p
               end) in *.
    assert (H1 : Browser.contextRunning p1 = Browser.contextRunning p).
    { unfold p1. destruct (App.mediaStreamSourceRef st) as [n|]; [|reflexivity].
      destruct (Browser.nodes p !! n) as [[? [?|]]|]; reflexivity. }
    clearbody p1.
    set (p2 := match App.mediaStreamSourceRef st with
               | Some n => Browser.disconnect n p1
               | None => p1
               end) in *.
    assert (H2 : Browser.contextRunning p2 = Browser.contextRunning p).
    { unfold p2. destruct (App.mediaStreamSourceRef st); exact H1. }
    clearbody p2.
    set (p3 := match App.scriptProcessorRef st with
               | Some n => Browser.disconnect n p2
               | None => p2
               end) in *.
    assert (H3 : Browser.contextRunning p3 = Browser.contextRunning p).
    { unfold p3. destruct (App.scriptProcessorRef st); exact H2. }
    clearbody p3. rewrite <- H3.
    destruct (App.inputAudioContextRef st) as [c1|],
             (App.outputAudioContextRef st) as [c2|];
      cbn [Browser.close_context Browser.set_contextRunning
           Browser.contextRunning] in Hrun;
      repeat match type of Hrun with
             | <[_ := false]> _ !! _ = Some true =>
                 apply insert_not_kept in Hrun as [Hrun ?]; [|discriminate]
             end;
      (split; [exact Hrun|split; congruence]).
  - clearbody p. unfold App.cleanupAudio.
    cbn [App.browser App.mediaStreamSourceRef App.scriptProcessorRef
         App.inputAudioContextRef App.outputAudioContextRef].
    rewrite <- Hnd. intros i n Hn Hconn.
    set (p1 := match App.mediaStreamSourceRef st with
               | Some n => match Browser.nodes p !! n with
                           | Some {| Browser.mediaStream := Some m |} =>
                               Browser.stop_tracks m p
                           | _ => p
                           end
               | None => p
               end) in *.
    assert (H1 : Browser.nodes p1 = Browser.nodes p).
    { unfold p1. destruct (App.mediaStreamSourceRef st) as [k|]; [|reflexivity].
      destruct (Browser.nodes p !! k) as [[? [?|]]|]; reflexivity. }
    clearbody p1. rewrite <- H1.
    assert (Hn' :
      Browser.nodes
        match App.scriptProcessorRef st with
        | Some k =>
            Browser.disconnect k
              match App.mediaStreamSourceRef st with
              | Some k' => Browser.disconnect k' p1
              | None => p1
              end
        | None =>
            match App.mediaStreamSourceRef st with
            | Some k' => Browser.disconnect k' p1
            | None => p1
            end
        end !! i = Some n).
    { destruct (App.inputAudioContextRef st), (App.outputAudioContextRef st);
        exact Hn. }
    clear Hn.
    destruct (App.scriptProcessorRef st) as [proc|],
             (App.mediaStreamSourceRef st) as [src|];
      cbn [Browser.disconnect Browser.set_nodes Browser.nodes] in Hn';
      repeat match type of Hn' with
             | alter _ _ _ !! _ = Some _ =>
                 apply alter_disconnect_connected in Hn' as [Hn' ?];
                 [|exact Hconn]
             end;
      (split; [exact Hn'|split; congruence]).
Qed.

(** X14.  The component, first revision: [startRecording] followed by
    [stopRecording] (the call of [close()] returning) leaves the component
    without a handle and not recording, whatever the awaits of the start
    delivered; no session is open, no track live and no context running that
    was not so before the start.  A node that is connected afterwards was
    connected before the start, or is the analyser of this start, which
    [cleanupAudio] forgets without disconnecting it. *)
Theorem X14_record_then_stop_releases (streamGranted connected : bool)
    (st : App.State) :
  let started := (App.startRecording streamGranted connected st).1 in
  let stopped := App.stopRecording false started in
  (App.isRecording stopped = false /\ App.sessionPromiseRef stopped = None /\
   App.mediaStreamSourceRef stopped = None /\
   App.scriptProcessorRef stopped = None /\
   App.inputAudioContextRef stopped = None /\
   App.outputAudioContextRef stopped = None /\
   App.analyserNodeRef stopped = None) /\
  (forall i, Browser.sessions (App.browser stopped) !! i = Some Browser.Open ->
             Browser.sessions (App.browser st) !! i = Some Browser.Open) /\
  (forall i, Browser.tracksLive (App.browser stopped) !! i = Some true ->
             Browser.tracksLive (App.browser st) !! i = Some true) /\
  (forall i, Browser.contextRunning (App.browser stopped) !! i = Some true ->
             Browser.contextRunning (App.browser st) !! i = Some true) /\
  (forall i n, Browser.nodes (App.browser stopped) !! i = Some n ->
               Browser.connected n = true ->
               Browser.nodes (App.browser st) !! i = Some n \/
               App.analyserNodeRef started = Some i).
Proof.
  cbv zeta.
  set (started := (App.startRecording streamGranted connected st).1).
  destruct (stopRecording_unreferenced started) as (Hses & Htr & Hctx & Hnd).
  cbv zeta in *.
  split; [repeat split|].
  assert (Hin : forall {A} (l extra : list A) (i : nat) (x : A),
            (l ++ extra) !! i = Some x -> (i < length l)%nat -> l !! i = Some x).
  { intros A l extra i x Hlook Hlt. rewrite lookup_app_l in Hlook; assumption. }
  unfold started, App.startRecording in *.
  destruct (bool_decide (App.selectedDeviceId st = [])).
  { cbn [fst App.browser App.sessionPromiseRef App.mediaStreamSourceRef
         App.scriptProcessorRef App.inputAudioContextRef
         App.outputAudioContextRef App.analyserNodeRef] in *.
    split; [intros i Hi; apply Hses, Hi|].
    split; [intros i Hi; apply Htr, Hi|].
    split; [intros i Hi; apply Hctx, Hi|].
    intros i n Hn Hc. left. apply (Hnd i n Hn Hc). }
  destruct streamGranted; cbn [negb] in *.
  - cbn [fst App.browser App.sessionPromiseRef App.mediaStreamSourceRef
         App.scriptProcessorRef App.inputAudioContextRef
         App.outputAudioContextRef App.analyserNodeRef] in *.
    unfold Browser.connect in *.
    cbn [Browser.set_nodes Browser.set_sessions Browser.set_tracksLive
         Browser.set_contextRunning Browser.sessions Browser.tracksLive
         Browser.nodes Browser.contextRunning] in *.
    set (nds := Browser.nodes (App.browser st)) in *.
    set (trs := Browser.tracksLive (App.browser st)) in *.
    split; [|split; [|split]].
    + intros i Hi. destruct (Hses i Hi) as [Hopen Href].
      eapply Hin; [exact Hopen|].
      apply lookup_lt_Some in Hopen. rewrite length_app in Hopen. cbn in Hopen.
      assert (i <> length (Browser.sessions (App.browser st))) by congruence. lia.
    + intros i Hi. destruct (Htr i Hi) as [Hlive Href].
      eapply Hin; [exact Hlive|].
      apply lookup_lt_Some in Hlive as Hlt. rewrite length_app in Hlt. cbn in Hlt.
      assert (i <> length trs); [|lia].
      intros ->.
      apply (Href (length nds)
                  {| Browser.connected := true;
                     Browser.mediaStream := Some (length trs) |} eq_refl);
        [|reflexivity].
      rewrite list_lookup_alter_ne by lia.
      rewrite list_lookup_alter_ne by lia.
      rewrite list_lookup_alter_eq.
      rewrite lookup_app_r, Nat.sub_diag by lia. reflexivity.
    + intros i Hi. destruct (Hctx i Hi) as (Hrun & Hr1 & Hr2).
      eapply Hin; [exact Hrun|].
      apply lookup_lt_Some in Hrun. rewrite length_app in Hrun. cbn in Hrun.
      assert (i <> length (Browser.contextRunning (App.browser st))) by congruence.
      assert (i <> S (length (Browser.contextRunning (App.browser st))))
        by congruence.
      lia.
    + intros i n Hn Hc. destruct (Hnd i n Hn Hc) as (Hnode & Hr1 & Hr2).
      destruct (decide (i = S (S (length nds)))) as [->|Hne]; [right; reflexivity|].
      left.
      assert (i <> length nds) by congruence.
      assert (i <> S (length nds)) by congruence.
      rewrite !list_lookup_alter_ne in Hnode by congruence.
      eapply Hin; [exact Hnode|].
      apply lookup_lt_Some in Hnode. rewrite length_app in Hnode. cbn in Hnode. lia.
  - cbn [fst App.browser App.sessionPromiseRef App.mediaStreamSourceRef
         App.scriptProcessorRef App.inputAudioContextRef
         App.outputAudioContextRef App.analyserNodeRef] in *.
    cbn [Browser.set_contextRunning Browser.sessions Browser.tracksLive
         Browser.nodes Browser.contextRunning] in *.
    split; [intros i Hi; apply Hses, Hi|].
    split; [intros i Hi; apply Htr, Hi|].
    split; [|intros i n Hn Hc; left; apply (Hnd i n Hn Hc)].
    intros i Hi. destruct (Hctx i Hi) as (Hrun & Hr1 & Hr2).
    eapply Hin; [exact Hrun|].
    apply lookup_lt_Some in Hrun. rewrite length_app in Hrun. cbn in Hrun.
    assert (i <> length (Browser.contextRunning (App.browser st))) by congruence.
    assert (i <> S (length (Browser.contextRunning (App.browser st))))
      by congruence.
    lia.
Qed.

(** ** The component: one session at a time *)

Lemma single_session_open_sessions (l : list Browser.SessionStatus) (r : nat) :
  (forall id, l !! id = Some Browser.Open -> id = r) ->
  (length (List.filter (fun s => match s with Browser.Open => true | _ => false end)
                       l) <= 1)%nat.
Proof.
  revert r. induction l as [|s l IH]; intros r Hone; [cbn; lia|].
  destruct s; cbn [List.filter length].
  - assert (Hr : 0%nat = r) by (apply Hone; reflexivity).
    rewrite filter_none; [cbn; lia|].
    apply Forall_forall. intros s Hs.
    apply list_elem_of_lookup in Hs as [i Hi].
    destruct s; try reflexivity.
    specialize (Hone (S i) Hi). lia.
  - apply (IH (pred r)). intros id Hid. specialize (Hone (S id) Hid). lia.
  - apply (IH (pred r)). intros id Hid. specialize (Hone (S id) Hid). lia.
Qed.

Lemma stopRecording_single st :
  single_session st -> single_session (App.stopRecording false st) /\
  App.isRecording (App.stopRecording false st) = false.
Proof.
  intros [Hopen _].
  destruct (stopRecording_unreferenced st) as (Hses & _). cbv zeta in Hses.
  split; [|reflexivity]. split.
  - intros id Hid. destruct (Hses id Hid) as [Hwas Href].
    apply Hopen in Hwas. contradiction.
  - intros _. reflexivity.
Qed.

Lemma startRecording_single streamGranted connected st :
  single_session st -> App.isRecording st = false ->
  single_session (App.startRecording streamGranted connected st).1.
Proof.
  intros [Hopen Hidle] Hrec. specialize (Hidle Hrec).
  assert (Hnone : forall id,
            Browser.sessions (App.browser st) !! id <> Some Browser.Open).
  { intros id Hid. apply Hopen in Hid. congruence. }
  unfold App.startRecording.
  destruct (bool_decide (App.selectedDeviceId st = [])).
  { split; cbn; [exact Hopen|intros _; exact Hidle]. }
  destruct streamGranted; cbn [negb fst].
  - split; cbn; [|discriminate].
    intros id Hid. apply lookup_app_Some in Hid as [Hid|[Hge Hid]].
    + apply Hnone in Hid. destruct Hid.
    + apply lookup_lt_Some in Hid as Hlt. cbn in Hlt. f_equal. lia.
  - split; cbn; [|discriminate].
    intros id Hid. apply Hnone in Hid. destruct Hid.
Qed.

(** The invariant over the clicks, from the first render. *)
Lemma run_single_session (deviceId : jsstring) (text : AppUI.TextState)
    (events : list AppUI.Event) :
  single_session (AppUI.run false events (App.initial deviceId, text)).1.
Proof.
  unfold AppUI.run.
  induction events as [|ev events IH] using rev_ind.
  - split; cbn; [|reflexivity]. intros id Hid. discriminate Hid.
  - rewrite foldl_app. cbn [foldl].
    set (ui := foldl (AppUI.step false) (App.initial deviceId, text) events) in *.
    destruct ev as [g c|fav g c|]; cbn [AppUI.step fst].
    + unfold App.handleMicClick.
      destruct (App.isRecording ui.1) eqn:Hrec; cbn [fst].
      * apply stopRecording_single, IH.
      * apply startRecording_single; assumption.
    + unfold AppUI.handleFavoriteClick. cbn [fst].
      destruct (App.isRecording ui.1) eqn:Hrec.
      * destruct (stopRecording_single ui.1 IH) as [Hs Hr].
        apply startRecording_single; assumption.
      * apply startRecording_single; assumption.
    + exact IH.
Qed.

Lemma single_session_bound (st : App.State) :
  single_session st -> (Browser.open_sessions (App.browser st) <= 1)%nat.
Proof.
  intros [Hopen _]. unfold Browser.open_sessions.
  destruct (App.sessionPromiseRef st) as [r|].
  - apply (single_session_open_sessions _ r). intros id Hid.
    apply Hopen in Hid. congruence.
  - apply (single_session_open_sessions _ 0%nat). intros id Hid.
    apply Hopen in Hid. discriminate Hid.
Qed.




(** X15.  One session at a time.  Starting from the first render, after any
    sequence of clicks on the microphone button, on favourite pairs and on
    the swap button (each handler running to its end before the next click,
    the calls of [close()] returning, whatever [getUserMedia] and the
    connection deliver), every open session is the one the component
    references: at most one session is open, and none when the component is
    not recording. *)
Theorem X15_single_session (deviceId : jsstring) (text : AppUI.TextState)
    (events : list AppUI.Event) :
  let st := (AppUI.run false events (App.initial deviceId, text)).1 in
  single_session st /\
  (Browser.open_sessions (App.browser st) <= 1)%nat /\
  (App.isRecording st = false -> Browser.open_sessions (App.browser st) = 0%nat).
Proof.
  cbv zeta.
  assert (Hinv := run_single_session deviceId text events).
  split; [exact Hinv|]. split; [apply single_session_bound, Hinv|].
  destruct Hinv as [Hopen Hidle]. unfold Browser.open_sessions.
  intros Hrec. specialize (Hidle Hrec). rewrite filter_none; [reflexivity|].
  apply Forall_forall. intros s Hs.
  apply list_elem_of_lookup in Hs as [i Hi].
  destruct s; try reflexivity. apply Hopen in Hi. congruence.
Qed.

(** ** The second revision: the history of entries *)

Lemma update_history_spec text isFinal prev :
  App2.update_history text isFinal prev
  = without_open_user prev ++ [{| App2.speaker := App2.user; App2.text := text |}].
Proof.
  unfold App2.update_history, without_open_user.
  destruct (App2.is_user (last prev)), isFinal; reflexivity.
Qed.

Lemma without_open_user_snoc history text :
  without_open_user
    (history ++ [{| App2.speaker := App2.user; App2.text := text |}])
  = history.
Proof.
  unfold without_open_user. rewrite last_snoc. cbn.
  apply removelast_last.
Qed.

Lemma no_adjacent_users_snoc history entry :
  no_adjacent_users history ->
  (App2.is_user (last history) = true -> App2.speaker entry = App2.model) ->
  no_adjacent_users (history ++ [entry]).
Proof.
  intros Hold Hlast i e1 e2 H1 H2 Hu1 Hu2.
  destruct (decide (S i < length history)%nat) as [Hlt|Hge].
  - rewrite lookup_app_l in H1, H2 by lia. apply (Hold i e1 e2); assumption.
  - assert (Hi : S i = length history).
    { apply lookup_lt_Some in H2. rewrite length_app in H2. cbn in H2. lia. }
    rewrite lookup_app_l in H1 by lia.
    rewrite lookup_app_r, Hi, Nat.sub_diag in H2 by lia.
    injection H2 as <-.
    assert (Hl : last history = Some e1) by (rewrite last_lookup, <- Hi; exact H1).
    rewrite Hl in Hlast. destruct e1 as [[|] ?]; cbn in *; [|discriminate Hu1].
    rewrite Hlast in Hu2 by reflexivity. discriminate Hu2.
Qed.

Lemma model_entries_app l1 l2 :
  model_entries (l1 ++ l2) = model_entries l1 ++ model_entries l2.
Proof. apply List.filter_app. Qed.

Lemma without_open_user_ok history :
  no_adjacent_users history ->
  no_adjacent_users (without_open_user history) /\
  App2.is_user (last (without_open_user history)) = false /\
  model_entries (without_open_user history) = model_entries history.
Proof.
  intros Hok. unfold without_open_user.
  destruct (App2.is_user (last history)) eqn:Hlast; [|auto].
  destruct history as [|e history _] using rev_ind; [discriminate Hlast|].
  rewrite last_snoc in Hlast. rewrite removelast_last.
  split; [|split].
  - intros i e1 e2 H1 H2. apply (Hok i e1 e2); apply lookup_app_l_Some; assumption.
  - destruct (last history) as [[[|] ?]|] eqn:Hprev; try reflexivity.
    exfalso. rewrite last_lookup in Hprev.
    destruct history as [|e0 history]; [discriminate Hprev|].
    cbn [length pred] in Hprev.
    apply (Hok (length history) {| App2.speaker := App2.user; App2.text := text |} e).
    + apply lookup_app_l_Some, Hprev.
    + rewrite lookup_app_r by (cbn; lia). cbn [length].
      rewrite Nat.sub_diag. reflexivity.
    + reflexivity.
    + destruct e as [[|] ?]; [reflexivity|discriminate Hlast].
  - unfold model_entries. rewrite List.filter_app. cbn.
    destruct e as [[|] ?]; [|discriminate Hlast]. cbn. rewrite app_nil_r. reflexivity.
Qed.

Lemma App2_onmessage_step targetLangName message st :
  no_adjacent_users (App2.transcriptionHistory st) ->
  let st' := App2.onmessage targetLangName message st in
  no_adjacent_users (App2.transcriptionHistory st') /\
  length (model_entries (App2.transcriptionHistory st'))
  = (length (model_entries (App2.transcriptionHistory st))
     + if turnComplete message then 1 else 0)%nat /\
  (turnComplete message = true ->
   App2.currentInputText st' = [] /\
   exists entry, last (App2.transcriptionHistory st') = Some entry /\
                 App2.speaker entry = App2.model).
Proof.
  intros Hok. cbv zeta.
  destruct (without_open_user_ok _ Hok) as (Hbase & Hlast & Hcount).
  assert (Hmid :
    no_adjacent_users (App2.onMessage message (App2.transcriptionHistory st)) /\
    model_entries (App2.onMessage message (App2.transcriptionHistory st))
    = model_entries (App2.transcriptionHistory st)).
  { unfold App2.onMessage. destruct (inputTranscription message) as [text|]; [|auto].
    rewrite update_history_spec. split.
    - apply no_adjacent_users_snoc; [exact Hbase|]. rewrite Hlast. discriminate.
    - rewrite model_entries_app, Hcount. apply app_nil_r. }
  destruct Hmid as [Hmid Hsame].
  unfold App2.onmessage.
  destruct (turnComplete message);
    cbn [App2.transcriptionHistory App2.currentInputText].
  - split; [|split].
    + apply no_adjacent_users_snoc; [exact Hmid|reflexivity].
    + unfold App2.onTurnComplete.
      rewrite model_entries_app, length_app, Hsame. reflexivity.
    + intros _. split; [reflexivity|]. eexists.
      unfold App2.onTurnComplete. rewrite last_snoc. split; reflexivity.
  - split; [exact Hmid|]. split; [rewrite Hsame; lia|discriminate].
Qed.

(** X16.  The history of the second revision.  Over any run of messages,
    from a history without two user entries in a row: no two user entries
    are ever in a row (a turn shows at most one), and the run adds exactly
    one model entry for every message that carries the turn-complete
    signal. *)
Theorem X16_one_user_entry_per_turn (targetLangName : jsstring)
    (messages : list LiveServerMessage) (st : App2.State) :
  no_adjacent_users (App2.transcriptionHistory st) ->
  let st' := App2_run targetLangName messages st in
  no_adjacent_users (App2.transcriptionHistory st') /\
  length (model_entries (App2.transcriptionHistory st'))
  = (length (model_entries (App2.transcriptionHistory st))
     + turn_boundaries messages)%nat.
Proof.
  intros Hok. cbv zeta. unfold App2_run.
  induction messages as [|message messages [IHok IHcount]] using rev_ind.
  - cbn. split; [exact Hok|]. unfold turn_boundaries. cbn. lia.
  - rewrite foldl_app. cbn [foldl].
    destruct (App2_onmessage_step targetLangName message _ IHok)
      as (Hok' & Hcount' & _).
    cbv zeta in *. split; [exact Hok'|].
    rewrite Hcount', IHcount. unfold turn_boundaries.
    rewrite List.filter_app, length_app. cbn.
    destruct (turnComplete message); cbn; lia.
Qed.

Lemma X16_one_user_entry_per_turn_witness :
  let messages := [input_fragment (js "Hel"); input_fragment (js "lo");
                   turn_complete; input_fragment (js "Bye"); turn_complete] in
  let st' := App2_run (js "German") messages App2.initial in
  no_adjacent_users (App2.transcriptionHistory st') /\
  length (model_entries (App2.transcriptionHistory st'))
  = (length (model_entries (App2.transcriptionHistory App2.initial))
     + turn_boundaries messages)%nat.
Proof.
  apply (X16_one_user_entry_per_turn (js "German")).
  intros i e1 e2 H1. discriminate H1.
Defined.

(** X17.  The last fragment wins.  Whatever the history and however many
    input fragments a turn brings (at least one), each fragment replaces the
    text of the open user entry: at the turn-complete signal the turn has
    left one user entry, whose text is the LAST fragment alone, followed by
    the model placeholder, and [currentInputText] is empty again. *)
Theorem X17_last_fragment_wins (targetLangName : jsstring)
    (texts : list jsstring) (final : jsstring) (st : App2.State) :
  last texts = Some final ->
  let st' := App2_run targetLangName
               (map input_fragment texts ++ [turn_complete]) st in
  App2.transcriptionHistory st'
  = without_open_user (App2.transcriptionHistory st)
    ++ [ {| App2.speaker := App2.user; App2.text := final |};
         {| App2.speaker := App2.model;
            App2.text := js "[Audio translation to " ++ targetLangName ++ js "]" |} ]
  /\ App2.currentInputText st' = [].
Proof.
  intros Hlast. cbv zeta.
  assert (Hfrag :
    App2_run targetLangName (map input_fragment texts) st
    = {| App2.transcriptionHistory :=
           without_open_user (App2.transcriptionHistory st)
           ++ [{| App2.speaker := App2.user; App2.text := final |}];
         App2.currentInputText := final |}).
  { clear -Hlast. revert final Hlast.
    induction texts as [|text texts IH] using rev_ind; intros final Hlast;
      [discriminate Hlast|].
    rewrite last_snoc in Hlast. injection Hlast as ->.
    unfold App2_run in *. rewrite map_app, foldl_app. cbn [map foldl].
    unfold App2.onmessage at 1. cbn [input_fragment inputTranscription turnComplete].
    unfold App2.onMessage. cbn [input_fragment inputTranscription turnComplete].
    rewrite update_history_spec. f_equal. f_equal.
    destruct texts as [|text0 texts _] using rev_ind; [reflexivity|].
    rewrite (IH text0) by apply last_snoc. cbn [App2.transcriptionHistory].
    apply without_open_user_snoc. }
  unfold App2_run in *. rewrite foldl_app, Hfrag. cbn [foldl].
  unfold App2.onmessage, App2.onMessage, App2.onTurnComplete. cbn.
  rewrite <- app_assoc. split; reflexivity.
Qed.

Lemma X17_last_fragment_wins_witness :
  let st' := App2_run (js "German")
               (map input_fragment [js "Hel"; js "Hello"; js "Hello you"]
                ++ [turn_complete]) App2.initial in
  App2.transcriptionHistory st'
  = without_open_user (App2.transcriptionHistory App2.initial)
    ++ [ {| App2.speaker := App2.user; App2.text := js "Hello you" |};
         {| App2.speaker := App2.model;
            App2.text := js "[Audio translation to " ++ js "German" ++ js "]" |} ]
  /\ App2.currentInputText st' = [].
Proof.
  apply (X17_last_fragment_wins (js "German")
           [js "Hel"; js "Hello"; js "Hello you"] (js "Hello you") App2.initial).
  reflexivity.
Defined.

(** ** The history of the script keeps its last six lines *)

Lemma is_prefix_app (q u s : jsstring) :
  is_prefix q u = true -> is_prefix q (u ++ s) = true.
Proof.
  revert u. induction q as [|a q IH]; intros [|b u]; cbn; try congruence.
  intros H. apply andb_true_iff in H as [-> H]. cbn. apply IH, H.
Qed.

Lemma no_break_weaken (p s : jsstring) :
  no_break p s = true -> no_break p [] = true.
Proof.
  induction p as [|c p IH]; [reflexivity|]. cbn [no_break].
  intros H. apply andb_true_iff in H as [H1 H2].
  rewrite (IH H2), andb_true_r.
  destruct (is_prefix Script.br ((c :: p) ++ [])) eqn:Hpre; [|reflexivity].
  rewrite app_nil_r in Hpre. rewrite (is_prefix_app _ _ s Hpre) in H1.
  discriminate H1.
Qed.

Lemma no_break_snoc (cur : jsstring) (c : Z) (rest : jsstring) :
  no_break cur (c :: rest) = true -> is_prefix Script.br (c :: rest) = false ->
  no_break (cur ++ [c]) rest = true.
Proof.
  intros Hcur Hc. induction cur as [|a cur IH].
  - cbn [no_break app]. rewrite Hc. reflexivity.
  - cbn [no_break app] in *. apply andb_true_iff in Hcur as [H1 H2].
    rewrite (IH H2), andb_true_r.
    change (a :: cur ++ [c]) with ((a :: cur) ++ [c]).
    rewrite <- app_assoc. exact H1.
Qed.

(** The pieces [split] returns hold no separator. *)
Lemma split_from_pieces (s cur : jsstring) (skip : nat) :
  (skip = 0%nat -> no_break cur s = true) -> (skip <> 0%nat -> cur = []) ->
  Forall (fun p => no_break p [] = true) (split_from Script.br s cur skip).
Proof.
  revert cur skip. induction s as [|c rest IH]; intros cur skip H0 Hpos.
  - cbn [split_from]. constructor; [|constructor].
    destruct skip; [apply H0; reflexivity|rewrite Hpos by discriminate; reflexivity].
  - cbn [split_from]. destruct skip as [|k].
    + specialize (H0 eq_refl).
      destruct (is_prefix Script.br (c :: rest)) eqn:Hpre.
      * constructor; [eapply no_break_weaken, H0|].
        apply IH; [discriminate|reflexivity].
      * apply IH; [|congruence]. intros _. apply no_break_snoc; assumption.
    + rewrite Hpos by discriminate. apply IH; [reflexivity|reflexivity].
Qed.

Lemma no_break_before_break (p rest : jsstring) :
  no_break p [] = true -> p <> [] ->
  is_prefix Script.br (p ++ Script.br ++ rest) = false.
Proof.
  intros Hp Hne. destruct p as [|c1 p]; [congruence|].
  cbn [no_break] in Hp. apply andb_true_iff in Hp as [Hp _].
  rewrite app_nil_r in Hp. apply negb_true_iff in Hp.
  destruct p as [|c2 [|c3 [|c4 p]]]; cbn in *;
    rewrite ?andb_false_r; try reflexivity.
  rewrite ?andb_true_r in *. exact Hp.
Qed.

Lemma split_from_piece (p cur rest : jsstring) :
  no_break p [] = true ->
  split_from Script.br (p ++ Script.br ++ rest) cur 0
  = (cur ++ p) :: split_from Script.br rest [] 0.
Proof.
  revert cur. induction p as [|c p IH]; intros cur Hp.
  - rewrite app_nil_r. reflexivity.
  - assert (Hpre := no_break_before_break (c :: p) rest Hp ltac:(discriminate)).
    cbn [no_break] in Hp. apply andb_true_iff in Hp as [_ Hp].
    change ((c :: p) ++ Script.br ++ rest) with (c :: (p ++ Script.br ++ rest)) in *.
    cbn [split_from]. rewrite Hpre. rewrite (IH (cur ++ [c]) Hp).
    rewrite <- app_assoc. reflexivity.
Qed.

Lemma split_of_join (pieces : list jsstring) :
  Forall (fun p => no_break p [] = true) pieces -> pieces <> [] ->
  split (join pieces Script.br ++ Script.br) Script.br = pieces ++ [[]].
Proof.
  intros Hall Hne. unfold split.
  induction Hall as [|p pieces Hp Hall IH]; [congruence|].
  destruct pieces as [|q pieces].
  - cbn [join app].
    rewrite <- (app_nil_r (p ++ Script.br)), <- app_assoc.
    rewrite (split_from_piece p [] [] Hp). reflexivity.
  - change (join (p :: q :: pieces) Script.br)
      with (p ++ Script.br ++ join (q :: pieces) Script.br).
    rewrite <- !app_assoc. rewrite (split_from_piece p [] _ Hp).
    rewrite IH by discriminate. reflexivity.
Qed.

(** What trimming does to the lines. *)
Lemma trim_history_lines (full : jsstring) :
  transcript_lines (Script.trim_history full)
  = slice_last Script.MAX_TRANSCRIPT_LINES (transcript_lines full).
Proof.
  unfold Script.trim_history.
  change (List.filter _ (split full Script.br)) with (transcript_lines full).
  destruct (Script.MAX_TRANSCRIPT_LINES <? length (transcript_lines full))%nat
    eqn:Hlong.
  - apply Nat.ltb_lt in Hlong.
    set (kept := slice_last Script.MAX_TRANSCRIPT_LINES (transcript_lines full)).
    assert (Hsub : forall p, p ∈ kept -> p ∈ transcript_lines full).
    { intros p Hin. unfold kept, slice_last in Hin.
      apply list_elem_of_lookup in Hin as [i Hi]. rewrite lookup_drop in Hi.
      eapply list_elem_of_lookup_2, Hi. }
    assert (Hlines : forall p, p ∈ transcript_lines full ->
              negb (bool_decide (trim p = [])) = true /\ no_break p [] = true).
    { intros p Hin. unfold transcript_lines in Hin.
      apply list_elem_of_In, filter_In in Hin as [Hin Hblank].
      split; [exact Hblank|].
      assert (Hall := split_from_pieces full [] 0 (fun _ => eq_refl)
                        ltac:(congruence)).
      rewrite Forall_forall in Hall. apply Hall, list_elem_of_In, Hin. }
    unfold transcript_lines at 1. rewrite split_of_join.
    + rewrite List.filter_app. cbn [List.filter].
      change (negb (bool_decide (trim [] = []))) with false. cbn iota.
      rewrite app_nil_r. apply filter_all, Forall_forall.
      intros p Hin. apply Hlines, Hsub, Hin.
    + apply Forall_forall. intros p Hin. apply Hlines, Hsub, Hin.
    + intros Hnil. apply (f_equal length) in Hnil.
      unfold kept, slice_last in Hnil. rewrite length_drop in Hnil.
      cbn in Hnil. unfold Script.MAX_TRANSCRIPT_LINES in *. lia.
  - apply Nat.ltb_ge in Hlong. rewrite slice_last_short by exact Hlong.
    reflexivity.
Qed.

(** X18.  Trimming the history of the script keeps exactly its last six
    non-blank lines: the non-blank lines of [trim_history full] are the last
    six non-blank lines of [full] (all of them when there are no more than
    six), for every text [full]. *)
Theorem X18_history_keeps_last_six_lines (full : jsstring) :
  transcript_lines (Script.trim_history full)
  = slice_last Script.MAX_TRANSCRIPT_LINES (transcript_lines full) /\
  (length (transcript_lines (Script.trim_history full))
   <= Script.MAX_TRANSCRIPT_LINES)%nat.
Proof.
  split; [apply trim_history_lines|].
  rewrite trim_history_lines. apply slice_last_length.
Qed.

(** ** [decode] on text that is not base64 *)

Lemma elem_of_removelast {A} (l : list A) (c x : A) :
  c ∈ l -> last l = Some x -> c <> x -> c ∈ removelast l.
Proof.
  destruct l as [|y l _] using rev_ind; [discriminate|].
  rewrite last_snoc, removelast_last. intros Hin [= ->] Hne.
  apply elem_of_app in Hin as [Hin|Hin]; [exact Hin|].
  apply list_elem_of_singleton in Hin. contradiction.
Qed.

Lemma strip_padding_keeps (data : jsstring) (c : Z) :
  c ∈ data -> c <> 61 -> c ∈ strip_padding data.
Proof.
  intros Hin Hne. unfold strip_padding.
  assert (Hstep : forall l, c ∈ l -> ends_with_equals l = true -> c ∈ removelast l).
  { intros l Hl Hends. unfold ends_with_equals in Hends.
    destruct (last l) as [x|] eqn:Hlast; [|discriminate Hends].
    apply Z.eqb_eq in Hends. subst x.
    eapply elem_of_removelast; eassumption. }
  destruct (length data mod 4 =? 0)%nat; [|exact Hin].
  destruct (ends_with_equals data) eqn:H1; [|exact Hin].
  destruct (ends_with_equals (removelast data)) eqn:H2; auto.
Qed.

(** X19.  [decode] throws [InvalidCharacterError] on any text that holds a
    character which is neither of the base64 alphabet, nor the padding
    character, nor ASCII whitespace (the [-] and [_] of the URL-safe
    alphabet, for instance), wherever the character stands. *)
Theorem X19_decode_rejects_foreign_characters (text : jsstring) (c : Z) :
  c ∈ text -> ascii_whitespace c = false -> b64_index c = None -> c <> 61 ->
  Audio.decode text = Throw InvalidCharacterError.
Proof.
  intros Hin Hws Hidx Hpad. unfold Audio.decode, atob.
  set (data := strip_padding _).
  assert (Hdata : c ∈ data).
  { apply strip_padding_keeps; [|exact Hpad].
    apply list_elem_of_In, filter_In. split; [apply list_elem_of_In, Hin|].
    rewrite Hws. reflexivity. }
  destruct (length data mod 4 =? 1)%nat; [reflexivity|].
  destruct (forallb _ data) eqn:Hall; [|reflexivity].
  exfalso. rewrite forallb_forall in Hall.
  specialize (Hall c (proj1 (list_elem_of_In _ _) Hdata)).
  apply bool_decide_eq_true in Hall. rewrite Hidx in Hall.
  destruct Hall as [? Hall]. discriminate Hall.
Qed.

Lemma X19_decode_rejects_foreign_characters_witness :
  Audio.decode (js "AA-_") = Throw InvalidCharacterError.
Proof.
  apply (X19_decode_rejects_foreign_characters (js "AA-_") 45).
  - apply list_elem_of_In. cbn. auto.
  - reflexivity.
  - reflexivity.
  - discriminate.
Defined.

(** ** Messages that arrive when there is no output context *)

Lemma handleServerMessage_no_context (ops : DoubleOps) message currentTime st :
  Script.outputAudioContext st = None ->
  let r := Script.handleServerMessage message currentTime st in
  r.2 = match inlineData message with
        | NoParts => Abrupt TypeError
        | _ => Normal
        end /\
  Script.outputAudioContext r.1 = None /\
  length (Browser.sources (Script.browser r.1))
  = length (Browser.sources (Script.browser st)).
Proof.
  intros Hctx. cbv zeta.
  destruct (handleServerMessage_frame ops message currentTime st)
    as ((_ & _ & _ & Hout & _) & _ & _).
  cbv zeta in Hout. split; [|split; [congruence|]].
  - unfold Script.handleServerMessage, Script.handle_audio.
    cbn [Script.outputAudioContext Script.set_transcripts]. rewrite Hctx.
    destruct (inlineData message); reflexivity.
  - unfold Script.handleServerMessage, Script.handle_audio.
    cbn [Script.outputAudioContext Script.set_transcripts]. rewrite Hctx.
    assert (Hlen : forall st0,
              length (Browser.sources
                        (Script.browser (Script.handle_interrupted message st0)))
              = length (Browser.sources (Script.browser st0))).
    { intros st0. destruct (interrupted message) eqn:Hint.
      - apply (interrupted_block message st0 Hint).
      - unfold Script.handle_interrupted. rewrite Hint. reflexivity. }
    destruct (inlineData message); cbn [fst]; rewrite ?Hlen; reflexivity.
Qed.

(** X20.  The script without an output context (before the first start,
    and after a stop that closed the context): whatever messages arrive, no
    source is scheduled, and the audio of a message is not looked at, so
    that a payload that would not decode does not make the handler throw.
    Without a context the handler throws on one kind of message only: a
    [modelTurn] without [parts], whose read, which comes before the test of
    the context, is a TypeError. *)
Theorem X20_script_ignores_audio_without_context (ops : DoubleOps)
    (arrivals : list (LiveServerMessage * Q)) (message : LiveServerMessage)
    (currentTime : Q) (st : Script.State) :
  Script.outputAudioContext st = None ->
  let r := Script.handleServerMessage message currentTime
             (Script.handle_all arrivals st) in
  (inlineData message <> NoParts -> r.2 = Normal) /\
  (inlineData message = NoParts -> r.2 = Abrupt TypeError) /\
  length (Browser.sources (Script.browser r.1))
  = length (Browser.sources (Script.browser st)).
Proof.
  intros Hctx. cbv zeta.
  assert (Hrun : Script.outputAudioContext (Script.handle_all arrivals st) = None /\
                 length (Browser.sources
                           (Script.browser (Script.handle_all arrivals st)))
                 = length (Browser.sources (Script.browser st))).
  { unfold Script.handle_all.
    induction arrivals as [|[m t] arrivals [IHc IHl]] using rev_ind; [auto|].
    rewrite foldl_app. cbn [foldl fst snd].
    destruct (handleServerMessage_no_context ops m t _ IHc) as (_ & Hc & Hl).
    cbv zeta in *. split; [exact Hc|congruence]. }
  destruct Hrun as [Hc Hl].
  destruct (handleServerMessage_no_context ops message currentTime _ Hc)
    as (Hn & _ & Hl').
  cbv zeta in *. rewrite Hn. split; [|split; [|congruence]].
  - intros Hparts. destruct (inlineData message); [reflexivity..|congruence].
  - intros ->. reflexivity.
Qed.

Lemma X20_script_ignores_audio_without_context_witness :
  let st := (Script.stopSession false false session_open).1 in
  let undecodable := audio_chunk (js "AQID") in
  let r := Script.handleServerMessage (ops := exact_ops) undecodable 1
             (Script.handle_all (ops := exact_ops)
                [(audio_chunk (js "AAAA"), 0%Q)] st) in
  (inlineData undecodable <> NoParts -> r.2 = Normal) /\
  (inlineData undecodable = NoParts -> r.2 = Abrupt TypeError) /\
  length (Browser.sources (Script.browser r.1))
  = length (Browser.sources (Script.browser st)).
Proof.
  apply (X20_script_ignores_audio_without_context exact_ops). reflexivity.
Defined.

(** ** The histories of the script over a session *)

(** X21.  The two histories of the script never show more than six
    non-blank lines: if they do not at the start (they are empty when a
    session starts), they do not after any run of messages and ['ended']
    events, however many turns the run completes. *)
Theorem X21_history_never_exceeds_six_lines (ops : DoubleOps)
    (events : list ScriptEvent) (st : Script.State) :
  (length (transcript_lines (Script.fullUserTranscript (Script.transcripts st)))
   <= Script.MAX_TRANSCRIPT_LINES)%nat ->
  (length (transcript_lines (Script.fullModelTranscript (Script.transcripts st)))
   <= Script.MAX_TRANSCRIPT_LINES)%nat ->
  let st' := script_run events st in
  (length (transcript_lines (Script.fullUserTranscript (Script.transcripts st')))
   <= Script.MAX_TRANSCRIPT_LINES)%nat /\
  (length (transcript_lines (Script.fullModelTranscript (Script.transcripts st')))
   <= Script.MAX_TRANSCRIPT_LINES)%nat.
Proof.
  intros Hu Hm. cbv zeta. unfold script_run.
  induction events as [|ev events [IHu IHm]] using rev_ind; [auto|].
  rewrite foldl_app. cbn [foldl].
  set (mid := foldl script_step st events) in *.
  destruct ev as [message currentTime|source]; cbn [script_step]; [|auto].
  destruct (handleServerMessage_frame ops message currentTime mid) as (_ & -> & _).
  unfold Script.handle_transcriptions.
  destruct (turnComplete message).
  - cbn [Script.fullUserTranscript Script.fullModelTranscript].
    rewrite !trim_history_lines. split; apply slice_last_length.
  - destruct (inputTranscription message), (outputTranscription message);
      cbn [Script.fullUserTranscript Script.fullModelTranscript]; auto.
Qed.

Lemma X21_history_never_exceeds_six_lines_witness :
  let events := [Message (input_fragment (js "Hello")) 0; Message turn_complete 1;
                 Ended 0%nat; Message turn_complete 2] in
  let st' := script_run (H := exact_ops) events session_open in
  (length (transcript_lines (Script.fullUserTranscript (Script.transcripts st')))
   <= Script.MAX_TRANSCRIPT_LINES)%nat /\
  (length (transcript_lines (Script.fullModelTranscript (Script.transcripts st')))
   <= Script.MAX_TRANSCRIPT_LINES)%nat.
Proof.
  apply (X21_history_never_exceeds_six_lines exact_ops);
    cbn; unfold Script.MAX_TRANSCRIPT_LINES; lia.
Defined.

(** ** Playback after an interruption *)

Lemma handle_audio_decodes (ops : DoubleOps) message currentTime st :
  audio_decodes message = true ->
  (Script.handle_audio message currentTime st).2 = Normal.
Proof.
  unfold audio_decodes, Script.handle_audio.
  destruct (inlineData message) as [base64Audio| |];
    [|reflexivity|discriminate].
  destruct (Script.outputAudioContext st); [|reflexivity].
  destruct (_ ≫= _) as [buffer|e]; [destruct (bool_decide _); reflexivity|].
  intros ->. reflexivity.
Qed.

(** X22.  After an interruption playback resumes at once: when a message
    with the interruption signal, whose audio payload, if it has one, is
    read and decoded without an exception, has been handled, the next
    decodable chunk is started at the clock of its arrival and not after the
    audio that was interrupted, and it is the only pending source. *)
Theorem X22_playback_resumes_at_clock (ops : DoubleOps)
    (message : LiveServerMessage) (bytes : list Z) (t1 t2 : Q)
    (st : Script.State) :
  interrupted message = true -> audio_decodes message = true ->
  is_Some (Script.outputAudioContext st) ->
  Forall is_byte bytes -> Nat.even (length bytes) = true -> bytes <> [] ->
  (0 <= t2)%Q ->
  let st1 := (Script.handleServerMessage message t1 st).1 in
  let r := Script.handleServerMessage (audio_chunk (b64_encode bytes)) t2 st1 in
  r.2 = Normal /\
  exists n,
    Browser.sources (Script.browser r.1)
    = Browser.sources (Script.browser st1) ++ [n] /\
    (Browser.startTime n == t2)%Q /\
    Browser.stopped n = false /\
    Script.outputSources r.1 = [length (Browser.sources (Script.browser st1))].
Proof.
  intros Hint Hdec Hctx Hb Heven Hne Ht2. cbv zeta.
  set (st1 := (Script.handleServerMessage message t1 st).1).
  destruct (handleServerMessage_frame ops message t1 st)
    as ((_ & _ & _ & Hout & _) & _ & _).
  cbv zeta in Hout. fold st1 in Hout.
  assert (Hctx1 : is_Some (Script.outputAudioContext st1)) by (rewrite Hout; exact Hctx).
  assert (Hreset : Script.outputSources st1 = [] /\ Script.nextStartTime st1 = 0%Q).
  { unfold st1, Script.handleServerMessage.
    match goal with
    | |- context [Script.handle_audio message t1 ?s] =>
        assert (Hnormal := handle_audio_decodes ops message t1 s Hdec);
        destruct (Script.handle_audio message t1 s) as [st0 [|e]];
        [|discriminate Hnormal]
    end.
    cbn [fst]. destruct (interrupted_block message st0 Hint) as (H1 & H2 & _).
    cbv zeta in *. auto. }
  destruct Hreset as [Hset Hnext]. clearbody st1.
  destruct Hctx1 as [ctx Hctx1].
  unfold Script.handleServerMessage, Script.handle_audio.
  cbn [Script.outputAudioContext Script.set_transcripts inlineData audio_chunk].
  rewrite Hctx1.
  rewrite bool_decide_eq_false_2 by (apply b64_encode_nonempty; assumption).
  rewrite decode_b64_encode by exact Hb. cbn [mbind result_bind].
  rewrite decodeAudioData_mono; [|exact Heven| |reflexivity].
  2:{ destruct bytes as [|a [|b l]]; [congruence|discriminate Heven|cbn; lia]. }
  cbn. rewrite Hnext, Hset. split; [reflexivity|].
  eexists. split; [reflexivity|]. split; [|split; reflexivity].
  cbn. unfold Math_max. destruct (Qlt_le_dec 0 t2) as [Hlt|Hle]; [reflexivity|].
  apply Qle_antisym; assumption.
Qed.

Lemma X22_playback_resumes_at_clock_witness :
  let st := (Script.handleServerMessage (ops := exact_ops)
               (audio_chunk (js "AAAAAA==")) 5 session_open).1 in
  let st1 := (Script.handleServerMessage (ops := exact_ops) interruption 6 st).1 in
  let r := Script.handleServerMessage (ops := exact_ops)
             (audio_chunk (b64_encode [1; 2])) 7 st1 in
  r.2 = Normal /\
  exists n,
    Browser.sources (Script.browser r.1)
    = Browser.sources (Script.browser st1) ++ [n] /\
    (Browser.startTime n == 7)%Q /\
    Browser.stopped n = false /\
    Script.outputSources r.1 = [length (Browser.sources (Script.browser st1))].
Proof.
  cbv zeta.
  apply (X22_playback_resumes_at_clock exact_ops interruption [1; 2] 6 7).
  - reflexivity.
  - reflexivity.
  - eexists. reflexivity.
  - repeat constructor; unfold is_byte; lia.
  - reflexivity.
  - discriminate.
  - discriminate.
Defined.
